(** * MallocMe: an explicit-free-list allocator with boundary tags

    A shallow embedding of [mm.c] (explicit free list threaded through the
    payloads of free blocks by 32-bit offsets, first-fit placement,
    boundary-tag coalescing) and the properties of its public interface
    [mm_init], [malloc], [free], [realloc], [calloc], [mm_checkheap].

    Conventions of the embedding
    - a pointer is an address in [Z]; [NULL] is [0] and the failure sentinel
      of the memory provider, [(void * )-1], is [-1];
    - [size_t] is a 64-bit unsigned integer and [unsigned] a 32-bit one: the
      wrap-around of every operation is written out with [wrap64], [wrap32];
    - the heap is byte addressed; a word is four bytes, little endian;
    - the two globals [heap_listp] and [freelist] live in the state record
      together with the state of the memory provider;
    - the only unbounded loops ([find_fit] and the two walks of the checker)
      take fuel, and return [None] when it runs out. *)

From Stdlib Require Import ZArith List Lia Bool.
Import ListNotations.
Local Open Scope Z_scope.

(** ** Integer types of the program *)

Definition wrap32 (x : Z) : Z := x mod 2 ^ 32.
Definition wrap64 (x : Z) : Z := x mod 2 ^ 64.

(** ** Basic constants and macros *)

Definition WSIZE : Z := 4.
Definition DSIZE : Z := 8.
Definition CHUNKSIZE : Z := Z.shiftl 1 8.

Definition MAX (x y : Z) : Z := if x >? y then x else y.

Definition PACK (size alloc : Z) : Z := Z.lor size alloc.

(** ** Memory: bytes, and little-endian words *)

Definition memory := Z -> Z.

Definition byte_at (m : memory) (a : Z) : Z := m a mod 256.

(** [GET(p)]: the [unsigned int] stored at [p]. *)
Definition GET (m : memory) (p : Z) : Z :=
  byte_at m p + 2 ^ 8 * byte_at m (p + 1)
  + 2 ^ 16 * byte_at m (p + 2) + 2 ^ 24 * byte_at m (p + 3).

(** [PUT(p, val)]: the store converts [val] to [unsigned int]. *)
Definition PUT (m : memory) (p val : Z) : memory :=
  fun a =>
    if a =? p then wrap32 val mod 256
    else if a =? p + 1 then (wrap32 val / 2 ^ 8) mod 256
    else if a =? p + 2 then (wrap32 val / 2 ^ 16) mod 256
    else if a =? p + 3 then (wrap32 val / 2 ^ 24) mod 256
    else m a.

Definition GET_SIZE (m : memory) (p : Z) : Z := Z.land (GET m p) (Z.lnot 7).
Definition GET_ALLOC (m : memory) (p : Z) : Z := Z.land (GET m p) 1.

Definition HDRP (bp : Z) : Z := bp - WSIZE.
Definition FTRP (m : memory) (bp : Z) : Z := bp + GET_SIZE m (HDRP bp) - DSIZE.

Definition NEXT_BLKP (m : memory) (bp : Z) : Z := bp + GET_SIZE m (bp - WSIZE).
Definition PREV_BLKP (m : memory) (bp : Z) : Z := bp - GET_SIZE m (bp - DSIZE).

(** [ALIGN(size)] on a [size_t]: eight bytes of header and footer are added
    and the sum is rounded up to a multiple of eight. *)
Definition ALIGN (size : Z) : Z := Z.land (wrap64 (size + 15)) (Z.lnot 7).

Definition memcpy (m : memory) (dst src n : Z) : memory :=
  fun a => if (dst <=? a) && (a <? dst + n) then m (src + (a - dst)) else m a.

Definition memset (m : memory) (dst c n : Z) : memory :=
  fun a => if (dst <=? a) && (a <? dst + n) then c mod 256 else m a.

(** ** The state: the memory provider and the two globals *)

Record state := mkState {
  mem : memory;
  mem_lo : Z;            (* address of the first heap byte *)
  mem_brk : Z;           (* current size of the heap, in bytes *)
  mem_max : Z;           (* capacity of the provider, in bytes *)
  sbrk_log : list Z;     (* the requests made to the provider, last first *)
  heap_listp : Z;
  freelist : Z
}.

Definition set_mem (s : state) (m : memory) : state :=
  mkState m (mem_lo s) (mem_brk s) (mem_max s) (sbrk_log s)
          (heap_listp s) (freelist s).
Definition set_heap_listp (s : state) (p : Z) : state :=
  mkState (mem s) (mem_lo s) (mem_brk s) (mem_max s) (sbrk_log s)
          p (freelist s).
Definition set_freelist (s : state) (f : Z) : state :=
  mkState (mem s) (mem_lo s) (mem_brk s) (mem_max s) (sbrk_log s)
          (heap_listp s) f.

Definition put (s : state) (p val : Z) : state := set_mem s (PUT (mem s) p val).

(** Offsets of the explicit list are [unsigned]. *)
Definition GET_ADDR_INDEX (s : state) (bp : Z) : Z := wrap32 (bp - heap_listp s).
Definition GET_ADDR (s : state) (index : Z) : Z := heap_listp s + index.

(** Modelled from the spec: [mem_sbrk] of [memlib.h], the [heap_extend] of
    the backing memory provider.  It grows the heap by [incr] bytes and
    returns the address of the first new byte, or the sentinel [-1]; it
    fails exactly when the request does not fit the capacity.  Every call is
    recorded in [sbrk_log]. *)
Definition sbrk_fits (s : state) (incr : Z) : bool :=
  (0 <=? incr) && (mem_brk s + incr <=? mem_max s).

Definition log_sbrk (s : state) (incr : Z) : state :=
  mkState (mem s) (mem_lo s) (mem_brk s) (mem_max s) (incr :: sbrk_log s)
          (heap_listp s) (freelist s).

Definition mem_sbrk (s : state) (incr : Z) : state * Z :=
  if sbrk_fits s incr
  then (mkState (mem s) (mem_lo s) (mem_brk s + incr) (mem_max s)
                (incr :: sbrk_log s) (heap_listp s) (freelist s),
        mem_lo s + mem_brk s)
  else (log_sbrk s incr, -1).

(** Modelled from the spec: [mem_heap_lo], [mem_heap_hi], [mem_heapsize] of
    [memlib.h] ([heap_low], [heap_high], [heap_size]): the first byte of the
    heap, its last byte, and its size. *)
Definition mem_heap_lo (s : state) : Z := mem_lo s.
Definition mem_heap_hi (s : state) : Z := mem_lo s + mem_brk s - 1.
Definition mem_heapsize (s : state) : Z := mem_brk s.

(** ** The explicit free list *)

Definition addToFreeList (s : state) (bp : Z) : state :=
  let s := put s bp 0 in
  let s := put s (bp + WSIZE) (freelist s) in
  let s := if negb (freelist s =? 0)
           then put s (GET_ADDR s (freelist s)) (GET_ADDR_INDEX s bp)
           else s in
  set_freelist s (GET_ADDR_INDEX s bp).

Definition removeFromFreeList (s : state) (bp : Z) : state :=
  let ptr := bp + WSIZE in
  let prev := GET (mem s) bp in
  let next := GET (mem s) ptr in
  if negb (prev =? 0) && negb (next =? 0) then
    let s := put s (GET_ADDR s prev + WSIZE) next in
    put s (GET_ADDR s next) prev
  else if (prev =? 0) && negb (next =? 0) then
    let s := set_freelist s next in
    put s (GET_ADDR s (freelist s)) 0
  else if negb (prev =? 0) && (next =? 0) then
    put s (GET_ADDR s prev + WSIZE) 0
  else if (prev =? 0) && (next =? 0) then
    set_freelist s 0
  else s.

(** ** Boundary-tag coalescing *)

Definition coalesce (s : state) (bp : Z) : state * Z :=
  let prev_alloc := GET_ALLOC (mem s) (FTRP (mem s) (PREV_BLKP (mem s) bp)) in
  let next_alloc := GET_ALLOC (mem s) (HDRP (NEXT_BLKP (mem s) bp)) in
  let size := GET_SIZE (mem s) (HDRP bp) in
  if negb (prev_alloc =? 0) && negb (next_alloc =? 0) then (s, bp)
  else if negb (prev_alloc =? 0) && (next_alloc =? 0) then
    let s := removeFromFreeList s (NEXT_BLKP (mem s) bp) in
    let size := wrap64 (size + GET_SIZE (mem s) (HDRP (NEXT_BLKP (mem s) bp))) in
    let s := put s (HDRP bp) (PACK size 0) in
    let s := put s (FTRP (mem s) bp) (PACK size 0) in
    (s, bp)
  else if (prev_alloc =? 0) && negb (next_alloc =? 0) then
    let bp := PREV_BLKP (mem s) bp in
    let s := removeFromFreeList s bp in
    let size := wrap64 (size + GET_SIZE (mem s) (HDRP bp)) in
    let s := put s (HDRP bp) (PACK size 0) in
    let s := put s (FTRP (mem s) bp) (PACK size 0) in
    (s, bp)
  else
    let size :=
      wrap64 (size + wrap32 (GET_SIZE (mem s) (HDRP (PREV_BLKP (mem s) bp))
                             + GET_SIZE (mem s) (FTRP (mem s) (NEXT_BLKP (mem s) bp)))) in
    let s := removeFromFreeList s (NEXT_BLKP (mem s) bp) in
    let bp := PREV_BLKP (mem s) bp in
    let s := removeFromFreeList s bp in
    let s := put s (HDRP bp) (PACK size 0) in
    let s := put s (FTRP (mem s) bp) (PACK size 0) in
    (s, bp).

(** ** Heap extension and initialisation *)

Definition extend_heap (s : state) (words : Z) : state * Z :=
  let size := if negb (words mod 2 =? 0)
              then wrap64 ((words + 1) * WSIZE)
              else wrap64 (words * WSIZE) in
  let (s, bp) := mem_sbrk s size in
  if bp =? -1 then (s, 0)
  else
    let s := put s (HDRP bp) (PACK size 0) in
    let s := put s (FTRP (mem s) bp) (PACK size 0) in
    let s := put s (HDRP (NEXT_BLKP (mem s) bp)) (PACK 0 1) in
    let s := put s bp 0 in
    let s := put s (bp + WSIZE) 0 in
    let (s, bp) := coalesce s bp in
    let s := addToFreeList s bp in
    (s, bp).

Definition mm_init (s : state) : state * Z :=
  let (s, p) := mem_sbrk s (2 * DSIZE) in
  let s := set_heap_listp s p in
  if heap_listp s =? -1 then (s, -1)
  else
    let s := put s (heap_listp s) 0 in
    let s := put s (heap_listp s + 1 * WSIZE) (PACK DSIZE 1) in
    let s := put s (heap_listp s + 2 * WSIZE) (PACK DSIZE 1) in
    let s := put s (heap_listp s + 3 * WSIZE) (PACK 0 1) in
    let s := set_heap_listp s (heap_listp s + 2 * WSIZE) in
    let s := set_freelist s 0 in
    let (s, bp) := extend_heap s (CHUNKSIZE / WSIZE) in
    if bp =? 0 then (s, -1) else (s, 0).

(** ** [free] *)

Definition free (s : state) (bp : Z) : state :=
  if bp =? 0 then s
  else
    let size := GET_SIZE (mem s) (HDRP bp) in
    let s := put s (HDRP bp) (PACK size 0) in
    let s := put s (FTRP (mem s) bp) (PACK size 0) in
    let s := put s bp 0 in
    let s := put s (bp + WSIZE) 0 in
    let (s, bp) := coalesce s bp in
    addToFreeList s bp.

(** ** Placement and first fit *)

Definition place (s : state) (bp asize : Z) : state :=
  let csize := GET_SIZE (mem s) (HDRP bp) in
  let s := removeFromFreeList s bp in
  if wrap64 (csize - asize) >=? 2 * DSIZE then
    let s := put s (HDRP bp) (PACK asize 1) in
    let s := put s (FTRP (mem s) bp) (PACK asize 1) in
    let nextbp := NEXT_BLKP (mem s) bp in
    let s := put s (HDRP nextbp) (PACK (wrap64 (csize - asize)) 0) in
    let s := put s (FTRP (mem s) nextbp) (PACK (wrap64 (csize - asize)) 0) in
    addToFreeList s nextbp
  else
    let s := put s (HDRP bp) (PACK csize 1) in
    put s (FTRP (mem s) bp) (PACK csize 1).

(** The loop of [find_fit], started at offset [val]; [Some 0] is [NULL]. *)
Fixpoint find_fit_loop (fuel : nat) (s : state) (val asize : Z) : option Z :=
  match fuel with
  | O => None
  | S fuel =>
      if val =? 0 then Some 0
      else
        let ptr := GET_ADDR s val in
        let blk_size := GET_SIZE (mem s) (HDRP ptr) in
        if blk_size >=? asize then Some ptr
        else find_fit_loop fuel s (GET (mem s) (ptr + WSIZE)) asize
  end.

Definition find_fit (fuel : nat) (s : state) (asize : Z) : option Z :=
  find_fit_loop fuel s (freelist s) asize.

(** ** [malloc], [calloc], [realloc] *)

(** The adjusted block size of a request. *)
Definition adjust (size : Z) : Z :=
  if size <=? DSIZE then 2 * DSIZE else ALIGN size.

Definition malloc (fuel : nat) (s : state) (size : Z) : option (state * Z) :=
  if size =? 0 then Some (s, 0)
  else
    let asize := adjust size in
    match find_fit fuel s asize with
    | None => None
    | Some bp =>
        if negb (bp =? 0) then Some (place s bp asize, bp)
        else
          let extendsize := MAX asize CHUNKSIZE in
          let (s, bp) := extend_heap s (extendsize / WSIZE) in
          if bp =? 0 then Some (s, 0)
          else Some (place s bp asize, bp)
    end.

Definition calloc (fuel : nat) (s : state) (nmemb size : Z) : option (state * Z) :=
  let bytes := wrap64 (nmemb * size) in
  match malloc fuel s bytes with
  | None => None
  | Some (s, newptr) =>
      if negb (newptr =? 0)
      then Some (set_mem s (memset (mem s) newptr 0 bytes), newptr)
      else Some (s, newptr)
  end.

(** The [return] statement by which a call of [realloc] leaves. *)
Inductive realloc_exit :=
| ExitMalloc        (* ptr == NULL: return malloc(size) *)
| ExitFree          (* size == 0: free(ptr); return 0 *)
| ExitKeep          (* the block cannot be shrunk: return ptr *)
| ExitShrink        (* shrunk in place: return ptr *)
| ExitGrowFail      (* malloc failed: return 0 *)
| ExitGrow          (* moved: return newptr *)
| ExitFallThrough.  (* the trailing return 0 *)

Definition realloc_run (fuel : nat) (s : state) (ptr size : Z)
  : option (state * Z * realloc_exit) :=
  if ptr =? 0 then
    match malloc fuel s size with
    | None => None
    | Some (s, p) => Some (s, p, ExitMalloc)
    end
  else if size =? 0 then Some (free s ptr, 0, ExitFree)
  else
    let oldsize := GET_SIZE (mem s) (HDRP ptr) in
    let asize := ALIGN size in
    if oldsize >=? asize then
      if wrap64 (oldsize - asize) <? 2 * DSIZE then Some (s, ptr, ExitKeep)
      else
        let s := put s (HDRP ptr) (PACK asize 1) in
        let s := put s (FTRP (mem s) ptr) (PACK asize 1) in
        let newptr := NEXT_BLKP (mem s) ptr in
        let s := put s (HDRP newptr) (PACK (wrap64 (oldsize - asize)) 0) in
        let s := put s (FTRP (mem s) newptr) (PACK (wrap64 (oldsize - asize)) 0) in
        let s := put s newptr 0 in
        let s := put s (newptr + WSIZE) 0 in
        let s := fst (coalesce s newptr) in
        let s := addToFreeList s newptr in
        Some (s, ptr, ExitShrink)
    else if asize >? oldsize then
      match malloc fuel s asize with
      | None => None
      | Some (s, newptr) =>
          if newptr =? 0 then Some (s, 0, ExitGrowFail)
          else
            let s := set_mem s (memcpy (mem s) newptr ptr oldsize) in
            let s := free s ptr in
            Some (s, newptr, ExitGrow)
      end
    else Some (s, 0, ExitFallThrough).

Definition realloc (fuel : nat) (s : state) (ptr size : Z) : option (state * Z) :=
  match realloc_run fuel s ptr size with
  | None => None
  | Some (s, p, _) => Some (s, p)
  end.

(** ** The consistency checker

    The checker only prints.  Its output is the list of the messages, in the
    order they are printed. *)

Inductive msg :=
| MsgHeap (p : Z)                         (* "Heap (%p):" *)
| MsgBadPrologue                          (* "Bad prologue header" *)
| MsgEpilogueBlock (bp : Z)               (* "%p: epilogue block" *)
| MsgBlock (bp hsize halloc fsize falloc : Z)
| MsgLinks (pred succ : Z)                (* "pred = [%p], succ = [%p]" *)
| MsgOutOfBounds                          (* "using memory out of bounds!!" *)
| MsgNotAligned (bp : Z)
| MsgHeaderFooter (h f : Z)               (* header does not match footer *)
| MsgNotCoalesced                         (* "this block has not been coalesced!!" *)
| MsgEmptyFreelist                        (* "empty freelist" *)
| MsgListStart                            (* "beginning of the list is messed up!" *)
| MsgAllocatedInList                      (* "Allocated block found in the freelist" *)
| MsgLinkOutOfBounds                      (* "out of bounds memory in the freelist" *)
| MsgBadLinks                             (* "NEXT ptr/ PREV ptr of next block are wrong!" *)
| MsgCountMismatch                        (* the two counts of free blocks differ *)
| MsgWrongEpilogue                        (* "wrong epilogue pointer" *)
| MsgBadEpilogue.                         (* "Bad epilogue header" *)

Definition printblock (s : state) (bp : Z) : list msg :=
  let m := mem s in
  let hsize := GET_SIZE m (HDRP bp) in
  let halloc := GET_ALLOC m (HDRP bp) in
  let fsize := GET_SIZE m (FTRP m bp) in
  let falloc := GET_ALLOC m (FTRP m bp) in
  let p := GET m bp in
  let sc := GET m (bp + WSIZE) in
  let pred := if negb (p =? 0) then GET_ADDR s p else 0 in
  let succ := if negb (sc =? 0) then GET_ADDR s sc else 0 in
  if hsize =? 0 then [MsgEpilogueBlock bp]
  else MsgBlock bp hsize halloc fsize falloc
       :: (if halloc =? 0 then [MsgLinks pred succ] else []).

Definition checkblock (s : state) (bp : Z) : list msg :=
  let m := mem s in
  (if bp >? mem_heap_hi s - 3 then [MsgOutOfBounds] else [])
  ++ (if negb (bp mod 8 =? 0) then [MsgNotAligned bp] else [])
  ++ (if negb (GET m (HDRP bp) =? GET m (FTRP m bp))
      then [MsgHeaderFooter (GET m (HDRP bp)) (GET m (FTRP m bp))] else [])
  ++ (if GET_ALLOC m (HDRP bp) =? 0
      then if (GET_ALLOC m (HDRP (PREV_BLKP m bp)) =? 0)
              || (GET_ALLOC m (HDRP (NEXT_BLKP m bp)) =? 0)
           then [MsgNotCoalesced] else []
      else []).

(** The [while] loop of [checkFreeList] from block [a] with counter [i]:
    the messages, and the final counter. *)
Fixpoint checkFreeList_walk (fuel : nat) (s : state) (a i : Z)
  : option (list msg * Z) :=
  match fuel with
  | O => None
  | S fuel =>
      let m := mem s in
      if negb (GET m (a + WSIZE) =? 0) then
        let out :=
          (if GET_ALLOC m (HDRP a) =? 1 then [MsgAllocatedInList] else [])
          ++ (if (GET_ADDR s (GET m a) <? mem_heap_lo s)
                 || (GET_ADDR s (GET m a) >? mem_heap_hi s)
                 || (GET_ADDR s (GET m (a + WSIZE)) <? mem_heap_lo s)
                 || (GET_ADDR s (GET m (a + WSIZE)) >? mem_heap_hi s)
              then [MsgLinkOutOfBounds]
              else if negb (GET m (GET_ADDR s (GET m (a + WSIZE)))
                            =? GET_ADDR_INDEX s a)
                   then printblock s a ++ [MsgBadLinks]
                   else []) in
        match checkFreeList_walk fuel s (GET_ADDR s (GET m (a + WSIZE))) (i + 1) with
        | None => None
        | Some (out', i') => Some (out ++ out', i')
        end
      else Some ([], i)
  end.

(** The [for] loop of [checkFreeList] from block [a] with counter [j]. *)
Fixpoint checkFreeList_count (fuel : nat) (s : state) (a j : Z) : option Z :=
  match fuel with
  | O => None
  | S fuel =>
      let m := mem s in
      if GET_SIZE m (HDRP a) >? 0 then
        checkFreeList_count fuel s (NEXT_BLKP m a)
          (if GET_ALLOC m (HDRP a) =? 0 then j + 1 else j)
      else Some j
  end.

Definition checkFreeList (fuel : nat) (s : state) : option (list msg) :=
  if freelist s =? 0 then Some [MsgEmptyFreelist]
  else
    let a := GET_ADDR s (freelist s) in
    let out0 := if negb (GET (mem s) a =? 0) then [MsgListStart] else [] in
    match checkFreeList_walk fuel s a 1 with
    | None => None
    | Some (out1, i) =>
        match checkFreeList_count fuel s (heap_listp s) 0 with
        | None => None
        | Some j =>
            Some (out0 ++ out1
                  ++ (if negb (i - 1 =? j) then [MsgCountMismatch] else []))
        end
    end.

(** The [for] loop of [mm_checkheap] from block [bp]: the messages, and the
    block at which the walk stops. *)
Fixpoint mm_checkheap_walk (fuel : nat) (s : state) (verbose : bool) (bp : Z)
  : option (list msg * Z) :=
  match fuel with
  | O => None
  | S fuel =>
      if GET_SIZE (mem s) (HDRP bp) >? 0 then
        let out := (if verbose then printblock s bp else []) ++ checkblock s bp in
        match mm_checkheap_walk fuel s verbose (NEXT_BLKP (mem s) bp) with
        | None => None
        | Some (out', bp') => Some (out ++ out', bp')
        end
      else Some ([], bp)
  end.

Definition mm_checkheap (fuel : nat) (s : state) (verbose : bool)
  : option (list msg) :=
  let m := mem s in
  let out0 :=
    (if verbose then [MsgHeap (heap_listp s)] else [])
    ++ (if negb (GET_SIZE m (HDRP (heap_listp s)) =? DSIZE)
           || (GET_ALLOC m (HDRP (heap_listp s)) =? 0)
        then [MsgBadPrologue] else [])
    ++ checkblock s (heap_listp s) in
  match mm_checkheap_walk fuel s verbose (heap_listp s) with
  | None => None
  | Some (out1, bp) =>
      match checkFreeList fuel s with
      | None => None
      | Some out2 =>
          Some (out0 ++ out1 ++ out2
                ++ (if negb (bp =? mem_heap_lo s + mem_heapsize s)
                    then [MsgWrongEpilogue] else [])
                ++ (if verbose then printblock s bp else [])
                ++ (if negb (GET_SIZE m (HDRP bp) =? 0)
                       || (GET_ALLOC m (HDRP bp) =? 0)
                    then [MsgBadEpilogue] else []))
      end
  end.

(** ** Sequences of public calls *)

Inductive call :=
| CallInit
| CallMalloc (size : Z)
| CallFree (bp : Z)
| CallRealloc (ptr size : Z)
| CallCalloc (nmemb size : Z).

(** One public call: the new state and the value returned ([free] returns
    nothing: [0] stands for it). *)
Definition run_call (fuel : nat) (s : state) (c : call) : option (state * Z) :=
  match c with
  | CallInit => Some (mm_init s)
  | CallMalloc size => malloc fuel s size
  | CallFree bp => Some (free s bp, 0)
  | CallRealloc ptr size => realloc fuel s ptr size
  | CallCalloc nmemb size => calloc fuel s nmemb size
  end.

(** The state of the program before [mm_init]: an empty heap at address [lo]
    with room for [max] bytes, holding [m], and the two globals at zero. *)
Definition boot (m : memory) (lo max : Z) : state := mkState m lo 0 max [] 0 0.

(** Running a sequence of calls; the values returned are collected in order. *)
Fixpoint run_calls (fuel : nat) (s : state) (cs : list call)
  : option (state * list Z) :=
  match cs with
  | [] => Some (s, [])
  | c :: cs =>
      match run_call fuel s c with
      | None => None
      | Some (s, r) =>
          match run_calls fuel s cs with
          | None => None
          | Some (s, rs) => Some (s, r :: rs)
          end
      end
  end.

(** ** What the claims speak of *)

(** The physical walk of the heap, as the [for] loops of the checker do it:
    from block [bp], by [NEXT_BLKP], until a header of size zero.  Each block
    is listed with its size and its allocated bit. *)
Fixpoint heap_blocks (fuel : nat) (m : memory) (bp : Z) : option (list (Z * Z * Z)) :=
  match fuel with
  | O => None
  | S fuel =>
      if GET_SIZE m (HDRP bp) >? 0 then
        match heap_blocks fuel m (NEXT_BLKP m bp) with
        | None => None
        | Some l => Some ((bp, GET_SIZE m (HDRP bp), GET_ALLOC m (HDRP bp)) :: l)
        end
      else Some []
  end.

(** Two blocks that follow each other in the walk are both free. *)
Fixpoint adjacent_free (l : list (Z * Z * Z)) : bool :=
  match l with
  | (_, _, a1) :: (((_, _, a2) :: _) as tl) =>
      ((a1 =? 0) && (a2 =? 0)) || adjacent_free tl
  | _ => false
  end.

(** The payload of the block at [bp], from [bp] to its footer, is zero. *)
Definition payload_zero (s : state) (bp : Z) : Prop :=
  forall a, bp <= a < FTRP (mem s) bp -> byte_at (mem s) a = 0.

(** ** States used as examples *)

Definition zero_memory : memory := fun _ => 0.

(** A provider with plenty of room, and one that is exhausted by [mm_init]. *)
Definition roomy : state := boot zero_memory 4096 (2 ^ 20).
Definition tight : state := boot zero_memory 4096 272.

Definition state_after (s : state) (cs : list call) : state :=
  match run_calls 8 s cs with
  | Some (s', _) => s'
  | None => s
  end.

(** A fresh heap; a heap with one block of 112 bytes in use; a full heap
    with one block of 24 bytes in use; a heap whose first block, of 16
    bytes, was freed while its successor is in use. *)
Definition fresh : state := state_after roomy [CallInit].
Definition one_live : state := state_after roomy [CallInit; CallMalloc 100].
Definition tight_full : state := state_after tight [CallInit; CallMalloc 16].
Definition recycled : state :=
  state_after roomy [CallInit; CallMalloc 1; CallMalloc 1; CallFree 4112].

(** ** The heap as a list of blocks

    The well-formed heap is described by the list of its blocks after the
    prologue, each a size and an allocated flag, and by the list of the
    payload addresses of the blocks on the free list, head first. *)

Definition block : Type := (Z * bool)%type.

Definition tag (b : block) : Z := fst b + Z.b2z (snd b).

Fixpoint total (bs : list block) : Z :=
  match bs with
  | [] => 0
  | b :: r => fst b + total r
  end.

(** The blocks with their payload addresses, the first one at [a]. *)
Fixpoint located (a : Z) (bs : list block) : list (Z * block) :=
  match bs with
  | [] => []
  | b :: r => (a, b) :: located (a + fst b) r
  end.

(** Header and footer of the block carry its tag. *)
Definition tagged (m : memory) (ab : Z * block) : Prop :=
  GET m (fst ab - 4) = tag (snd ab)
  /\ GET m (fst ab + fst (snd ab) - 8) = tag (snd ab).

Definition sized (b : block) : Prop := 16 <= fst b /\ fst b mod 8 = 0.

(** The offset stored for the first block of [l], or [next] when there is
    none. *)
Definition off_hd (hl : Z) (l : list Z) (next : Z) : Z :=
  match l with
  | [] => next
  | b :: _ => b - hl
  end.

(** The offset of the last block of [l], or [prev] when there is none. *)
Fixpoint off_last (hl : Z) (l : list Z) (prev : Z) : Z :=
  match l with
  | [] => prev
  | b :: r => off_last hl r (b - hl)
  end.

(** The link words of the blocks of [l] chain them in order, between the
    offsets [prev] and [next]. *)
Fixpoint dll (m : memory) (hl : Z) (prev : Z) (l : list Z) (next : Z) : Prop :=
  match l with
  | [] => True
  | a :: r =>
      GET m a = prev /\ GET m (a + 4) = off_hd hl r next
      /\ dll m hl (a - hl) r next
  end.

(** The blocks of [l] are pairwise apart. *)
Definition apart (l : list Z) : Prop :=
  forall c c', In c l -> In c' l -> c = c' \/ c + 16 <= c' \/ c' + 16 <= c.

(** The tags of the prologue, of the blocks and of the epilogue. *)
Definition shape (m : memory) (hl : Z) (bs : list block) : Prop :=
  tagged m (hl, (8, true))
  /\ Forall (tagged m) (located (hl + 8) bs)
  /\ GET m (hl + 8 + total bs - 4) = 1.

Record wf (s : state) (bs : list block) (fl : list Z) : Prop := {
  wf_lo : 0 < mem_lo s /\ mem_lo s + 8 <= heap_listp s;
  wf_brk : mem_brk s <= mem_max s /\ mem_max s < 2 ^ 32;
  wf_end : heap_listp s + 8 + total bs = mem_lo s + mem_brk s;
  wf_sized : Forall sized bs;
  wf_shape : shape (mem s) (heap_listp s) bs;
  wf_free : forall a, In a fl ->
            exists sz, In (a, (sz, false)) (located (heap_listp s + 8) bs);
  wf_nodup : NoDup fl;
  wf_links : dll (mem s) (heap_listp s) 0 fl 0;
  wf_head : freelist s = off_hd (heap_listp s) fl 0
}.

(** Every free block is on the list [fl], but for the one at [x]. *)
Definition listed_but (x : Z) (a0 : Z) (bs : list block) (fl : list Z) : Prop :=
  forall a sz, In (a, (sz, false)) (located a0 bs) -> a <> x -> In a fl.

Definition listed (a0 : Z) (bs : list block) (fl : list Z) : Prop :=
  forall a sz, In (a, (sz, false)) (located a0 bs) -> In a fl.

(** No two blocks that follow each other are both free. *)
Fixpoint no_adjacent_free (bs : list block) : Prop :=
  match bs with
  | b1 :: ((b2 :: _) as r) => (snd b1 = true \/ snd b2 = true) /\ no_adjacent_free r
  | _ => True
  end.

(** The invariant of the allocator between two public calls. *)
Definition heap_ok (s : state) : Prop :=
  exists bs fl,
    wf s bs fl
    /\ listed (heap_listp s + 8) bs fl
    /\ no_adjacent_free bs.

(** [bp] is the payload pointer of a block in use: the physical walk of the
    heap meets it, after the prologue, with its allocated bit set. *)
Definition live (s : state) (bp : Z) : Prop :=
  bp <> heap_listp s
  /\ exists fuel l sz,
       heap_blocks fuel (mem s) (heap_listp s) = Some l /\ In (bp, sz, 1) l.

(** A block as the physical walk lists it. *)
Definition block_view (ab : Z * block) : Z * Z * Z :=
  (fst ab, fst (snd ab), Z.b2z (snd (snd ab))).

(** The memory provider is sane: the heap does not start at address zero
    and never outgrows what a 32-bit tag can describe. *)
Definition provider_ok (s : state) : Prop :=
  0 < mem_lo s /\ 0 <= mem_brk s <= mem_max s /\ mem_max s < 2 ^ 32.

(** ** What an operation leaves alone *)

(** The payload of the block of [sz] bytes at [x] holds in [m'] the bytes
    it held in [m]. *)
Definition kept (m m' : memory) (x sz : Z) : Prop :=
  forall a, x <= a < x + sz - 8 -> m' a = m a.

(** Apart from the blocks at the addresses of [X], the blocks in use of
    [bs'] are those of [bs], and their payloads are as they were. *)
Definition same_but (X : Z -> Prop) (s : state) (bs : list block)
           (s' : state) (bs' : list block) : Prop :=
  forall x sz, ~ X x ->
    (In (x, (sz, true)) (located (heap_listp s + 8) bs') ->
     In (x, (sz, true)) (located (heap_listp s + 8) bs))
    /\ (In (x, (sz, true)) (located (heap_listp s + 8) bs) ->
        In (x, (sz, true)) (located (heap_listp s + 8) bs')
        /\ kept (mem s) (mem s') x sz).

(** The provider and the start of the heap are as they were. *)
Definition same_provider (s s' : state) : Prop :=
  mem_lo s' = mem_lo s /\ mem_brk s' = mem_brk s /\ mem_max s' = mem_max s
  /\ sbrk_log s' = sbrk_log s /\ heap_listp s' = heap_listp s.

(** Between [s] and [s'] the provider was asked at most once, for [k]
    bytes, which it refused or added to the heap; the heap is where it was
    and did not shrink. *)
Definition provider_step (s s' : state) : Prop :=
  mem_lo s' = mem_lo s /\ mem_max s' = mem_max s /\ heap_listp s' = heap_listp s
  /\ (sbrk_log s' = sbrk_log s /\ mem_brk s' = mem_brk s
      \/ exists k, sbrk_log s' = k :: sbrk_log s
                   /\ (mem_brk s' = mem_brk s \/ (0 <= k /\ mem_brk s' = mem_brk s + k))).

(** The block at [q] is in use after an operation exactly when it was in
    use before, and then with the same size and the same bytes in its
    payload. *)
Definition untouched (s s' : state) (q : Z) : Prop :=
  (live s' q <-> live s q)
  /\ (live s q ->
      GET_SIZE (mem s') (HDRP q) = GET_SIZE (mem s) (HDRP q)
      /\ forall a, q <= a < q + GET_SIZE (mem s) (HDRP q) - DSIZE ->
                   byte_at (mem s') a = byte_at (mem s) a).

(** The sizes of the free neighbours of the block at [bp], as [coalesce]
    reads them, from the footer of the block before and from the header of
    the block after; zero for a neighbour in use. *)
Definition free_before (s : state) (bp : Z) : Z :=
  if GET_ALLOC (mem s) (FTRP (mem s) (PREV_BLKP (mem s) bp)) =? 0
  then GET_SIZE (mem s) (HDRP (PREV_BLKP (mem s) bp)) else 0.

Definition free_after (s : state) (bp : Z) : Z :=
  if GET_ALLOC (mem s) (HDRP (NEXT_BLKP (mem s) bp)) =? 0
  then GET_SIZE (mem s) (HDRP (NEXT_BLKP (mem s) bp)) else 0.

(** The bytes that a neighbour adds to a block that is freed. *)
Definition free_size (b : block) : Z := if snd b then 0 else fst b.

(** What [coalesce] achieves on the free block of size [sz] at [a], between
    the blocks [l1] and [l2] and not yet on the free list [fl]: the free
    neighbours are unlinked and merged with it into the block at [a'], still
    off the list, and the blocks in use are the same. *)
Definition coalesced (s : state) (l1 : list block) (sz : Z) (l2 : list block)
           (a : Z) (s' : state) (a' : Z) : Prop :=
  exists l1' sz' l2' fl',
    wf s' (l1' ++ (sz', false) :: l2') fl'
    /\ heap_listp s' = heap_listp s
    /\ a' = heap_listp s + 8 + total l1'
    /\ ~ In a' fl'
    /\ listed_but a' (heap_listp s + 8) (l1' ++ (sz', false) :: l2') fl'
    /\ no_adjacent_free (l1' ++ (sz', false) :: l2')
    /\ sz <= sz'
    /\ (forall x b, snd b = true ->
         In (x, b) (located (heap_listp s + 8) (l1 ++ (sz, false) :: l2)) ->
         In (x, b) (located (heap_listp s + 8) (l1' ++ (sz', false) :: l2')))
    /\ (snd (last l1 (0, true)) = true -> a' = a /\ l1' = l1)
    /\ same_but (fun _ => False) s (l1 ++ (sz, false) :: l2)
                 s' (l1' ++ (sz', false) :: l2')
    /\ a' = a - free_size (last l1 (0, true))
    /\ sz' = sz + free_size (last l1 (0, true)) + free_size (hd (0, true) l2).

(** What an allocation achieves: the heap is well formed again, the blocks
    that were in use still are, and the pointer returned, when not [NULL],
    is a block in use of at least [asize] bytes that was not in use before. *)
Definition allocated (s : state) (bs : list block) (asize : Z) (s' : state) (p : Z) : Prop :=
  exists bs' fl',
    wf s' bs' fl'
    /\ listed (heap_listp s + 8) bs' fl'
    /\ no_adjacent_free bs'
    /\ heap_listp s' = heap_listp s
    /\ (forall x b, snd b = true ->
        In (x, b) (located (heap_listp s + 8) bs) ->
        In (x, b) (located (heap_listp s + 8) bs'))
    /\ (p <> 0 ->
        (exists sz', In (p, (sz', true)) (located (heap_listp s + 8) bs') /\ asize <= sz')
        /\ (forall sz, ~ In (p, (sz, true)) (located (heap_listp s + 8) bs))).

(** What [realloc] achieves on the block in use of size [old] at [ptr]: the
    heap is well formed again, the other blocks in use still are, a pointer
    [r] returned is a block in use of at least [asize] bytes, and of eight
    more when the block was moved; when [NULL] is returned the block at
    [ptr] is as it was. *)
Definition resized (s : state) (bs : list block) (ptr old asize : Z)
           (s' : state) (r : Z) (e : realloc_exit) : Prop :=
  exists bs' fl',
    wf s' bs' fl'
    /\ listed (heap_listp s + 8) bs' fl'
    /\ no_adjacent_free bs'
    /\ heap_listp s' = heap_listp s
    /\ (forall x b, snd b = true -> x <> ptr ->
        In (x, b) (located (heap_listp s + 8) bs) ->
        In (x, b) (located (heap_listp s + 8) bs'))
    /\ (r <> 0 ->
        exists sz', In (r, (sz', true)) (located (heap_listp s + 8) bs')
                    /\ asize <= sz' /\ (e = ExitGrow -> asize + 8 <= sz'))
    /\ (r = 0 -> In (ptr, (old, true)) (located (heap_listp s + 8) bs')).

(** ** Legitimate use of the interface

    [mm_init] is called when the provider can serve its first request;
    [free] and [realloc] receive [NULL] or a block in use; the sizes are
    such that the adjusted size does not wrap around in [size_t]. *)
Definition valid_call (s : state) (c : call) : Prop :=
  match c with
  | CallInit => provider_ok s /\ sbrk_fits s (2 * DSIZE) = true
  | CallMalloc size => 0 <= size /\ size + 15 < 2 ^ 64
  | CallFree bp => bp = 0 \/ live s bp
  | CallRealloc ptr size =>
      (ptr = 0 \/ live s ptr) /\ 0 <= size /\ size + 30 < 2 ^ 64
  | CallCalloc nmemb size => wrap64 (nmemb * size) + 15 < 2 ^ 64
  end.

Inductive reachable : state -> Prop :=
| reach_init (s : state) :
    provider_ok s -> sbrk_fits s (2 * DSIZE) = true ->
    reachable (fst (mm_init s))
| reach_call (s s' : state) (c : call) (fuel : nat) (r : Z) :
    reachable s -> valid_call s c -> run_call fuel s c = Some (s', r) ->
    reachable s'.
(** * Properties *)

(** ** Words and bit fields *)

Lemma land_lnot7 (x : Z) : Z.land x (Z.lnot 7) = 8 * (x / 8).
Proof.
  rewrite <- Z.ldiff_land. change 7 with (Z.ones 3).
  rewrite Z.ldiff_ones_r by lia.
  rewrite Z.shiftr_div_pow2, Z.shiftl_mul_pow2 by lia.
  change (2 ^ 3) with 8. lia.
Qed.

Lemma land_1 (x : Z) : Z.land x 1 = x mod 2.
Proof. change 1 with (Z.ones 1). now rewrite Z.land_ones by lia. Qed.

Lemma PACK_add (size alloc : Z) :
  size mod 2 = 0 -> 0 <= alloc <= 1 -> PACK size alloc = size + alloc.
Proof.
  intros Hs Ha. unfold PACK.
  pose proof (Z.add_lor_land size alloc) as H.
  assert (Z.land size alloc = 0); [|lia].
  assert (alloc = 0 \/ alloc = 1) as [-> | ->] by lia.
  - apply Z.land_0_r.
  - now rewrite land_1.
Qed.

Lemma byte_at_range (m : memory) (a : Z) : 0 <= byte_at m a < 256.
Proof. unfold byte_at. apply Z.mod_pos_bound. lia. Qed.

Lemma GET_range (m : memory) (p : Z) : 0 <= GET m p < 2 ^ 32.
Proof.
  unfold GET.
  pose proof (byte_at_range m p). pose proof (byte_at_range m (p + 1)).
  pose proof (byte_at_range m (p + 2)). pose proof (byte_at_range m (p + 3)).
  lia.
Qed.

Lemma wrap32_range (x : Z) : 0 <= wrap32 x < 2 ^ 32.
Proof. unfold wrap32. apply Z.mod_pos_bound. lia. Qed.

Lemma wrap64_range (x : Z) : 0 <= wrap64 x < 2 ^ 64.
Proof. unfold wrap64. apply Z.mod_pos_bound. lia. Qed.

Lemma wrap32_small (x : Z) : 0 <= x < 2 ^ 32 -> wrap32 x = x.
Proof. unfold wrap32. intros. now apply Z.mod_small. Qed.

Lemma wrap64_small (x : Z) : 0 <= x < 2 ^ 64 -> wrap64 x = x.
Proof. unfold wrap64. intros. now apply Z.mod_small. Qed.

Lemma GET_PUT_same (m : memory) (p v : Z) : GET (PUT m p v) p = wrap32 v.
Proof.
  unfold GET, PUT, byte_at.
  rewrite Z.eqb_refl.
  replace (p + 1 =? p) with false by (symmetry; apply Z.eqb_neq; lia).
  replace (p + 2 =? p) with false by (symmetry; apply Z.eqb_neq; lia).
  replace (p + 3 =? p) with false by (symmetry; apply Z.eqb_neq; lia).
  replace (p + 2 =? p + 1) with false by (symmetry; apply Z.eqb_neq; lia).
  replace (p + 3 =? p + 1) with false by (symmetry; apply Z.eqb_neq; lia).
  replace (p + 3 =? p + 2) with false by (symmetry; apply Z.eqb_neq; lia).
  rewrite !Z.eqb_refl.
  pose proof (wrap32_range v) as Hv.
  change (2 ^ 8) with 256. change (2 ^ 16) with 65536.
  change (2 ^ 24) with 16777216. change (2 ^ 32) with 4294967296 in Hv.
  Z.div_mod_to_equations. lia.
Qed.

Lemma PUT_other (m : memory) (p v a : Z) :
  a < p \/ p + 4 <= a -> PUT m p v a = m a.
Proof.
  intros H. unfold PUT.
  replace (a =? p) with false by (symmetry; apply Z.eqb_neq; lia).
  replace (a =? p + 1) with false by (symmetry; apply Z.eqb_neq; lia).
  replace (a =? p + 2) with false by (symmetry; apply Z.eqb_neq; lia).
  replace (a =? p + 3) with false by (symmetry; apply Z.eqb_neq; lia).
  reflexivity.
Qed.

Lemma GET_PUT_other (m : memory) (p v q : Z) :
  q + 4 <= p \/ p + 4 <= q -> GET (PUT m p v) q = GET m q.
Proof.
  intros H. unfold GET, byte_at. now rewrite !PUT_other by lia.
Qed.

Lemma GET_SIZE_eq (m : memory) (p : Z) : GET_SIZE m p = 8 * (GET m p / 8).
Proof. apply land_lnot7. Qed.

Lemma GET_ALLOC_eq (m : memory) (p : Z) : GET_ALLOC m p = GET m p mod 2.
Proof. apply land_1. Qed.

Lemma GET_SIZE_range (m : memory) (p : Z) :
  0 <= GET_SIZE m p < 2 ^ 32 /\ GET_SIZE m p mod 8 = 0.
Proof.
  rewrite GET_SIZE_eq. pose proof (GET_range m p) as H.
  change (2 ^ 32) with 4294967296 in *.
  Z.div_mod_to_equations. lia.
Qed.

Lemma ALIGN_eq (size : Z) : ALIGN size = 8 * (wrap64 (size + 15) / 8).
Proof. apply land_lnot7. Qed.

(** For a size that is a multiple of eight, [ALIGN] adds exactly eight, up
    to the wrap-around of [size_t]. *)
Lemma ALIGN_multiple (size : Z) :
  0 <= size < 2 ^ 64 -> size mod 8 = 0 -> ALIGN size = wrap64 (size + 8).
Proof.
  intros Hr Hm. rewrite ALIGN_eq. unfold wrap64.
  change (2 ^ 64) with 18446744073709551616 in *.
  Z.div_mod_to_equations. lia.
Qed.

Lemma ALIGN_range (size : Z) : 0 <= ALIGN size < 2 ^ 64 /\ ALIGN size mod 8 = 0.
Proof.
  rewrite ALIGN_eq. pose proof (wrap64_range (size + 15)) as H.
  change (2 ^ 64) with 18446744073709551616 in *.
  Z.div_mod_to_equations. lia.
Qed.

(** Without wrap-around, [ALIGN n] is the least multiple of eight that
    leaves room for [n] bytes and the two tags. *)
Lemma ALIGN_bounds (n : Z) :
  0 <= n < 2 ^ 64 - 15 -> n + 8 <= ALIGN n < n + 16.
Proof.
  intros H. rewrite ALIGN_eq, wrap64_small by lia.
  Z.div_mod_to_equations. lia.
Qed.

Lemma adjust_range (n : Z) : 0 <= adjust n < 2 ^ 64 /\ adjust n mod 8 = 0.
Proof.
  unfold adjust. destruct (n <=? DSIZE).
  - unfold DSIZE. split; [lia | reflexivity].
  - apply ALIGN_range.
Qed.

(** ** Requests that need no work, and requests that cannot be served *)

Ltac eqb_false := symmetry; apply Z.eqb_neq; lia.
Ltac eqb_true := symmetry; apply Z.eqb_eq; lia.

Lemma geb_true (x y : Z) : y <= x -> (x >=? y) = true.
Proof. intros. rewrite Z.geb_leb. now apply Z.leb_le. Qed.

Lemma geb_false (x y : Z) : x < y -> (x >=? y) = false.
Proof. intros. rewrite Z.geb_leb. now apply Z.leb_gt. Qed.

Lemma gtb_true (x y : Z) : y < x -> (x >? y) = true.
Proof. intros. rewrite Z.gtb_ltb. now apply Z.ltb_lt. Qed.

Lemma gtb_false (x y : Z) : x <= y -> (x >? y) = false.
Proof. intros. rewrite Z.gtb_ltb. now apply Z.ltb_ge. Qed.

Lemma realloc_of_run (fuel : nat) (s s' : state) (ptr size p : Z) (e : realloc_exit) :
  realloc_run fuel s ptr size = Some (s', p, e) ->
  realloc fuel s ptr size = Some (s', p).
Proof. unfold realloc. now intros ->. Qed.

(** C6. Invalid requests signal no error: [malloc 0] returns [NULL] and
    leaves the state as it is, [free NULL] does nothing, [realloc NULL n] is
    [malloc n], and [realloc p 0] frees [p] and returns [NULL]. *)
Theorem invalid_requests (fuel : nat) (s : state) :
  malloc fuel s 0 = Some (s, 0)
  /\ free s 0 = s
  /\ (forall n, realloc fuel s 0 n = malloc fuel s n)
  /\ (forall p, realloc fuel s p 0 = Some (free s p, 0)).
Proof.
  repeat split.
  - intros n. unfold realloc, realloc_run. cbn.
    destruct (malloc fuel s n) as [[s' p]|]; reflexivity.
  - intros p. unfold realloc, realloc_run.
    destruct (p =? 0) eqn:Hp.
    + apply Z.eqb_eq in Hp. subst p. reflexivity.
    + reflexivity.
Qed.

(** The number of bytes [extend_heap] asks of the provider when [malloc]
    calls it for a block of adjusted size [asize]. *)
Lemma extend_heap_words (asize : Z) :
  0 <= asize < 2 ^ 64 -> asize mod 8 = 0 ->
  let words := MAX asize CHUNKSIZE / WSIZE in
  (if negb (words mod 2 =? 0)
   then wrap64 ((words + 1) * WSIZE) else wrap64 (words * WSIZE))
  = MAX asize CHUNKSIZE.
Proof.
  intros Hr Hm words.
  assert (HM : 0 <= MAX asize CHUNKSIZE < 2 ^ 64 /\ MAX asize CHUNKSIZE mod 8 = 0).
  { unfold MAX, CHUNKSIZE. cbn. destruct (asize >? 256); [lia|]. split; [lia|reflexivity]. }
  subst words. unfold WSIZE.
  replace (MAX asize CHUNKSIZE / 4 mod 2 =? 0) with true
    by (symmetry; apply Z.eqb_eq; Z.div_mod_to_equations; lia).
  cbn [negb]. rewrite wrap64_small by (Z.div_mod_to_equations; lia).
  Z.div_mod_to_equations; lia.
Qed.

Lemma extend_heap_fail (s : state) (asize : Z) :
  0 <= asize < 2 ^ 64 -> asize mod 8 = 0 ->
  sbrk_fits s (MAX asize CHUNKSIZE) = false ->
  extend_heap s (MAX asize CHUNKSIZE / WSIZE)
  = (log_sbrk s (MAX asize CHUNKSIZE), 0).
Proof.
  intros Hr Hm Hf. unfold extend_heap.
  rewrite (extend_heap_words asize Hr Hm).
  unfold mem_sbrk. rewrite Hf. reflexivity.
Qed.

Lemma malloc_oom (fuel : nat) (s : state) (n : Z) :
  n <> 0 ->
  find_fit fuel s (adjust n) = Some 0 ->
  sbrk_fits s (MAX (adjust n) CHUNKSIZE) = false ->
  malloc fuel s n = Some (log_sbrk s (MAX (adjust n) CHUNKSIZE), 0).
Proof.
  intros Hn Hfit Hf. unfold malloc.
  replace (n =? 0) with false by eqb_false.
  rewrite Hfit. cbn [Z.eqb negb].
  destruct (adjust_range n) as [Hr Hm].
  now rewrite (extend_heap_fail s (adjust n) Hr Hm Hf).
Qed.

(** C5. When the provider refuses the extension, [malloc] returns [NULL] and
    [realloc] on its grow path returns [NULL]; in both cases the state is
    the one before the call (memory, free list, heap size) but for the log
    of the provider, which shows the single request that failed: nothing is
    retried. *)
Theorem out_of_memory (fuel : nat) (s : state) (n : Z) :
  n <> 0 ->
  find_fit fuel s (adjust n) = Some 0 ->
  sbrk_fits s (MAX (adjust n) CHUNKSIZE) = false ->
  malloc fuel s n = Some (log_sbrk s (MAX (adjust n) CHUNKSIZE), 0)
  /\ (forall ptr size,
        ptr <> 0 -> size <> 0 ->
        ALIGN size = n -> GET_SIZE (mem s) (HDRP ptr) < n ->
        realloc_run fuel s ptr size
        = Some (log_sbrk s (MAX (adjust n) CHUNKSIZE), 0, ExitGrowFail)
        /\ realloc fuel s ptr size
           = Some (log_sbrk s (MAX (adjust n) CHUNKSIZE), 0)).
Proof.
  intros Hn Hfit Hf.
  pose proof (malloc_oom fuel s n Hn Hfit Hf) as Hm.
  split; [exact Hm|].
  intros ptr size Hp Hs Ha Hold.
  assert (Hrun : realloc_run fuel s ptr size
                 = Some (log_sbrk s (MAX (adjust n) CHUNKSIZE), 0, ExitGrowFail)).
  { unfold realloc_run.
    replace (ptr =? 0) with false by eqb_false.
    replace (size =? 0) with false by eqb_false.
    rewrite Ha.
    rewrite geb_false, gtb_true by lia.
    rewrite Hm. reflexivity. }
  split; [exact Hrun | exact (realloc_of_run _ _ _ _ _ _ _ Hrun)].
Qed.
(** C10. With a non-null pointer and a non-zero size, [realloc] never leaves
    by its trailing [return 0]: one of the two arms of the comparison is
    taken, and [NULL] is returned only by the grow arm when its [malloc]
    returned [NULL]. *)
Theorem realloc_exits (fuel : nat) (s s' : state) (ptr n r : Z) (e : realloc_exit) :
  ptr <> 0 -> n <> 0 ->
  realloc_run fuel s ptr n = Some (s', r, e) ->
  e <> ExitFallThrough
  /\ (r = 0 ->
      e = ExitGrowFail
      /\ GET_SIZE (mem s) (HDRP ptr) < ALIGN n
      /\ malloc fuel s (ALIGN n) = Some (s', 0)).
Proof.
  intros Hp Hn. unfold realloc_run.
  replace (ptr =? 0) with false by eqb_false.
  replace (n =? 0) with false by eqb_false.
  destruct (GET_SIZE (mem s) (HDRP ptr) >=? ALIGN n) eqn:Hge.
  - destruct (wrap64 (GET_SIZE (mem s) (HDRP ptr) - ALIGN n) <? 2 * DSIZE);
      intros H; inversion H; subst; (split; [discriminate | intros; lia]).
  - rewrite Z.geb_leb in Hge. apply Z.leb_gt in Hge.
    rewrite gtb_true by lia.
    destruct (malloc fuel s (ALIGN n)) as [[s1 newptr]|] eqn:Hm; [|discriminate].
    destruct (newptr =? 0) eqn:Hnew; intros H; inversion H; subst.
    + apply Z.eqb_eq in Hnew. subst newptr.
      split; [discriminate|]. intros _. repeat split. lia.
    + apply Z.eqb_neq in Hnew. split; [discriminate | intros; lia].
Qed.

Lemma out_of_memory_witness :
  malloc 2 tight_full 1008 = Some (log_sbrk tight_full 1016, 0)
  /\ realloc 2 tight_full 4112 1000 = Some (log_sbrk tight_full 1016, 0).
Proof.
  destruct (out_of_memory 2 tight_full 1008) as [H1 H2];
    [lia | vm_compute; reflexivity | vm_compute; reflexivity |].
  split; [exact H1|].
  apply (H2 4112 1000); [lia | lia | vm_compute; reflexivity | vm_compute; reflexivity].
Defined.

Lemma realloc_exits_witness :
  ExitGrowFail <> ExitFallThrough
  /\ (0 = 0 ->
      ExitGrowFail = ExitGrowFail
      /\ GET_SIZE (mem tight_full) (HDRP 4112) < ALIGN 1000
      /\ malloc 2 tight_full (ALIGN 1000) = Some (log_sbrk tight_full 1016, 0)).
Proof.
  apply (realloc_exits 2 tight_full (log_sbrk tight_full 1016) 4112 1000 0 ExitGrowFail);
    [lia | lia | vm_compute; reflexivity].
Defined.

(** ** [calloc] *)

(** C7, as the code has it.  [calloc] asks [malloc] for
    [bytes = nmemb * size] bytes, the product taken in [size_t]; when the
    result is not [NULL] it sets the first [bytes] bytes of the payload to
    zero and nothing else: the rest of the payload is as [malloc] left it. *)
Theorem calloc_zeroes_request (fuel : nat) (s s' : state) (nmemb size p : Z) :
  calloc fuel s nmemb size = Some (s', p) ->
  exists s1,
    malloc fuel s (wrap64 (nmemb * size)) = Some (s1, p)
    /\ (p = 0 -> s' = s1)
    /\ (p <> 0 ->
        s' = set_mem s1 (memset (mem s1) p 0 (wrap64 (nmemb * size)))
        /\ (forall a, p <= a < p + wrap64 (nmemb * size) -> byte_at (mem s') a = 0)
        /\ (forall a, a < p \/ p + wrap64 (nmemb * size) <= a -> mem s' a = mem s1 a)).
Proof.
  unfold calloc. intros H.
  destruct (malloc fuel s (wrap64 (nmemb * size))) as [[s1 q]|]; [|discriminate].
  exists s1. destruct (q =? 0) eqn:Hq; cbn [negb] in H; inversion H; subst.
  - apply Z.eqb_eq in Hq. subst p. split; [reflexivity|]. split; [reflexivity | intros; lia].
  - apply Z.eqb_neq in Hq. split; [reflexivity|]. split; [intros; lia|]. intros _.
    split; [reflexivity|]. cbn [mem set_mem]. unfold byte_at, memset. split; intros a Ha.
    + replace ((p <=? a) && (a <? p + wrap64 (nmemb * size))) with true; [reflexivity|].
      symmetry. apply andb_true_iff. split; [apply Z.leb_le | apply Z.ltb_lt]; lia.
    + replace ((p <=? a) && (a <? p + wrap64 (nmemb * size))) with false; [reflexivity|].
      symmetry. apply andb_false_iff. destruct Ha; [left; apply Z.leb_gt | right; apply Z.ltb_ge]; lia.
Qed.

Lemma calloc_zeroes_request_witness :
  exists s' s1,
    calloc 1 fresh 10 8 = Some (s', 4112)
    /\ malloc 1 fresh 80 = Some (s1, 4112)
    /\ (forall a, 4112 <= a < 4112 + 80 -> byte_at (mem s') a = 0).
Proof.
  destruct (calloc 1 fresh 10 8) as [[s' p]|] eqn:E; [|vm_compute in E; discriminate].
  assert (Hp : p = 4112) by (vm_compute in E; now inversion E). subst p.
  destruct (calloc_zeroes_request 1 fresh s' 10 8 4112 E) as (s1 & Hm & _ & H).
  exists s', s1. split; [reflexivity|]. split; [exact Hm|].
  apply H. lia.
Defined.

(** C7, as stated, fails: a block that was on the free list carries a link
    word in its payload, and [calloc 1 1] clears one byte of it only. *)
Lemma calloc_payload_not_zeroed :
  exists s' p,
    calloc 1 recycled 1 1 = Some (s', p) /\ p <> 0 /\ ~ payload_zero s' p.
Proof.
  eexists. exists 4112. split; [vm_compute; reflexivity|].
  split; [lia|]. intros H.
  assert (H4 := H 4116). vm_compute in H4.
  assert (Some 40 = Some 0); [|discriminate]. f_equal. apply H4; split; congruence.
Qed.

(** ** The three scenarios *)

(** C4, as the code has it.  After [mm_init], [p = malloc 100] and
    [q = realloc p 50], whatever the heap held before: [q] is [p], the block
    at [p] is allocated with size 64, and the block after it is free with
    size 192, the 48 bytes cut off [p] merged with the 144 free bytes that
    followed it. *)
Theorem shrink_scenario (fuel : nat) (m : memory) :
  exists s1 s2,
    malloc (S fuel) (fst (mm_init (boot m 4096 (2 ^ 20)))) 100 = Some (s1, 4112)
    /\ realloc (S fuel) s1 4112 50 = Some (s2, 4112)
    /\ GET_SIZE (mem s2) (HDRP 4112) = 64
    /\ GET_ALLOC (mem s2) (HDRP 4112) = 1
    /\ NEXT_BLKP (mem s2) 4112 = 4176
    /\ GET_SIZE (mem s2) (HDRP 4176) = 192
    /\ GET_ALLOC (mem s2) (HDRP 4176) = 0
    /\ GET (mem s2) (FTRP (mem s2) 4176) = 192.
Proof.
  eexists. eexists.
  split; [vm_compute; reflexivity|].
  split; [vm_compute; reflexivity|].
  repeat split; vm_compute; reflexivity.
Qed.

(** C4, as stated, fails: the free block after [p] does not have 48 bytes. *)
Lemma shrink_scenario_not_48 :
  exists s1 s2,
    malloc 1 fresh 100 = Some (s1, 4112)
    /\ realloc 1 s1 4112 50 = Some (s2, 4112)
    /\ GET_ALLOC (mem s2) (HDRP (NEXT_BLKP (mem s2) 4112)) = 0
    /\ GET_SIZE (mem s2) (HDRP (NEXT_BLKP (mem s2) 4112)) <> 48.
Proof.
  eexists. eexists.
  split; [vm_compute; reflexivity|].
  split; [vm_compute; reflexivity|].
  split; [vm_compute; reflexivity|].
  vm_compute. discriminate.
Qed.

(** C3 on the heap that [mm_init] leaves.  The free list holds one block
    (the walk ends with its counter at 1), the physical walk finds one free
    block, and still the checker prints the message of the mismatch: it
    compares the first count less one with the second. *)
Theorem checkFreeList_off_by_one :
  checkFreeList_walk 3 fresh (GET_ADDR fresh (freelist fresh)) 1 = Some ([], 1)
  /\ checkFreeList_count 3 fresh (heap_listp fresh) 0 = Some 1
  /\ checkFreeList 3 fresh = Some [MsgCountMismatch]
  /\ mm_checkheap 3 fresh false = Some [MsgCountMismatch].
Proof. repeat split; vm_compute; reflexivity. Qed.

(** C1 on a sequence of calls with a request of [SIZE_MAX] bytes.  The
    adjusted size wraps around to 8, the block handed out has no payload,
    and freeing it leaves two free blocks side by side, which the checker
    reports. *)
Theorem adjacent_free_after_huge_request :
  exists s,
    run_calls 1 roomy
      [CallInit; CallMalloc 24; CallMalloc 1; CallFree 4112;
       CallMalloc (2 ^ 64 - 1); CallFree 4112]
    = Some (s, [0; 4112; 4144; 0; 4112; 0])
    /\ adjust (2 ^ 64 - 1) = 8
    /\ heap_blocks 4 (mem s) (heap_listp s)
       = Some [(4104, 8, 1); (4112, 8, 0); (4120, 56, 0)]
    /\ adjacent_free [(4104, 8, 1); (4112, 8, 0); (4120, 56, 0)] = true
    /\ checkblock s 4112 = [MsgHeaderFooter 8 0; MsgNotCoalesced].
Proof.
  eexists. split; [vm_compute; reflexivity|].
  repeat split; vm_compute; reflexivity.
Qed.

(** ** Blocks and their addresses *)

Lemma total_app (l1 l2 : list block) : total (l1 ++ l2) = total l1 + total l2.
Proof. induction l1 as [|b l1 IH]; cbn; lia. Qed.

Lemma located_app (a : Z) (l1 l2 : list block) :
  located a (l1 ++ l2) = located a l1 ++ located (a + total l1) l2.
Proof.
  revert a. induction l1 as [|b l1 IH]; intros a; cbn.
  - now rewrite Z.add_0_r.
  - rewrite IH. do 3 f_equal. lia.
Qed.

Lemma total_nonneg (bs : list block) : Forall sized bs -> 0 <= total bs.
Proof.
  induction 1 as [|b r [Hb _] _ IH]; cbn; lia.
Qed.

Lemma In_located_split (a x : Z) (b : block) (bs : list block) :
  In (x, b) (located a bs) ->
  exists l1 l2, bs = l1 ++ b :: l2 /\ x = a + total l1.
Proof.
  revert a. induction bs as [|c r IH]; intros a; cbn; [easy|].
  intros [H | H].
  - inversion H; subst. exists [], r. cbn. split; [reflexivity | lia].
  - destruct (IH _ H) as (l1 & l2 & -> & ->).
    exists (c :: l1), l2. cbn. split; [reflexivity | lia].
Qed.

Lemma In_located_mid (a : Z) (l1 l2 : list block) (b : block) :
  In (a + total l1, b) (located a (l1 ++ b :: l2)).
Proof.
  rewrite located_app. apply in_or_app. right. now left.
Qed.

Lemma In_located_sized (a x : Z) (b : block) (bs : list block) :
  Forall sized bs -> In (x, b) (located a bs) -> sized b.
Proof.
  intros Hs Hin. destruct (In_located_split _ _ _ _ Hin) as (l1 & l2 & -> & _).
  apply Forall_app in Hs. destruct Hs as [_ Hs]. now inversion Hs.
Qed.

Lemma In_located_bounds (a x : Z) (b : block) (bs : list block) :
  Forall sized bs -> In (x, b) (located a bs) ->
  a <= x /\ x + fst b <= a + total bs.
Proof.
  intros Hs Hin. destruct (In_located_split _ _ _ _ Hin) as (l1 & l2 & -> & ->).
  apply Forall_app in Hs. destruct Hs as [H1 H2]. inversion H2; subst.
  rewrite total_app. cbn.
  pose proof (total_nonneg _ H1). pose proof (total_nonneg _ H4). lia.
Qed.

(** Two blocks of the heap are the same block or do not overlap. *)
Lemma located_disjoint (a x y : Z) (b c : block) (bs : list block) :
  Forall sized bs ->
  In (x, b) (located a bs) -> In (y, c) (located a bs) ->
  (x = y /\ b = c) \/ x + fst b <= y \/ y + fst c <= x.
Proof.
  intros Hs. revert a. induction Hs as [|d r Hd Hr IH]; intros a; cbn; [easy|].
  intros [H1 | H1] [H2 | H2].
  - inversion H1; inversion H2; subst. now left.
  - inversion H1; subst. right. left.
    apply (In_located_bounds _ _ _ _ Hr) in H2. lia.
  - inversion H2; subst. right. right.
    apply (In_located_bounds _ _ _ _ Hr) in H1. lia.
  - eauto.
Qed.

Lemma located_inj (a x : Z) (b c : block) (bs : list block) :
  Forall sized bs ->
  In (x, b) (located a bs) -> In (x, c) (located a bs) -> b = c.
Proof.
  intros Hs H1 H2.
  pose proof (In_located_sized _ _ _ _ Hs H1) as [? _].
  pose proof (In_located_sized _ _ _ _ Hs H2) as [? _].
  destruct (located_disjoint _ _ _ _ _ _ Hs H1 H2) as [[_ ?] | ?]; [assumption | lia].
Qed.

(** ** Reading a tag *)

Lemma tag_fields (m : memory) (p : Z) (b : block) :
  fst b mod 8 = 0 -> GET m p = tag b ->
  GET_SIZE m p = fst b /\ GET_ALLOC m p = Z.b2z (snd b).
Proof.
  intros Hm Hg. rewrite GET_SIZE_eq, GET_ALLOC_eq, Hg. unfold tag.
  destruct (snd b); cbn [Z.b2z]; Z.div_mod_to_equations; lia.
Qed.

Lemma PACK_tag (size : Z) (al : bool) :
  size mod 8 = 0 -> PACK size (Z.b2z al) = tag (size, al).
Proof.
  intros Hm. unfold tag. cbn [fst snd]. apply PACK_add.
  - Z.div_mod_to_equations. lia.
  - destruct al; cbn; lia.
Qed.

(** ** Writes that leave the tags alone *)

Lemma tagged_ext (m m' : memory) (ab : Z * block) :
  GET m' (fst ab - 4) = GET m (fst ab - 4) ->
  GET m' (fst ab + fst (snd ab) - 8) = GET m (fst ab + fst (snd ab) - 8) ->
  tagged m ab -> tagged m' ab.
Proof. unfold tagged. intros -> ->. easy. Qed.

(** A write into the payload of a block changes no tag. *)
Lemma shape_PUT_payload (m : memory) (hl : Z) (bs : list block)
      (x : Z) (b : block) (q v : Z) :
  Forall sized bs -> shape m hl bs ->
  In (x, b) (located (hl + 8) bs) ->
  x <= q -> q + 4 <= x + fst b - 8 ->
  shape (PUT m q v) hl bs.
Proof.
  intros Hs (Hp & Ht & He) Hin Hq1 Hq2.
  pose proof (In_located_bounds _ _ _ _ Hs Hin) as Hb.
  repeat split.
  - unfold tagged in *. cbn [fst snd] in *. rewrite !GET_PUT_other by lia. apply Hp.
  - unfold tagged in *. cbn [fst snd] in *. rewrite !GET_PUT_other by lia. apply Hp.
  - rewrite Forall_forall in Ht. apply Forall_forall. intros [y c] Hy.
    pose proof (In_located_sized _ _ _ _ Hs Hy) as [Hc _].
    pose proof (In_located_sized _ _ _ _ Hs Hin) as [Hc' _].
    apply (tagged_ext m); [| |now apply Ht]; cbn [fst snd];
      apply GET_PUT_other;
      destruct (located_disjoint _ _ _ _ _ _ Hs Hin Hy) as [[-> ->]|[?|?]]; lia.
  - rewrite GET_PUT_other by lia. exact He.
Qed.

(** ** The chain of links *)

Lemma dll_ext (m m' : memory) (hl : Z) (l : list Z) (p n : Z) :
  (forall c, In c l -> GET m' c = GET m c /\ GET m' (c + 4) = GET m (c + 4)) ->
  dll m hl p l n -> dll m' hl p l n.
Proof.
  revert p. induction l as [|a r IH]; intros p Hext; cbn; [easy|].
  intros (H1 & H2 & H3).
  destruct (Hext a (or_introl eq_refl)) as [-> ->].
  repeat split; try assumption.
  apply IH; [|assumption]. intros c Hc. apply Hext. now right.
Qed.

Lemma dll_PUT_other (m : memory) (hl : Z) (l : list Z) (p n q v : Z) :
  (forall c, In c l -> q + 4 <= c \/ c + 8 <= q) ->
  dll m hl p l n -> dll (PUT m q v) hl p l n.
Proof.
  intros H. apply dll_ext. intros c Hc. specialize (H c Hc).
  split; apply GET_PUT_other; lia.
Qed.

Lemma off_hd_app (hl : Z) (l1 l2 : list Z) (n : Z) :
  off_hd hl (l1 ++ l2) n = off_hd hl l1 (off_hd hl l2 n).
Proof. now destruct l1. Qed.

Lemma off_last_app (hl : Z) (l1 l2 : list Z) (p : Z) :
  off_last hl (l1 ++ l2) p = off_last hl l2 (off_last hl l1 p).
Proof. revert p. induction l1 as [|a r IH]; intros p; cbn; [reflexivity | apply IH]. Qed.

Lemma dll_app (m : memory) (hl : Z) (l1 l2 : list Z) (p n : Z) :
  dll m hl p (l1 ++ l2) n <->
  dll m hl p l1 (off_hd hl l2 n) /\ dll m hl (off_last hl l1 p) l2 n.
Proof.
  revert p. induction l1 as [|a r IH]; intros p; cbn.
  - tauto.
  - rewrite IH, off_hd_app. tauto.
Qed.

Lemma apart_incl (l l' : list Z) : incl l' l -> apart l -> apart l'.
Proof. intros Hi Ha c c' Hc Hc'. apply Ha; now apply Hi. Qed.

Lemma off_last_In (hl : Z) (l : list Z) (p : Z) :
  l <> [] -> In (hl + off_last hl l p) l.
Proof.
  revert p. induction l as [|a r IH]; intros p Hl; [easy|]. cbn.
  destruct r as [|b r'].
  - left. cbn. lia.
  - right. apply IH. discriminate.
Qed.

(** Storing [n'] in the next link of the last block of the chain. *)
Lemma dll_set_next (m : memory) (hl : Z) (l : list Z) (p n n' : Z) :
  NoDup l -> apart l -> l <> [] -> 0 <= n' < 2 ^ 32 ->
  dll m hl p l n ->
  dll (PUT m (hl + off_last hl l p + 4) n') hl p l n'.
Proof.
  revert p. induction l as [|a r IH]; intros p Hnd Hap Hne Hn'; [easy|].
  cbn [dll off_last]. intros (H1 & H2 & H3). destruct r as [|b r'].
  - cbn. replace (hl + (a - hl) + 4) with (a + 4) by lia.
    rewrite GET_PUT_other by lia. rewrite GET_PUT_same, wrap32_small by lia. easy.
  - apply NoDup_cons_iff in Hnd as [Hnotin Hnd'].
    assert (Hlast : In (hl + off_last hl (b :: r') (a - hl)) (b :: r'))
      by (apply off_last_In; discriminate).
    set (z := hl + off_last hl (b :: r') (a - hl)) in *.
    assert (Hz : a + 16 <= z \/ z + 16 <= a).
    { destruct (Hap a z) as [?|?]; [now left | now right | | assumption].
      subst z. congruence. }
    rewrite !GET_PUT_other by lia.
    split; [assumption|]. split; [exact H2|].
    apply IH; try assumption; [|discriminate].
    eapply apart_incl; [|exact Hap]. intros ? ?. now right.
Qed.

(** Storing [p'] in the previous link of the first block of the chain. *)
Lemma dll_set_prev (m : memory) (hl : Z) (a : Z) (r : list Z) (p n p' : Z) :
  NoDup (a :: r) -> apart (a :: r) -> 0 <= p' < 2 ^ 32 ->
  dll m hl p (a :: r) n ->
  dll (PUT m a p') hl p' (a :: r) n.
Proof.
  intros Hnd Hap Hp' (H1 & H2 & H3). cbn.
  rewrite GET_PUT_same, wrap32_small by lia.
  rewrite GET_PUT_other by lia.
  repeat split; try assumption.
  apply dll_PUT_other; [|assumption].
  intros c Hc. apply NoDup_cons_iff in Hnd as [Hnotin _].
  destruct (Hap a c) as [?|?]; [now left | now right | congruence | lia].
Qed.

(** ** What a well-formed heap tells about its blocks *)

Ltac st := cbn [mem put set_mem set_freelist set_heap_listp heap_listp freelist
                mem_lo mem_brk mem_max sbrk_log] in *.

Section WellFormed.

Variables (s : state) (bs : list block) (fl : list Z).
Hypothesis W : wf s bs fl.

Lemma wf_block (x : Z) (b : block) :
  In (x, b) (located (heap_listp s + 8) bs) ->
  GET (mem s) (x - 4) = tag b /\ GET (mem s) (x + fst b - 8) = tag b
  /\ 16 <= fst b /\ fst b mod 8 = 0
  /\ heap_listp s + 8 <= x /\ x + fst b <= mem_lo s + mem_brk s.
Proof.
  intros Hin. destruct W as [_ _ He Hs (_ & Ht & _) _ _ _ _].
  rewrite Forall_forall in Ht. destruct (Ht _ Hin) as [H1 H2]. cbn [fst snd] in *.
  destruct (In_located_sized _ _ _ _ Hs Hin) as [H3 H4].
  pose proof (In_located_bounds _ _ _ _ Hs Hin). repeat split; try assumption; lia.
Qed.

Lemma wf_free_block (a : Z) :
  In a fl ->
  exists sz, In (a, (sz, false)) (located (heap_listp s + 8) bs)
             /\ 16 <= sz /\ heap_listp s + 8 <= a
             /\ a + sz <= mem_lo s + mem_brk s.
Proof.
  intros Hin. destruct (wf_free _ _ _ W a Hin) as [sz Hsz]. exists sz.
  destruct (wf_block _ _ Hsz) as (_ & _ & ? & _ & ? & ?). cbn [fst] in *. easy.
Qed.

Lemma wf_apart : apart fl.
Proof.
  intros c c' Hc Hc'.
  destruct (wf_free_block _ Hc) as (sz & H1 & ? & _).
  destruct (wf_free_block _ Hc') as (sz' & H2 & ? & _).
  destruct (located_disjoint _ _ _ _ _ _ (wf_sized _ _ _ W) H1 H2) as [[? _]|[?|?]];
    cbn [fst] in *; [now left | right; left; lia | right; right; lia].
Qed.

Lemma wf_offset (x : Z) (b : block) :
  In (x, b) (located (heap_listp s + 8) bs) ->
  8 <= x - heap_listp s < 2 ^ 32
  /\ GET_ADDR s (x - heap_listp s) = x /\ GET_ADDR_INDEX s x = x - heap_listp s.
Proof.
  intros Hin. destruct (wf_block _ _ Hin) as (_ & _ & ? & _ & ? & ?).
  destruct (wf_lo _ _ _ W). destruct (wf_brk _ _ _ W).
  assert (8 <= x - heap_listp s < 2 ^ 32) by lia.
  unfold GET_ADDR, GET_ADDR_INDEX. rewrite wrap32_small by lia.
  repeat split; lia.
Qed.

Lemma wf_free_offset (a : Z) :
  In a fl ->
  8 <= a - heap_listp s < 2 ^ 32
  /\ GET_ADDR s (a - heap_listp s) = a /\ GET_ADDR_INDEX s a = a - heap_listp s.
Proof.
  intros Hin. destruct (wf_free_block _ Hin) as (sz & H & _). exact (wf_offset _ _ H).
Qed.

End WellFormed.

Lemma off_last_range (hl : Z) (l : list Z) (p : Z) :
  l <> [] -> (forall c, In c l -> 8 <= c - hl < 2 ^ 32) ->
  8 <= off_last hl l p < 2 ^ 32.
Proof.
  intros Hne H. pose proof (off_last_In hl l p Hne) as Hin.
  specialize (H _ Hin). lia.
Qed.

(** The state [s'] has the heap of [s] but another memory and free list. *)
Lemma wf_relink (s s' : state) (bs : list block) (fl fl' : list Z) :
  wf s bs fl ->
  mem_lo s' = mem_lo s -> mem_brk s' = mem_brk s -> mem_max s' = mem_max s ->
  heap_listp s' = heap_listp s ->
  shape (mem s') (heap_listp s) bs ->
  (forall a, In a fl' ->
     exists sz, In (a, (sz, false)) (located (heap_listp s + 8) bs)) ->
  NoDup fl' ->
  dll (mem s') (heap_listp s) 0 fl' 0 ->
  freelist s' = off_hd (heap_listp s) fl' 0 ->
  wf s' bs fl'.
Proof.
  intros W H1 H2 H3 H4 Hsh Hfr Hnd Hdl Hhd.
  destruct W. constructor; rewrite ?H1, ?H2, ?H3, ?H4; assumption.
Qed.

Lemma NoDup_app_apart {A : Type} (l1 l2 : list A) (c : A) :
  NoDup (l1 ++ l2) -> In c l1 -> In c l2 -> False.
Proof.
  induction l1 as [|x r IH]; cbn; [easy|].
  intros Hnd [-> | Hc] Hc2; apply NoDup_cons_iff in Hnd as [Hx Hr].
  - apply Hx, in_or_app. now right.
  - now apply IH.
Qed.

(** ** Unlinking a block *)

Lemma removeFromFreeList_wf (s : state) (bs : list block) (l1 l2 : list Z) (a : Z) :
  wf s bs (l1 ++ a :: l2) ->
  wf (removeFromFreeList s a) bs (l1 ++ l2)
  /\ heap_listp (removeFromFreeList s a) = heap_listp s.
Proof.
  intros W.
  pose proof (wf_apart _ _ _ W) as Hap.
  pose proof (wf_nodup _ _ _ W) as Hnd.
  pose proof (wf_links _ _ _ W) as Hdl.
  apply dll_app in Hdl. destruct Hdl as (Hd1 & Ha1 & Ha2 & Hd2). cbn [off_hd] in Hd1.
  assert (Hoff : forall c, In c (l1 ++ a :: l2) -> 8 <= c - heap_listp s < 2 ^ 32)
    by (intros c Hc; apply (wf_free_offset _ _ _ W c Hc)).
  assert (Hsh : forall m c q v, In c (l1 ++ a :: l2) -> (q = c \/ q = c + 4) ->
                shape m (heap_listp s) bs -> shape (PUT m q v) (heap_listp s) bs).
  { intros m c q v Hc Hq Hsh. destruct (wf_free_block _ _ _ W c Hc) as (sz & Hin & ? & _).
    apply (shape_PUT_payload _ _ _ c (sz, false)); try assumption;
      [apply (wf_sized _ _ _ W) | |]; cbn [fst]; lia. }
  assert (Hfree : forall c, In c (l1 ++ l2) ->
            exists sz, In (c, (sz, false)) (located (heap_listp s + 8) bs)).
  { intros c Hc. apply (wf_free _ _ _ W). apply in_app_or in Hc.
    apply in_or_app. destruct Hc; [now left | right; now right]. }
  assert (Hnd' : NoDup (l1 ++ l2)) by (eapply NoDup_remove_1; exact Hnd).
  assert (Hnd1 : NoDup l1) by (eapply NoDup_app_remove_r; exact Hnd').
  assert (Hnd2 : NoDup l2) by (eapply NoDup_app_remove_l; exact Hnd').
  assert (Hap1 : apart l1)
    by (eapply apart_incl; [|exact Hap]; intros ? ?; apply in_or_app; now left).
  assert (Hap2 : apart l2)
    by (eapply apart_incl; [|exact Hap]; intros ? ?; apply in_or_app; right; now right).
  assert (Hcross : forall c c', In c l1 -> In c' l2 -> c + 16 <= c' \/ c' + 16 <= c).
  { intros c c' Hc Hc'.
    destruct (Hap c c') as [E|?];
      [apply in_or_app; now left | apply in_or_app; right; now right | | assumption].
    exfalso. subst c'. exact (NoDup_app_apart _ _ _ Hnd' Hc Hc'). }
  unfold removeFromFreeList, WSIZE.
  rewrite Ha1, Ha2.
  destruct l1 as [|c1 r1] eqn:El1.
  - (* the block is the head of the list *)
    cbn [off_last app] in *. cbn [Z.eqb negb andb].
    destruct l2 as [|b r] eqn:El2.
    + cbn [off_hd Z.eqb negb andb]. split; [|reflexivity].
      eapply wf_relink; try exact W; try reflexivity; st; try assumption.
      apply (wf_shape _ _ _ W).
    + cbn [off_hd] in *.
      assert (Hb : 8 <= b - heap_listp s < 2 ^ 32) by (apply Hoff; right; now left).
      replace (b - heap_listp s =? 0) with false by eqb_false.
      cbn [negb andb]. unfold GET_ADDR. st.
      replace (heap_listp s + (b - heap_listp s)) with b by lia.
      split; [|reflexivity].
      eapply wf_relink; try exact W; try reflexivity; st; try assumption.
      * apply (Hsh _ b); [right; now left | now left | apply (wf_shape _ _ _ W)].
      * apply (dll_set_prev _ _ _ _ (a - heap_listp s)); try assumption. lia.
  - (* the block has a predecessor *)
    assert (Hl1 : l1 <> []) by (rewrite El1; discriminate).
    rewrite <- El1 in *. clear El1.
    assert (Hlast : In (heap_listp s + off_last (heap_listp s) l1 0) l1)
      by now apply off_last_In.
    assert (Hp : 8 <= off_last (heap_listp s) l1 0 < 2 ^ 32).
    { apply off_last_range; [assumption|]. intros c Hc. apply Hoff, in_or_app. now left. }
    replace (off_last (heap_listp s) l1 0 =? 0) with false by eqb_false.
    cbn [negb andb].
    destruct l2 as [|b r] eqn:El2.
    + cbn [off_hd Z.eqb negb andb] in *. unfold GET_ADDR. st.
      split; [|reflexivity]. rewrite app_nil_r in *.
      eapply wf_relink; try exact W; try reflexivity; st; try assumption.
      * apply (Hsh _ (heap_listp s + off_last (heap_listp s) l1 0));
          [apply in_or_app; now left | now right | apply (wf_shape _ _ _ W)].
      * apply (dll_set_next _ _ _ _ (a - heap_listp s)); try assumption. lia.
      * rewrite (wf_head _ _ _ W). destruct l1; [easy | reflexivity].
    + cbn [off_hd] in *.
      assert (Hb : 8 <= b - heap_listp s < 2 ^ 32)
        by (apply Hoff, in_or_app; right; right; now left).
      replace (b - heap_listp s =? 0) with false by eqb_false.
      cbn [negb andb]. unfold GET_ADDR. st.
      replace (heap_listp s + (b - heap_listp s)) with b by lia.
      split; [|reflexivity].
      eapply wf_relink; try exact W; try reflexivity; st; try assumption.
      * apply (Hsh _ b); [apply in_or_app; right; right; now left | now left |].
        apply (Hsh _ (heap_listp s + off_last (heap_listp s) l1 0));
          [apply in_or_app; now left | now right | apply (wf_shape _ _ _ W)].
      * apply dll_app. split.
        -- cbn [off_hd]. apply dll_PUT_other.
           ++ intros c Hc. destruct (Hcross c b Hc (or_introl eq_refl)); lia.
           ++ apply (dll_set_next _ _ _ _ (a - heap_listp s)); try assumption. lia.
        -- apply (dll_set_prev _ _ _ _ (a - heap_listp s)); try assumption; [lia|].
           apply dll_PUT_other; [|assumption].
           intros c Hc. destruct (Hcross _ c Hlast Hc); lia.
      * rewrite (wf_head _ _ _ W). destruct l1; [easy | reflexivity].
Qed.

(** ** Linking a block at the head *)

Lemma addToFreeList_wf (s : state) (bs : list block) (fl : list Z) (a sz : Z) :
  wf s bs fl ->
  In (a, (sz, false)) (located (heap_listp s + 8) bs) ->
  ~ In a fl ->
  wf (addToFreeList s a) bs (a :: fl)
  /\ heap_listp (addToFreeList s a) = heap_listp s.
Proof.
  intros W Hin Hnotin.
  destruct (wf_block _ _ _ W _ _ Hin) as (_ & _ & Hsz & _ & Hlo & Hhi). cbn [fst] in *.
  destruct (wf_offset _ _ _ W _ _ Hin) as (Hoff & _ & Hidx).
  assert (Hfar : forall c, In c fl -> a + 16 <= c \/ c + 16 <= a).
  { intros c Hc. destruct (wf_free_block _ _ _ W c Hc) as (sz' & Hc' & ? & _).
    destruct (located_disjoint _ _ _ _ _ _ (wf_sized _ _ _ W) Hin Hc') as [[E _]|[?|?]];
      cbn [fst] in *; [congruence | lia | lia]. }
  assert (Hsh : forall m q v, (q = a \/ q = a + 4) ->
                shape m (heap_listp s) bs -> shape (PUT m q v) (heap_listp s) bs).
  { intros m q v Hq Hsh.
    apply (shape_PUT_payload _ _ _ a (sz, false)); try assumption;
      [apply (wf_sized _ _ _ W) | |]; cbn [fst]; lia. }
  assert (Hfree : forall c, In c (a :: fl) ->
            exists sz, In (c, (sz, false)) (located (heap_listp s + 8) bs)).
  { intros c [<- | Hc]; [now exists sz | now apply (wf_free _ _ _ W)]. }
  assert (Hnd : NoDup (a :: fl)) by (constructor; [assumption | apply (wf_nodup _ _ _ W)]).
  pose proof (wf_links _ _ _ W) as Hdl.
  unfold addToFreeList, WSIZE, GET_ADDR_INDEX, GET_ADDR in *. st.
  rewrite (wf_head _ _ _ W).
  destruct fl as [|b r] eqn:Efl.
  - cbn [off_hd Z.eqb negb]. st. rewrite !Hidx. split; [|reflexivity].
    eapply wf_relink; try exact W; try reflexivity; st; try assumption.
    + apply Hsh; [now right|]. apply Hsh; [now left|]. apply (wf_shape _ _ _ W).
    + cbn. rewrite GET_PUT_other, !GET_PUT_same by lia. now cbn.
  - destruct (wf_free_block _ _ _ W b (or_introl eq_refl)) as (szb & Hb & ? & _).
    destruct (wf_offset _ _ _ W _ _ Hb) as (Hoffb & _ & _).
    pose proof (Hfar b (or_introl eq_refl)) as Hab.
    cbn [off_hd] in *.
    replace (b - heap_listp s =? 0) with false by eqb_false.
    cbn [negb]. st. rewrite !Hidx.
    replace (heap_listp s + (b - heap_listp s)) with b by lia.
    split; [|reflexivity].
    eapply wf_relink; try exact W; try reflexivity; st; try assumption.
    + apply (shape_PUT_payload _ _ _ b (szb, false)); try assumption;
        [apply (wf_sized _ _ _ W) | | cbn [fst]; lia | cbn [fst]; lia].
      apply Hsh; [now right|]. apply Hsh; [now left|]. apply (wf_shape _ _ _ W).
    + cbn [dll off_hd]. rewrite !(GET_PUT_other _ b) by lia.
      rewrite GET_PUT_same. rewrite GET_PUT_other, GET_PUT_same by lia.
      rewrite !wrap32_small by lia. split; [reflexivity|]. split; [reflexivity|].
      apply (dll_set_prev _ _ _ _ 0); try apply (wf_nodup _ _ _ W);
        try apply (wf_apart _ _ _ W); [lia|].
      apply dll_PUT_other; [intros c Hc; specialize (Hfar c Hc); lia|].
      apply dll_PUT_other; [intros c Hc; specialize (Hfar c Hc); lia|].
      exact Hdl.
Qed.

(** ** Rewriting a stretch of the heap *)

Lemma In_located_app3 (a x : Z) (b : block) (l1 mid l2 : list block) :
  In (x, b) (located a (l1 ++ mid ++ l2)) ->
  In (x, b) (located a l1)
  \/ In (x, b) (located (a + total l1) mid)
  \/ In (x, b) (located (a + total l1 + total mid) l2).
Proof.
  rewrite !located_app. intros H.
  apply in_app_or in H. destruct H as [H|H]; [now left|].
  apply in_app_or in H. destruct H as [H|H]; [right; now left | right; now right].
Qed.

(** The blocks [mid], none of them on the free list, are replaced by the
    blocks [mid'], which fill the same bytes; the memory is the same
    outside of them. *)
Lemma wf_region (s s' : state) (l1 mid mid' l2 : list block) (fl : list Z) :
  wf s (l1 ++ mid ++ l2) fl ->
  total mid' = total mid -> Forall sized mid' ->
  mem_lo s' = mem_lo s -> mem_brk s' = mem_brk s -> mem_max s' = mem_max s ->
  heap_listp s' = heap_listp s -> freelist s' = freelist s ->
  (forall q, q + 4 <= heap_listp s + 8 + total l1 - 4
             \/ heap_listp s + 8 + total l1 + total mid - 4 <= q ->
             GET (mem s') q = GET (mem s) q) ->
  Forall (tagged (mem s')) (located (heap_listp s + 8 + total l1) mid') ->
  (forall c b, In c fl -> ~ In (c, b) (located (heap_listp s + 8 + total l1) mid)) ->
  wf s' (l1 ++ mid' ++ l2) fl.
Proof.
  intros W Ht Hs' E1 E2 E3 E4 E5 Hext Htag Hfl.
  pose proof (wf_sized _ _ _ W) as Hs.
  apply Forall_app in Hs. destruct Hs as [Hs1 Hs]. apply Forall_app in Hs. destruct Hs as [Hsm Hs2].
  pose proof (total_nonneg _ Hs1). pose proof (total_nonneg _ Hsm).
  pose proof (total_nonneg _ Hs2).
  destruct (wf_shape _ _ _ W) as (Hp & Hb & He).
  rewrite !located_app in Hb.
  apply Forall_app in Hb. destruct Hb as [Hb1 Hb]. apply Forall_app in Hb. destruct Hb as [_ Hb2].
  rewrite !total_app in He.
  assert (Hwhere : forall c, In c fl -> exists sz,
            16 <= sz /\
            (In (c, (sz, false)) (located (heap_listp s + 8) l1)
             \/ In (c, (sz, false))
                  (located (heap_listp s + 8 + total l1 + total mid) l2))).
  { intros c Hc. destruct (wf_free_block _ _ _ W c Hc) as (sz & Hin & ? & _).
    exists sz. split; [assumption|].
    apply In_located_app3 in Hin. destruct Hin as [?|[Hin|?]]; [now left | | now right].
    exfalso. exact (Hfl _ _ Hc Hin). }
  constructor; rewrite ?E1, ?E2, ?E3, ?E4, ?E5.
  - apply (wf_lo _ _ _ W).
  - apply (wf_brk _ _ _ W).
  - rewrite <- (wf_end _ _ _ W), !total_app. lia.
  - apply Forall_app. split; [assumption|]. apply Forall_app. now split.
  - repeat split.
    + unfold tagged in *. cbn [fst snd] in *. rewrite Hext by lia. apply Hp.
    + unfold tagged in *. cbn [fst snd] in *. rewrite Hext by lia. apply Hp.
    + rewrite !located_app. apply Forall_app. split; [|apply Forall_app; split].
      * rewrite Forall_forall in Hb1. apply Forall_forall. intros [x b] Hx.
        pose proof (In_located_bounds _ _ _ _ Hs1 Hx).
        pose proof (In_located_sized _ _ _ _ Hs1 Hx) as [? _].
        apply (tagged_ext (mem s)); [| |now apply Hb1]; cbn [fst snd]; apply Hext; lia.
      * assumption.
      * rewrite Ht.
        rewrite Forall_forall in Hb2. apply Forall_forall. intros [x b] Hx.
        pose proof (In_located_bounds _ _ _ _ Hs2 Hx).
        pose proof (In_located_sized _ _ _ _ Hs2 Hx) as [? _].
        apply (tagged_ext (mem s)); [| |now apply Hb2]; cbn [fst snd]; apply Hext; lia.
    + rewrite !total_app, Ht, Hext by lia. exact He.
  - intros c Hc. destruct (Hwhere c Hc) as (sz & _ & [Hin|Hin]); exists sz;
      rewrite !located_app; apply in_or_app.
    + now left.
    + right. apply in_or_app. right. now rewrite Ht.
  - apply (wf_nodup _ _ _ W).
  - apply (dll_ext (mem s)); [|apply (wf_links _ _ _ W)].
    intros c Hc. destruct (Hwhere c Hc) as (sz & Hsz & [Hin|Hin]).
    + pose proof (In_located_bounds _ _ _ _ Hs1 Hin). cbn [fst] in *.
      split; apply Hext; lia.
    + pose proof (In_located_bounds _ _ _ _ Hs2 Hin). cbn [fst] in *.
      split; apply Hext; lia.
  - apply (wf_head _ _ _ W).
Qed.

(** A block is appended to the heap, over the old epilogue. *)
Lemma wf_extend (s s' : state) (bs : list block) (fl : list Z) (size : Z) :
  wf s bs fl ->
  sized (size, false) ->
  mem_lo s' = mem_lo s -> mem_brk s' = mem_brk s + size ->
  mem_max s' = mem_max s -> mem_brk s' <= mem_max s ->
  heap_listp s' = heap_listp s -> freelist s' = freelist s ->
  (forall q, q + 4 <= mem_lo s + mem_brk s - 4 -> GET (mem s') q = GET (mem s) q) ->
  tagged (mem s') (mem_lo s + mem_brk s, (size, false)) ->
  GET (mem s') (mem_lo s + mem_brk s + size - 4) = 1 ->
  wf s' (bs ++ [(size, false)]) fl.
Proof.
  intros W Hsz E1 E2 E3 Hmax E4 E5 Hext Htag Hepi.
  pose proof (wf_sized _ _ _ W) as Hs. pose proof (total_nonneg _ Hs).
  pose proof (wf_end _ _ _ W) as Hend.
  destruct (wf_shape _ _ _ W) as (Hp & Hb & He).
  rewrite E2 in Hmax.
  constructor; rewrite ?E1, ?E2, ?E3, ?E4, ?E5.
  - apply (wf_lo _ _ _ W).
  - split; [assumption | apply (wf_brk _ _ _ W)].
  - rewrite total_app. cbn [total fst]. lia.
  - apply Forall_app. split; [assumption | now constructor].
  - repeat split.
    + unfold tagged in *. cbn [fst snd] in *. rewrite Hext by lia. apply Hp.
    + unfold tagged in *. cbn [fst snd] in *. rewrite Hext by lia. apply Hp.
    + rewrite located_app. apply Forall_app. split.
      * rewrite Forall_forall in Hb. apply Forall_forall. intros [x b] Hx.
        pose proof (In_located_bounds _ _ _ _ Hs Hx).
        pose proof (In_located_sized _ _ _ _ Hs Hx) as [? _].
        apply (tagged_ext (mem s)); [| |now apply Hb]; cbn [fst snd]; apply Hext; lia.
      * cbn [located]. rewrite Hend. now constructor.
    + rewrite total_app. cbn [total fst].
      replace (heap_listp s + 8 + (total bs + (size + 0)) - 4)
        with (mem_lo s + mem_brk s + size - 4) by lia.
      exact Hepi.
  - intros c Hc. destruct (wf_free _ _ _ W c Hc) as [sz Hin]. exists sz.
    rewrite located_app. apply in_or_app. now left.
  - apply (wf_nodup _ _ _ W).
  - apply (dll_ext (mem s)); [|apply (wf_links _ _ _ W)].
    intros c Hc. destruct (wf_free_block _ _ _ W c Hc) as (sz & Hin & ? & ? & ?).
    split; apply Hext; lia.
  - apply (wf_head _ _ _ W).
Qed.

(** ** The macros on a tagged block *)

Section Macros.

Variables (m : memory) (a : Z) (b : block).
Hypothesis Hhdr : GET m (a - 4) = tag b.
Hypothesis Hmod : fst b mod 8 = 0.

Lemma GET_SIZE_HDRP : GET_SIZE m (HDRP a) = fst b.
Proof. unfold HDRP, WSIZE. now apply tag_fields. Qed.

Lemma GET_ALLOC_HDRP : GET_ALLOC m (HDRP a) = Z.b2z (snd b).
Proof. unfold HDRP, WSIZE. now apply tag_fields. Qed.

Lemma FTRP_tagged : FTRP m a = a + fst b - 8.
Proof. unfold FTRP, DSIZE. now rewrite GET_SIZE_HDRP. Qed.

Lemma NEXT_BLKP_tagged : NEXT_BLKP m a = a + fst b.
Proof. unfold NEXT_BLKP. fold (HDRP a). now rewrite GET_SIZE_HDRP. Qed.

End Macros.

Lemma PREV_BLKP_tagged (m : memory) (a : Z) (pb : block) :
  GET m (a - 8) = tag pb -> fst pb mod 8 = 0 -> PREV_BLKP m a = a - fst pb.
Proof.
  intros H Hm. unfold PREV_BLKP, DSIZE. f_equal. now apply tag_fields.
Qed.

(** Writing the header of a block and then its footer, found through the
    header just written. *)
Lemma retag (m : memory) (a size : Z) (al : bool) :
  8 <= size < 2 ^ 32 -> size mod 8 = 0 ->
  FTRP (PUT m (HDRP a) (PACK size (Z.b2z al))) a = a + size - 8
  /\ tagged (PUT (PUT m (HDRP a) (PACK size (Z.b2z al)))
                 (a + size - 8) (PACK size (Z.b2z al))) (a, (size, al))
  /\ (forall q, q + 4 <= a - 4 \/ a + size - 4 <= q ->
       GET (PUT (PUT m (HDRP a) (PACK size (Z.b2z al)))
                (a + size - 8) (PACK size (Z.b2z al))) q = GET m q).
Proof.
  intros Hr Hm.
  set (v := PACK size (Z.b2z al)). set (m1 := PUT m (HDRP a) v).
  assert (Hv : v = tag (size, al)) by (apply PACK_tag; assumption).
  assert (Ht : 0 <= tag (size, al) < 2 ^ 32)
    by (unfold tag; cbn [fst snd]; destruct al; cbn [Z.b2z]; Z.div_mod_to_equations; lia).
  assert (H1 : GET m1 (a - 4) = tag (size, al)).
  { subst m1. unfold HDRP, WSIZE. rewrite GET_PUT_same, Hv. now apply wrap32_small. }
  assert (HF : FTRP m1 a = a + size - 8) by (apply (FTRP_tagged m1 a (size, al)); assumption).
  split; [exact HF|]. split.
  - split; cbn [fst snd].
    + rewrite GET_PUT_other by lia. exact H1.
    + rewrite GET_PUT_same, Hv. now apply wrap32_small.
  - intros q Hq. rewrite GET_PUT_other by lia. subst m1. unfold HDRP, WSIZE.
    apply GET_PUT_other. lia.
Qed.

(** ** Lists without two free blocks in a row *)

Lemma naf_cons (b : block) (l : list block) :
  no_adjacent_free (b :: l) <->
  (snd b = true \/ snd (hd (0, true) l) = true) /\ no_adjacent_free l.
Proof.
  destruct l as [|c r]; cbn; tauto.
Qed.

Lemma naf_app (l1 l2 : list block) :
  no_adjacent_free (l1 ++ l2) <->
  no_adjacent_free l1 /\ no_adjacent_free l2
  /\ (snd (last l1 (0, true)) = true \/ snd (hd (0, true) l2) = true).
Proof.
  induction l1 as [|b r IH].
  - cbn. tauto.
  - cbn [app]. rewrite !naf_cons, IH.
    destruct r as [|c r']; [|cbn; tauto].
    cbn [app hd last no_adjacent_free]. tauto.
Qed.

Lemma last_snoc {A : Type} (l : list A) (x d : A) : last (l ++ [x]) d = x.
Proof. apply last_last. Qed.

(** A list is empty or ends with a block. *)
Lemma list_end {A : Type} (l : list A) : l = [] \/ exists l' x, l = l' ++ [x].
Proof.
  destruct l as [|a r]; [now left | right].
  destruct (exists_last (l := a :: r)) as (l' & x & E); [discriminate|]. eauto.
Qed.

(** ** Replacing blocks in the list *)

Lemma located_replace (a0 x : Z) (b : block) (l1 mid mid' l2 : list block) :
  total mid' = total mid ->
  In (x, b) (located a0 (l1 ++ mid ++ l2)) ->
  ~ In (x, b) (located (a0 + total l1) mid) ->
  In (x, b) (located a0 (l1 ++ mid' ++ l2)).
Proof.
  intros Ht Hin Hmid. apply In_located_app3 in Hin.
  rewrite !located_app. apply in_or_app.
  destruct Hin as [?|[?|?]]; [now left | easy | right].
  apply in_or_app. right. now rewrite Ht.
Qed.

(** ** The neighbours of a block *)

Section Neighbours.

Variables (s : state) (l1 l2 : list block) (b : block) (fl : list Z) (a : Z).
Hypothesis W : wf s (l1 ++ b :: l2) fl.
Hypothesis Ha : a = heap_listp s + 8 + total l1.

Lemma wf_here : In (a, b) (located (heap_listp s + 8) (l1 ++ b :: l2)).
Proof. rewrite Ha. apply In_located_mid. Qed.

(** The block before: the prologue, or the last block of [l1]. *)
Lemma wf_prev :
  exists pb,
    snd (last l1 (0, true)) = snd pb
    /\ GET (mem s) (a - 8) = tag pb /\ GET (mem s) (a - fst pb - 4) = tag pb
    /\ fst pb mod 8 = 0 /\ 8 <= fst pb
    /\ (snd pb = false ->
        exists l1', l1 = l1' ++ [pb] /\ 16 <= fst pb
                    /\ a - fst pb = heap_listp s + 8 + total l1').
Proof.
  destruct (list_end l1) as [E | (l1' & pb & E)].
  - exists (8, true). subst l1. cbn [total last] in *.
    destruct (wf_shape _ _ _ W) as ((Hh & Hf) & _). cbn [fst snd] in *.
    replace (a - 8 - 4) with (heap_listp s - 4) by lia.
    replace (a - 8) with (heap_listp s + 8 - 8) by lia.
    repeat split; try assumption; try reflexivity; try lia.
  - exists pb. rewrite E in W.
    assert (Hin : In (heap_listp s + 8 + total l1', pb)
                     (located (heap_listp s + 8) ((l1' ++ [pb]) ++ b :: l2))).
    { rewrite <- app_assoc. apply In_located_mid. }
    destruct (wf_block _ _ _ W _ _ Hin) as (Hh & Hf & Hsz & Hm & _).
    assert (Ht : total l1 = total l1' + fst pb) by (rewrite E, total_app; cbn; lia).
    replace (a - 8) with (heap_listp s + 8 + total l1' + fst pb - 8) by lia.
    replace (a - fst pb - 4) with (heap_listp s + 8 + total l1' - 4) by lia.
    rewrite E, last_snoc.
    repeat split; try assumption; try lia.
    intros _. exists l1'. repeat split; [lia | lia].
Qed.

(** The block after: the first block of [l2], or the epilogue. *)
Lemma wf_next :
  exists nb,
    hd (0, true) l2 = nb
    /\ GET (mem s) (a + fst b - 4) = tag nb /\ fst nb mod 8 = 0
    /\ (snd nb = false ->
        exists l2', l2 = nb :: l2' /\ 16 <= fst nb
                    /\ GET (mem s) (a + fst b + fst nb - 8) = tag nb).
Proof.
  destruct l2 as [|nb l2'] eqn:E.
  - exists (0, true). cbn [hd]. split; [reflexivity|].
    destruct (wf_shape _ _ _ W) as (_ & _ & He).
    rewrite total_app in He. cbn [total] in He.
    replace (a + fst b - 4) with (heap_listp s + 8 + (total l1 + (fst b + 0)) - 4) by lia.
    repeat split; try assumption. cbn [snd]. discriminate.
  - exists nb. cbn [hd]. split; [reflexivity|].
    assert (Hin : In (heap_listp s + 8 + total (l1 ++ [b]), nb)
                     (located (heap_listp s + 8) ((l1 ++ [b]) ++ nb :: l2')))
      by apply In_located_mid.
    rewrite <- app_assoc in Hin. cbn [app] in Hin.
    destruct (wf_block _ _ _ W _ _ Hin) as (Hh & Hf & Hsz & Hm & _).
    rewrite total_app in Hh, Hf. cbn [total] in Hh, Hf.
    replace (a + fst b - 4) with (heap_listp s + 8 + (total l1 + (fst b + 0)) - 4) by lia.
    replace (a + fst b + fst nb - 8)
      with (heap_listp s + 8 + (total l1 + (fst b + 0)) + fst nb - 8) by lia.
    repeat split; try assumption.
    intros _. exists l2'. repeat split; assumption.
Qed.

End Neighbours.

(** ** Unlinking, by membership *)

Lemma removeFromFreeList_spec (s : state) (bs : list block) (fl : list Z) (a : Z) :
  wf s bs fl -> In a fl ->
  exists fl',
    wf (removeFromFreeList s a) bs fl'
    /\ heap_listp (removeFromFreeList s a) = heap_listp s
    /\ (forall c, In c fl' <-> In c fl /\ c <> a).
Proof.
  intros W Hin. destruct (in_split _ _ Hin) as (l1 & l2 & E). subst fl.
  destruct (removeFromFreeList_wf _ _ _ _ _ W) as [W' Hhl].
  exists (l1 ++ l2). split; [assumption|]. split; [assumption|].
  pose proof (wf_nodup _ _ _ W) as Hnd.
  pose proof (NoDup_remove_2 _ _ _ Hnd) as Hnot.
  intros c. rewrite !in_app_iff. cbn [In]. split.
  - intros H. split; [tauto|]. intros ->. apply Hnot, in_or_app. exact H.
  - intros [[H|[H|H]] Hne]; [now left | congruence | now right].
Qed.

(** ** A write into the payload of a block that is not on the list *)

Lemma wf_put_unlisted (s : state) (bs : list block) (fl : list Z)
      (x : Z) (b : block) (q v : Z) :
  wf s bs fl ->
  In (x, b) (located (heap_listp s + 8) bs) -> ~ In x fl ->
  x <= q -> q + 4 <= x + fst b - 8 ->
  wf (put s q v) bs fl.
Proof.
  intros W Hin Hnot Hq1 Hq2.
  eapply wf_relink; try exact W; try reflexivity; st.
  - apply (shape_PUT_payload _ _ _ x b); try assumption;
      [apply (wf_sized _ _ _ W) | apply (wf_shape _ _ _ W)].
  - apply (wf_free _ _ _ W).
  - apply (wf_nodup _ _ _ W).
  - apply dll_PUT_other; [|apply (wf_links _ _ _ W)].
    intros c Hc. destruct (wf_free_block _ _ _ W c Hc) as (sz & Hc' & ? & _).
    destruct (located_disjoint _ _ _ _ _ _ (wf_sized _ _ _ W) Hin Hc') as [[E _]|[?|?]];
      cbn [fst] in *; [congruence | lia | lia].
  - apply (wf_head _ _ _ W).
Qed.

(** ** Retagging: several blocks become one *)

Lemma wf_total_bound (s : state) (bs : list block) (fl : list Z) :
  wf s bs fl -> 0 <= total bs /\ total bs + 16 < 2 ^ 32.
Proof.
  intros W. pose proof (total_nonneg _ (wf_sized _ _ _ W)).
  pose proof (wf_end _ _ _ W). destruct (wf_lo _ _ _ W). destruct (wf_brk _ _ _ W). lia.
Qed.

Lemma total_mod8 (bs : list block) : Forall sized bs -> total bs mod 8 = 0.
Proof.
  induction 1 as [|b r [_ Hb] _ IH]; cbn [total]; [reflexivity|].
  Z.div_mod_to_equations. lia.
Qed.

Lemma retag_wf (s : state) (l1 mid l2 : list block) (fl : list Z) (a T : Z) (al : bool) :
  wf s (l1 ++ mid ++ l2) fl ->
  a = heap_listp s + 8 + total l1 -> T = total mid -> mid <> [] ->
  (forall c b, In c fl -> ~ In (c, b) (located a mid)) ->
  wf (put (put s (HDRP a) (PACK T (Z.b2z al)))
          (FTRP (mem (put s (HDRP a) (PACK T (Z.b2z al)))) a) (PACK T (Z.b2z al)))
     (l1 ++ (T, al) :: l2) fl.
Proof.
  intros W Ha HT Hne Hfl.
  pose proof (wf_sized _ _ _ W) as Hs.
  apply Forall_app in Hs. destruct Hs as [Hs1 Hs]. apply Forall_app in Hs. destruct Hs as [Hsm Hs2].
  pose proof (wf_total_bound _ _ _ W) as Hb. rewrite !total_app in Hb.
  pose proof (total_nonneg _ Hs1). pose proof (total_nonneg _ Hs2).
  pose proof (total_mod8 _ Hsm) as Hmod.
  assert (HT16 : 16 <= T).
  { subst T. destruct mid as [|c r]; [easy|]. inversion Hsm as [|? ? [Hc _] Hr]; subst.
    pose proof (total_nonneg _ Hr). cbn [total]. lia. }
  destruct (retag (mem s) a T al) as (HF & Htag & Hframe); [lia | now subst T |].
  st. rewrite HF.
  apply (wf_region s _ l1 mid [(T, al)] l2 fl); try assumption; try reflexivity; st.
  - cbn [total fst]. lia.
  - constructor; [|constructor]. split; cbn [fst]; [lia | now subst T].
  - intros q Hq. apply Hframe. lia.
  - cbn [located]. rewrite <- Ha. constructor; [assumption | constructor].
  - now rewrite <- Ha.
Qed.

(** ** What the operations on the heap leave alone *)

Lemma same_but_mem (X : Z -> Prop) (s s' : state) (bs : list block) :
  (forall x sz, ~ X x -> In (x, (sz, true)) (located (heap_listp s + 8) bs) ->
                kept (mem s) (mem s') x sz) ->
  same_but X s bs s' bs.
Proof.
  intros H x sz Hx. split; [easy|]. intros Hin. split; [assumption | now apply H].
Qed.

Lemma same_but_trans (X Y : Z -> Prop) (s s1 s2 : state) (bs bs1 bs2 : list block) :
  heap_listp s1 = heap_listp s ->
  same_but X s bs s1 bs1 -> same_but Y s1 bs1 s2 bs2 ->
  same_but (fun x => X x \/ Y x) s bs s2 bs2.
Proof.
  intros E H1 H2 x sz Hx.
  assert (HX : ~ X x) by tauto. assert (HY : ~ Y x) by tauto.
  destruct (H1 x sz HX) as [B1 F1]. destruct (H2 x sz HY) as [B2 F2]. rewrite E in *.
  split.
  - intros H. apply B1, B2, H.
  - intros H. destruct (F1 H) as [H' K1]. destruct (F2 H') as [H'' K2].
    split; [assumption|]. intros a Ha. rewrite K2, K1 by assumption. reflexivity.
Qed.

Lemma same_but_weaken (X Y : Z -> Prop) (s s' : state) (bs bs' : list block) :
  (forall x, X x -> Y x) -> same_but X s bs s' bs' -> same_but Y s bs s' bs'.
Proof. intros H H1 x sz Hx. apply H1. intros Hc. apply Hx, H, Hc. Qed.

(** The stretch [mid] of the heap, at [a], is rewritten into [mid']: the
    blocks in use outside of it are the same, and so are their payloads when
    the stores fall between the header of the first block of [mid] and the
    footer of its last block. *)
Lemma same_but_region (X : Z -> Prop) (s s' : state)
      (l1 mid mid' l2 : list block) (a : Z) :
  Forall sized l1 -> Forall sized l2 ->
  total mid' = total mid ->
  a = heap_listp s + 8 + total l1 ->
  (forall q, q < a - 4 \/ a + total mid - 4 <= q -> mem s' q = mem s q) ->
  (forall x sz, In (x, (sz, true)) (located a mid) -> X x) ->
  (forall x sz, In (x, (sz, true)) (located a mid') -> X x) ->
  same_but X s (l1 ++ mid ++ l2) s' (l1 ++ mid' ++ l2).
Proof.
  intros H1 H2 Ht Ha Hm HX HX' x sz Hx. subst a. split.
  - intros Hin. apply In_located_app3 in Hin. rewrite !located_app.
    destruct Hin as [Hin|[Hin|Hin]].
    + apply in_or_app. now left.
    + exfalso. apply Hx. eapply HX'. exact Hin.
    + apply in_or_app. right. apply in_or_app. right. now rewrite <- Ht.
  - intros Hin. apply In_located_app3 in Hin. rewrite !located_app.
    destruct Hin as [Hin|[Hin|Hin]].
    + split; [apply in_or_app; now left|].
      pose proof (In_located_bounds _ _ _ _ H1 Hin). cbn [fst] in *.
      intros q Hq. apply Hm. lia.
    + exfalso. apply Hx. eapply HX. exact Hin.
    + split; [apply in_or_app; right; apply in_or_app; right; now rewrite Ht|].
      pose proof (In_located_bounds _ _ _ _ H2 Hin). cbn [fst] in *.
      intros q Hq. apply Hm. lia.
Qed.

(** A new block at the end of the heap. *)
Lemma same_but_snoc (X : Z -> Prop) (s s' : state) (bs : list block) (b : block) :
  Forall sized bs -> snd b = false ->
  (forall q, q < heap_listp s + 8 + total bs - 4 -> mem s' q = mem s q) ->
  same_but X s bs s' (bs ++ [b]).
Proof.
  intros Hs Hb Hm x sz Hx. rewrite located_app. split.
  - intros Hin. apply in_app_or in Hin. destruct Hin as [Hin|[Hin|[]]]; [assumption|].
    injection Hin as _ E. rewrite E in Hb. discriminate.
  - intros Hin. split; [apply in_or_app; now left|].
    pose proof (In_located_bounds _ _ _ _ Hs Hin). cbn [fst] in *.
    intros q Hq. apply Hm. lia.
Qed.

(** The payload of a block in use is apart from the link words of the
    blocks of the free list. *)
Lemma in_use_off_list (s : state) (bs : list block) (fl : list Z) (x sz c q : Z) :
  wf s bs fl -> In (x, (sz, true)) (located (heap_listp s + 8) bs) -> In c fl ->
  x <= q < x + sz - 8 -> q < c - 4 \/ c + 12 <= q.
Proof.
  intros W Hin Hc Hq.
  destruct (wf_free_block _ _ _ W c Hc) as (szc & Hc' & ? & _).
  destruct (located_disjoint _ _ _ _ _ _ (wf_sized _ _ _ W) Hin Hc') as [[_ E]|[?|?]];
    cbn [fst] in *; [discriminate | lia | lia].
Qed.

(** The payload of a block in use is apart from every free block. *)
Lemma outside_free (s : state) (bs : list block) (fl : list Z) (x szx y szy q : Z) :
  wf s bs fl -> In (x, (szx, true)) (located (heap_listp s + 8) bs) ->
  In (y, (szy, false)) (located (heap_listp s + 8) bs) ->
  x <= q < x + szx - 8 -> q < y - 4 \/ y + szy - 4 <= q.
Proof.
  intros W Hin Hy Hq.
  destruct (located_disjoint _ _ _ _ _ _ (wf_sized _ _ _ W) Hin Hy) as [[_ E]|[?|?]];
    cbn [fst] in *; [discriminate | lia | lia].
Qed.

(** [removeFromFreeList] writes into link words of blocks of the list only. *)
Lemma removeFromFreeList_mem (s : state) (bs : list block) (fl : list Z) (a q : Z) :
  wf s bs fl -> In a fl ->
  (forall c, In c fl -> q < c \/ c + 8 <= q) ->
  mem (removeFromFreeList s a) q = mem s q.
Proof.
  intros W Hin Hq. apply in_split in Hin. destruct Hin as (l1 & l2 & E). subst fl.
  pose proof (wf_links _ _ _ W) as Hdl.
  apply dll_app in Hdl. destruct Hdl as (_ & Ha1 & Ha2 & _).
  assert (HP : off_last (heap_listp s) l1 0 = 0
               \/ (q < heap_listp s + off_last (heap_listp s) l1 0
                   \/ heap_listp s + off_last (heap_listp s) l1 0 + 8 <= q)).
  { destruct l1 as [|c r]; [now left | right].
    apply Hq, in_or_app. left. apply off_last_In. discriminate. }
  assert (HN : off_hd (heap_listp s) l2 0 = 0
               \/ (q < heap_listp s + off_hd (heap_listp s) l2 0
                   \/ heap_listp s + off_hd (heap_listp s) l2 0 + 8 <= q)).
  { destruct l2 as [|c r]; [now left | right]. cbn [off_hd].
    replace (heap_listp s + (c - heap_listp s)) with c by lia.
    apply Hq, in_or_app. right. right. now left. }
  unfold removeFromFreeList, WSIZE. rewrite Ha1, Ha2.
  set (prev := off_last (heap_listp s) l1 0) in *.
  set (next := off_hd (heap_listp s) l2 0) in *.
  destruct (Z.eqb_spec prev 0) as [Ep|Ep], (Z.eqb_spec next 0) as [En|En];
    cbn [negb andb]; unfold GET_ADDR; st; try reflexivity;
    rewrite ?PUT_other by lia; reflexivity.
Qed.

Lemma removeFromFreeList_kept (s : state) (bs : list block) (fl : list Z) (a x sz : Z) :
  wf s bs fl -> In a fl -> In (x, (sz, true)) (located (heap_listp s + 8) bs) ->
  kept (mem s) (mem (removeFromFreeList s a)) x sz.
Proof.
  intros W Ha Hin q Hq. apply (removeFromFreeList_mem s bs fl); try assumption.
  intros c Hc. pose proof (in_use_off_list _ _ _ _ _ _ _ W Hin Hc Hq). lia.
Qed.

(** [addToFreeList] writes into the link words of the block and into the
    first link word of the head of the list. *)
Lemma addToFreeList_mem (s : state) (bs : list block) (fl : list Z) (bp q : Z) :
  wf s bs fl ->
  q < bp \/ bp + 8 <= q ->
  (forall c, In c fl -> q < c \/ c + 8 <= q) ->
  mem (addToFreeList s bp) q = mem s q.
Proof.
  intros W Hbp Hq. unfold addToFreeList, WSIZE, GET_ADDR. st. rewrite (wf_head _ _ _ W).
  destruct fl as [|c r]; cbn [off_hd].
  - cbn [Z.eqb negb]. st. rewrite !PUT_other by lia. reflexivity.
  - destruct (wf_free_offset _ _ _ W c (or_introl eq_refl)) as (Hoff & _).
    replace (c - heap_listp s =? 0) with false by eqb_false.
    cbn [negb]. st. replace (heap_listp s + (c - heap_listp s)) with c by lia.
    specialize (Hq c (or_introl eq_refl)). rewrite !PUT_other by lia. reflexivity.
Qed.

Lemma addToFreeList_kept (s : state) (bs : list block) (fl : list Z) (bp szb x sz : Z) :
  wf s bs fl -> In (bp, (szb, false)) (located (heap_listp s + 8) bs) ->
  In (x, (sz, true)) (located (heap_listp s + 8) bs) ->
  kept (mem s) (mem (addToFreeList s bp)) x sz.
Proof.
  intros W Hbp Hin q Hq. apply (addToFreeList_mem s bs fl); try assumption.
  - destruct (wf_block _ _ _ W _ _ Hbp) as (_ & _ & ? & _). cbn [fst] in *.
    destruct (located_disjoint _ _ _ _ _ _ (wf_sized _ _ _ W) Hin Hbp) as [[_ E]|[?|?]];
      cbn [fst] in *; [discriminate | lia | lia].
  - intros c Hc. pose proof (in_use_off_list _ _ _ _ _ _ _ W Hin Hc Hq). lia.
Qed.

(** The two stores of a new tag change the header and the footer only. *)
Lemma retag_mem (s : state) (a T q : Z) (al : bool) :
  8 <= T < 2 ^ 32 -> T mod 8 = 0 ->
  q < a - 4 \/ a <= q < a + T - 8 \/ a + T - 4 <= q ->
  mem (put (put s (HDRP a) (PACK T (Z.b2z al)))
           (FTRP (mem (put s (HDRP a) (PACK T (Z.b2z al)))) a) (PACK T (Z.b2z al))) q
  = mem s q.
Proof.
  intros HT Hm Hq. destruct (retag (mem s) a T al HT Hm) as (HF & _). st. rewrite HF.
  unfold HDRP, WSIZE. rewrite !PUT_other by lia. reflexivity.
Qed.

(** ** The provider is not called *)

Lemma same_provider_refl (s : state) : same_provider s s.
Proof. now repeat split. Qed.

Lemma same_provider_trans (s1 s2 s3 : state) :
  same_provider s1 s2 -> same_provider s2 s3 -> same_provider s1 s3.
Proof.
  intros (A1 & A2 & A3 & A4 & A5) (B1 & B2 & B3 & B4 & B5).
  repeat split; congruence.
Qed.

Lemma put_provider (s : state) (q v : Z) : same_provider s (put s q v).
Proof. now repeat split. Qed.

Lemma set_freelist_provider (s : state) (f : Z) : same_provider s (set_freelist s f).
Proof. now repeat split. Qed.

Lemma removeFromFreeList_provider (s : state) (a : Z) :
  same_provider s (removeFromFreeList s a).
Proof.
  unfold removeFromFreeList.
  repeat match goal with |- context [if ?c then _ else _] => destruct c end;
    now repeat split.
Qed.

Lemma addToFreeList_provider (s : state) (a : Z) :
  same_provider s (addToFreeList s a).
Proof.
  unfold addToFreeList. cbv zeta.
  repeat match goal with |- context [if ?c then _ else _] => destruct c end;
    now repeat split.
Qed.

Ltac provider :=
  repeat first
    [ apply same_provider_refl
    | apply put_provider
    | apply removeFromFreeList_provider
    | apply addToFreeList_provider
    | eapply same_provider_trans; [|apply put_provider]
    | eapply same_provider_trans; [|apply removeFromFreeList_provider]
    | eapply same_provider_trans; [|apply addToFreeList_provider] ].

Lemma coalesce_provider (s : state) (a : Z) : same_provider s (fst (coalesce s a)).
Proof.
  unfold coalesce. cbv zeta.
  repeat match goal with |- context [if ?c then _ else _] => destruct c end;
    cbn [fst]; provider.
Qed.

Lemma place_provider (s : state) (bp asize : Z) : same_provider s (place s bp asize).
Proof.
  unfold place. cbv zeta.
  match goal with |- context [if ?c then _ else _] => destruct c end; provider.
Qed.

Lemma free_provider (s : state) (bp : Z) : same_provider s (free s bp).
Proof.
  unfold free. destruct (bp =? 0); [apply same_provider_refl|]. cbv zeta.
  match goal with |- context [coalesce ?st ?b] =>
    pose proof (coalesce_provider st b) as H; destruct (coalesce st b) as [s1 b1]
  end.
  cbn [fst] in H.
  eapply same_provider_trans; [|apply addToFreeList_provider].
  eapply same_provider_trans; [|exact H]. provider.
Qed.

(** ** Coalescing *)

(** A block of the new list is one of the new blocks or a block of the old
    list that lies outside of the stretch that was rewritten. *)
Lemma In_located_outside (a0 x : Z) (b : block) (l1 mid mid' l2 : list block) :
  Forall sized l1 -> Forall sized l2 -> total mid' = total mid ->
  In (x, b) (located a0 (l1 ++ mid' ++ l2)) ->
  In (x, b) (located (a0 + total l1) mid')
  \/ (In (x, b) (located a0 (l1 ++ mid ++ l2))
      /\ (x + fst b <= a0 + total l1 \/ a0 + total l1 + total mid <= x)).
Proof.
  intros H1 H2 Ht Hin. apply In_located_app3 in Hin.
  destruct Hin as [Hin|[Hin|Hin]]; [right | now left | right].
  - split; [rewrite located_app; apply in_or_app; now left|].
    pose proof (In_located_bounds _ _ _ _ H1 Hin). lia.
  - rewrite Ht in Hin. split.
    + rewrite !located_app. apply in_or_app. right. apply in_or_app. now right.
    + pose proof (In_located_bounds _ _ _ _ H2 Hin). lia.
Qed.

Lemma In_located_free (a0 x : Z) (b : block) (mid : list block) :
  Forall (fun c => snd c = false) mid -> In (x, b) (located a0 mid) -> snd b = false.
Proof.
  intros Hf Hin. destruct (In_located_split _ _ _ _ Hin) as (l & r & -> & _).
  apply Forall_app in Hf. destruct Hf as [_ Hf]. now inversion Hf.
Qed.

(** The free blocks [mid], which hold the block at [a], have become the one
    free block at [a0]; the free list lost the blocks of [mid] and nothing
    else. *)
Lemma coalesced_intro (s s3 : state) (l1 l2 L mid R : list block)
      (fl fl3 : list Z) (a a0 sz T : Z) :
  l1 ++ (sz, false) :: l2 = L ++ mid ++ R ->
  wf s (L ++ mid ++ R) fl ->
  wf s3 (L ++ (T, false) :: R) fl3 ->
  heap_listp s3 = heap_listp s ->
  a0 = heap_listp s + 8 + total L -> T = total mid ->
  Forall (fun c => snd c = false) mid ->
  In (a, (sz, false)) (located a0 mid) ->
  (forall c, In c fl3 -> forall b, ~ In (c, b) (located a0 mid)) ->
  (forall c, In c fl -> In c fl3 \/ exists b, In (c, b) (located a0 mid)) ->
  listed_but a (heap_listp s + 8) (L ++ mid ++ R) fl ->
  no_adjacent_free L -> no_adjacent_free R ->
  snd (last L (0, true)) = true -> snd (hd (0, true) R) = true ->
  (snd (last l1 (0, true)) = true -> a0 = a /\ L = l1) ->
  (forall x szx, In (x, (szx, true)) (located (heap_listp s + 8) (L ++ mid ++ R)) ->
                 kept (mem s) (mem s3) x szx) ->
  a0 = a - free_size (last l1 (0, true)) ->
  T = sz + free_size (last l1 (0, true)) + free_size (hd (0, true) l2) ->
  coalesced s l1 sz l2 a s3 a0.
Proof.
  intros E W W3 Hhl Ha0 HT Hfree Hin Hnot Hkeep Hlisted HnL HnR HL HR Hsame
         Hkept Hat HTsum.
  pose proof (wf_sized _ _ _ W) as Hs.
  apply Forall_app in Hs. destruct Hs as [Hs1 Hs]. apply Forall_app in Hs. destruct Hs as [Hsm Hs2].
  pose proof (In_located_bounds _ _ _ _ Hsm Hin) as Hbin. cbn [fst] in Hbin.
  pose proof (In_located_sized _ _ _ _ Hsm Hin) as [Hsz _]. cbn [fst] in Hsz.
  exists L, T, R, fl3. split; [exact W3|]. split; [exact Hhl|]. split; [exact Ha0|].
  assert (Hin0 : In (a0, (T, false)) (located (heap_listp s + 8) (L ++ (T, false) :: R)))
    by (rewrite Ha0; apply In_located_mid).
  split; [|split; [|split; [|split; [|split; [|split; [|split; [|split]]]]]]].
  - (* the merged block is off the list *)
    intros Hc. destruct (wf_free _ _ _ W3 _ Hc) as [sz' Hc']. rewrite Hhl in Hc'.
    change (L ++ (T, false) :: R) with (L ++ [(T, false)] ++ R) in Hc'.
    apply (In_located_outside _ _ _ _ mid) in Hc'; try assumption; [|cbn; lia].
    destruct Hc' as [Hc'|[Hc' Hpos]].
    + destruct mid as [|m0 mr]; [easy|]. cbn [located] in Hnot.
      destruct (wf_free _ _ _ W3 _ Hc) as [sz'' Hc''].
      eapply (Hnot a0 Hc m0). rewrite Ha0. now left.
    + cbn [fst] in Hpos.
      assert (16 <= sz') by (apply (In_located_sized _ _ _ _ (wf_sized _ _ _ W)) in Hc'; apply Hc').
      lia.
  - (* every other free block is on it *)
    intros x szx Hx Hne.
    change (L ++ (T, false) :: R) with (L ++ [(T, false)] ++ R) in Hx.
    apply (In_located_outside _ _ _ _ mid) in Hx; try assumption; [|cbn; lia].
    destruct Hx as [Hx|[Hx Hpos]].
    + cbn [located In] in Hx. destruct Hx as [Hx|[]]. inversion Hx. lia.
    + cbn [fst] in Hpos.
      assert (Hxa : x <> a) by (intros ->; apply (In_located_sized _ _ _ _ (wf_sized _ _ _ W)) in Hx; destruct Hx; cbn [fst] in *; lia).
      destruct (Hkeep x (Hlisted _ _ Hx Hxa)) as [?|[b Hb]]; [assumption|].
      exfalso. pose proof (In_located_bounds _ _ _ _ Hsm Hb).
      pose proof (In_located_sized _ _ _ _ Hsm Hb) as [? _].
      assert (16 <= szx) by (apply (In_located_sized _ _ _ _ (wf_sized _ _ _ W)) in Hx; apply Hx).
      lia.
  - (* no two free blocks in a row *)
    apply naf_app. split; [assumption|]. split; [|now left].
    apply naf_cons. split; [now right | assumption].
  - pose proof (total_nonneg _ Hsm). subst T.
    destruct (In_located_split _ _ _ _ Hin) as (ml & mr & Em & _). rewrite Em in *.
    apply Forall_app in Hsm. destruct Hsm as [Hml Hmr]. inversion Hmr; subst.
    pose proof (total_nonneg _ Hml). 
    match goal with H : Forall sized mr |- _ => pose proof (total_nonneg _ H) end.
    rewrite total_app. cbn [total fst]. lia.
  - (* the blocks in use are the same *)
    intros x b Hb Hx. rewrite E in Hx.
    change (L ++ (T, false) :: R) with (L ++ [(T, false)] ++ R).
    apply (located_replace _ _ _ _ mid); [cbn; lia | assumption |].
    intros Hmid. rewrite <- Ha0 in Hmid.
    apply (In_located_free _ _ _ _ Hfree) in Hmid. congruence.
  - exact Hsame.
  - (* and nothing else is in use; the payloads are as they were *)
    rewrite E. intros x szx _. split.
    + intros Hx.
      change (L ++ (T, false) :: R) with (L ++ [(T, false)] ++ R) in Hx.
      apply (located_replace _ _ _ _ [(T, false)]); [cbn; lia | assumption |].
      intros [Hc|[]]. discriminate.
    + intros Hx. split; [|now apply Hkept].
      change (L ++ (T, false) :: R) with (L ++ [(T, false)] ++ R).
      apply (located_replace _ _ _ _ mid); [cbn; lia | assumption |].
      intros Hmid. rewrite <- Ha0 in Hmid.
      apply (In_located_free _ _ _ _ Hfree) in Hmid. discriminate.
  - exact Hat.
  - exact HTsum.
Qed.

Lemma coalesce_spec (s : state) (l1 l2 : list block) (sz : Z) (fl : list Z) (a : Z) :
  wf s (l1 ++ (sz, false) :: l2) fl ->
  a = heap_listp s + 8 + total l1 ->
  ~ In a fl ->
  listed_but a (heap_listp s + 8) (l1 ++ (sz, false) :: l2) fl ->
  no_adjacent_free l1 -> no_adjacent_free l2 ->
  coalesced s l1 sz l2 a (fst (coalesce s a)) (snd (coalesce s a)).
Proof.
  intros W Ha Hnot Hlisted Hn1 Hn2.
  destruct (wf_prev _ _ _ _ _ _ W Ha) as (pb & Hplast & Hpf & Hph & Hpm & Hps & Hpfree).
  destruct (wf_next _ _ _ _ _ _ W Ha) as (nb & Hnhd & Hnh & Hnm & Hnfree).
  pose proof (wf_here _ _ l2 (sz, false) _ Ha) as Hin.
  destruct (wf_block _ _ _ W _ _ Hin) as (Hh & Hf & Hsz & Hm & _ & _). cbn [fst] in *.
  pose proof (wf_total_bound _ _ _ W) as Hbound.
  unfold coalesce. cbv zeta.
  rewrite (PREV_BLKP_tagged _ _ pb Hpf Hpm).
  rewrite (FTRP_tagged (mem s) (a - fst pb) pb Hph Hpm).
  replace (a - fst pb + fst pb - 8) with (a - 8) by lia.
  rewrite (proj2 (tag_fields _ _ _ Hpm Hpf)).
  rewrite (NEXT_BLKP_tagged _ _ (sz, false) Hh Hm). cbn [fst].
  rewrite (GET_ALLOC_HDRP _ (a + sz) nb Hnh Hnm).
  rewrite (GET_SIZE_HDRP _ a (sz, false) Hh Hm). cbn [fst].
  destruct pb as [psz [|]], nb as [nsz [|]]; cbn [Z.b2z snd fst Z.eqb negb andb] in *.
  - (* both neighbours in use *)
    cbn [fst snd].
    apply (coalesced_intro s s l1 l2 l1 [(sz, false)] l2 fl fl a a sz sz);
      try assumption; try reflexivity.
    + cbn; lia.
    + now constructor.
    + cbn [located]. now left.
    + intros c Hc b [Hb|[]]. injection Hb as <- <-. contradiction.
    + intros c Hc. now left.
    + now rewrite Hnhd.
    + now split.
    + intros x szx _ q _. reflexivity.
    + unfold free_size. rewrite Hplast. lia.
    + unfold free_size. rewrite Hplast, Hnhd. cbn [snd]. lia.
  - (* the next block is free *)
    destruct Hnfree as (l2' & El2 & Hnsz & Hnf); [reflexivity|]. subst l2.
    assert (Hin2 : In (a + sz, (nsz, false))
                      (located (heap_listp s + 8) (l1 ++ (sz, false) :: (nsz, false) :: l2'))).
    { replace (a + sz) with (heap_listp s + 8 + total (l1 ++ [(sz, false)]))
        by (rewrite total_app; cbn; lia).
      change (l1 ++ (sz, false) :: (nsz, false) :: l2')
        with (l1 ++ [(sz, false)] ++ (nsz, false) :: l2').
      rewrite app_assoc. apply In_located_mid. }
    assert (Hfl2 : In (a + sz) fl) by (apply (Hlisted _ _ Hin2); lia).
    destruct (removeFromFreeList_spec _ _ _ _ W Hfl2) as (fl1 & W1 & Hhl1 & Hmem1).
    set (s1 := removeFromFreeList s (a + sz)) in *.
    assert (Ha1 : a = heap_listp s1 + 8 + total l1) by (rewrite Hhl1; exact Ha).
    pose proof (wf_here s1 l1 ((nsz, false) :: l2') (sz, false) a Ha1) as Hin1.
    destruct (wf_block _ _ _ W1 _ _ Hin1) as (Hh1 & _). cbn [fst] in *.
    destruct (wf_next _ _ _ _ _ _ W1 Ha1) as (nb1 & Hnhd1 & Hnh1 & Hnm1 & _).
    cbn [hd fst] in *. subst nb1.
    rewrite (NEXT_BLKP_tagged _ _ (sz, false) Hh1 Hm). cbn [fst].
    rewrite (GET_SIZE_HDRP _ (a + sz) (nsz, false) Hnh1 Hnm). cbn [fst].
    rewrite total_app in Hbound. cbn [total fst] in Hbound.
    pose proof (total_nonneg _ (proj1 (proj1 (Forall_app _ _ _) (wf_sized _ _ _ W)))).
    assert (Hl2' : 0 <= total l2').
    { pose proof (wf_sized _ _ _ W) as Hs. apply Forall_app in Hs. destruct Hs as [_ Hs].
      apply Forall_inv_tail, Forall_inv_tail in Hs. now apply total_nonneg. }
    rewrite wrap64_small by lia. cbn [fst snd].
    assert (W3 := retag_wf s1 l1 [(sz, false); (nsz, false)] l2' fl1 a (sz + nsz) false
                    W1 Ha1).
    cbn [Z.b2z] in W3.
    apply (coalesced_intro s _ l1 ((nsz, false) :: l2') l1 [(sz, false); (nsz, false)] l2'
             fl fl1 a a sz (sz + nsz)); try assumption; try reflexivity.
    + apply W3; [cbn; lia | discriminate |].
      intros c b Hc [Hb|[Hb|[]]]; injection Hb as <- <-.
      * apply Hnot. now apply Hmem1.
      * now apply (Hmem1 (a + sz)) in Hc.
    + cbn; lia.
    + repeat constructor.
    + cbn [located]. now left.
    + intros c Hc b [Hb|[Hb|[]]]; injection Hb as <- <-.
      * apply Hnot. now apply Hmem1.
      * now apply (Hmem1 (a + sz)) in Hc.
    + intros c Hc. destruct (Z.eq_dec c (a + sz)) as [->|Hne].
      * right. exists (nsz, false). cbn [located fst]. right. now left.
      * left. now apply Hmem1.
    + apply naf_cons in Hn2. apply Hn2.
    + apply naf_cons in Hn2. destruct Hn2 as [[?|?] _]; [discriminate | assumption].
    + now split.
    + intros x szx Hx q Hq.
      pose proof (outside_free _ _ _ _ _ _ _ _ W Hx Hin Hq).
      pose proof (outside_free _ _ _ _ _ _ _ _ W Hx Hin2 Hq).
      etransitivity;
        [apply (retag_mem s1 a (sz + nsz) q false);
         [lia | Z.div_mod_to_equations; lia | lia] |].
      apply (removeFromFreeList_kept s _ fl (a + sz) x szx W Hfl2 Hx). exact Hq.
    + unfold free_size. rewrite Hplast. lia.
    + unfold free_size. rewrite Hplast. cbn [hd fst snd]. lia.
  - (* the previous block is free *)
    destruct Hpfree as (l1' & El1 & Hpsz & Ha0); [reflexivity|]. subst l1.
    rewrite <- app_assoc in W, Hlisted, Hin. cbn [app] in W, Hlisted, Hin.
    assert (Hin0 : In (a - psz, (psz, false))
                      (located (heap_listp s + 8) (l1' ++ (psz, false) :: (sz, false) :: l2)))
      by (rewrite Ha0; apply In_located_mid).
    assert (Hfl0 : In (a - psz) fl) by (apply (Hlisted _ _ Hin0); lia).
    destruct (removeFromFreeList_spec _ _ _ _ W Hfl0) as (fl1 & W1 & Hhl1 & Hmem1).
    set (s1 := removeFromFreeList s (a - psz)) in *.
    assert (Ha1 : a - psz = heap_listp s1 + 8 + total l1') by (rewrite Hhl1; exact Ha0).
    pose proof (wf_here s1 l1' ((sz, false) :: l2) (psz, false) (a - psz) Ha1) as Hin1.
    destruct (wf_block _ _ _ W1 _ _ Hin1) as (Hh1 & _). cbn [fst] in *.
    rewrite (GET_SIZE_HDRP _ (a - psz) (psz, false) Hh1 Hpm). cbn [fst].
    rewrite total_app in Hbound. cbn [total fst] in Hbound.
    pose proof (wf_sized _ _ _ W) as Hs. apply Forall_app in Hs. destruct Hs as [Hs1 Hs].
    apply Forall_inv_tail, Forall_inv_tail in Hs.
    pose proof (total_nonneg _ Hs1). pose proof (total_nonneg _ Hs).
    rewrite wrap64_small by lia. cbn [fst snd].
    assert (W3 := retag_wf s1 l1' [(psz, false); (sz, false)] l2 fl1 (a - psz) (sz + psz) false
                    W1 Ha1).
    cbn [Z.b2z] in W3.
    apply (coalesced_intro s _ (l1' ++ [(psz, false)]) l2 l1' [(psz, false); (sz, false)] l2
             fl fl1 a (a - psz) sz (sz + psz)); try assumption; try reflexivity.
    + now rewrite <- app_assoc.
    + apply W3; [cbn; lia | discriminate |].
      intros c b Hc [Hb|[Hb|[]]]; injection Hb as <- <-.
      * now apply (Hmem1 (a - psz)) in Hc.
      * apply Hnot. apply Hmem1. now replace a with (a - psz + psz) by lia.
    + cbn; lia.
    + repeat constructor.
    + cbn [located fst]. right. left. f_equal. lia.
    + intros c Hc b [Hb|[Hb|[]]]; injection Hb as <- <-.
      * now apply (Hmem1 (a - psz)) in Hc.
      * apply Hnot. apply Hmem1. now replace a with (a - psz + psz) by lia.
    + intros c Hc. destruct (Z.eq_dec c (a - psz)) as [->|Hne].
      * right. exists (psz, false). cbn [located fst]. now left.
      * left. now apply Hmem1.
    + apply naf_app in Hn1. apply Hn1.
    + apply naf_app in Hn1. destruct Hn1 as (_ & _ & [?|?]); [assumption | discriminate].
    + rewrite Hnhd. reflexivity.
    + rewrite last_snoc. cbn. discriminate.
    + intros x szx Hx q Hq.
      pose proof (outside_free _ _ _ _ _ _ _ _ W Hx Hin Hq).
      pose proof (outside_free _ _ _ _ _ _ _ _ W Hx Hin0 Hq).
      etransitivity;
        [apply (retag_mem s1 (a - psz) (sz + psz) q false);
         [lia | Z.div_mod_to_equations; lia | lia] |].
      apply (removeFromFreeList_kept s _ fl (a - psz) x szx W Hfl0 Hx). exact Hq.
    + unfold free_size. rewrite last_snoc. cbn [fst snd]. lia.
    + unfold free_size. rewrite last_snoc, Hnhd. cbn [fst snd]. lia.
  - (* both neighbours are free *)
    destruct Hpfree as (l1' & El1 & Hpsz & Ha0); [reflexivity|]. subst l1.
    destruct Hnfree as (l2' & El2 & Hnsz & Hnf); [reflexivity|]. subst l2.
    rewrite <- app_assoc in W, Hlisted, Hin. cbn [app] in W, Hlisted, Hin.
    assert (Hin0 : In (a - psz, (psz, false))
                      (located (heap_listp s + 8)
                         (l1' ++ (psz, false) :: (sz, false) :: (nsz, false) :: l2')))
      by (rewrite Ha0; apply In_located_mid).
    assert (Hin2 : In (a + sz, (nsz, false))
                      (located (heap_listp s + 8)
                         (l1' ++ (psz, false) :: (sz, false) :: (nsz, false) :: l2'))).
    { replace (a + sz)
        with (heap_listp s + 8 + total (l1' ++ [(psz, false); (sz, false)]))
        by (rewrite total_app; cbn; lia).
      change (l1' ++ (psz, false) :: (sz, false) :: (nsz, false) :: l2')
        with (l1' ++ [(psz, false); (sz, false)] ++ (nsz, false) :: l2').
      rewrite app_assoc. apply In_located_mid. }
    assert (Hfl0 : In (a - psz) fl) by (apply (Hlisted _ _ Hin0); lia).
    assert (Hfl2 : In (a + sz) fl) by (apply (Hlisted _ _ Hin2); lia).
    rewrite (GET_SIZE_HDRP _ (a - psz) (psz, false) Hph Hpm). cbn [fst].
    rewrite (FTRP_tagged _ (a + sz) (nsz, false) Hnh Hnm). cbn [fst].
    rewrite (proj1 (tag_fields (mem s) (a + sz + nsz - 8) (nsz, false) Hnm Hnf)). cbn [fst].
    destruct (removeFromFreeList_spec _ _ _ _ W Hfl2) as (fl1 & W1 & Hhl1 & Hmem1).
    set (s1 := removeFromFreeList s (a + sz)) in *.
    assert (Ha1 : a = heap_listp s1 + 8 + total (l1' ++ [(psz, false)]))
      by (rewrite Hhl1, total_app; cbn; lia).
    assert (W1' : wf s1 ((l1' ++ [(psz, false)]) ++ (sz, false) :: (nsz, false) :: l2') fl1)
      by (rewrite <- app_assoc; exact W1).
    destruct (wf_prev _ _ _ _ _ _ W1' Ha1) as (pb1 & Hplast1 & Hpf1 & _).
    rewrite last_snoc in Hplast1. 
    assert (Hin01 : In (a - psz, (psz, false)) (located (heap_listp s1 + 8)
                         (l1' ++ (psz, false) :: (sz, false) :: (nsz, false) :: l2')))
      by (rewrite Hhl1; exact Hin0).
    destruct (wf_block _ _ _ W1 _ _ Hin01) as (_ & Hpf1' & _). cbn [fst] in Hpf1'.
    replace (a - psz + psz - 8) with (a - 8) in Hpf1' by lia.
    rewrite (PREV_BLKP_tagged _ _ (psz, false) Hpf1' Hpm). cbn [fst].
    assert (Hfl01 : In (a - psz) fl1) by (apply Hmem1; split; [assumption | lia]).
    destruct (removeFromFreeList_spec _ _ _ _ W1 Hfl01) as (fl2 & W2 & Hhl2 & Hmem2).
    set (s2 := removeFromFreeList s1 (a - psz)) in *.
    assert (Ha2 : a - psz = heap_listp s2 + 8 + total l1') by (rewrite Hhl2, Hhl1; exact Ha0).
    rewrite total_app in Hbound. cbn [total fst] in Hbound.
    pose proof (wf_sized _ _ _ W) as Hs. apply Forall_app in Hs. destruct Hs as [Hs1 Hs].
    apply Forall_inv_tail, Forall_inv_tail, Forall_inv_tail in Hs.
    pose proof (total_nonneg _ Hs1). pose proof (total_nonneg _ Hs).
    rewrite (wrap32_small (psz + nsz)) by lia.
    rewrite wrap64_small by lia. cbn [fst snd].
    assert (W3 := retag_wf s2 l1' [(psz, false); (sz, false); (nsz, false)] l2' fl2
                    (a - psz) (sz + (psz + nsz)) false W2 Ha2).
    cbn [Z.b2z] in W3.
    assert (Hoff : forall c b, In c fl2 ->
              ~ In (c, b) (located (a - psz) [(psz, false); (sz, false); (nsz, false)])).
    { intros c b Hc [Hb|[Hb|[Hb|[]]]]; injection Hb as <- <-.
      - now apply (Hmem2 (a - psz)) in Hc.
      - apply Hnot. apply Hmem1, Hmem2. now replace a with (a - psz + psz) by lia.
      - apply Hmem2 in Hc. destruct Hc as [Hc _]. apply Hmem1 in Hc.
        destruct Hc as [_ Hc]. apply Hc. lia. }
    apply (coalesced_intro s _ (l1' ++ [(psz, false)]) ((nsz, false) :: l2') l1'
             [(psz, false); (sz, false); (nsz, false)] l2'
             fl fl2 a (a - psz) sz (sz + (psz + nsz))); try assumption; try reflexivity.
    + now rewrite <- app_assoc.
    + apply W3; [cbn; lia | discriminate | exact Hoff].
    + transitivity (heap_listp s2); [reflexivity|]. rewrite Hhl2. exact Hhl1.
    + cbn; lia.
    + repeat constructor.
    + cbn [located fst]. right. left. f_equal. lia.
    + intros c Hc b. now apply Hoff.
    + intros c Hc. destruct (Z.eq_dec c (a - psz)) as [->|Hne].
      * right. exists (psz, false). cbn [located fst]. now left.
      * destruct (Z.eq_dec c (a + sz)) as [->|Hne2].
        -- right. exists (nsz, false). cbn [located fst]. right. right. left. f_equal. lia.
        -- left. apply Hmem2. split; [|assumption]. now apply Hmem1.
    + apply naf_app in Hn1. apply Hn1.
    + apply naf_cons in Hn2. apply Hn2.
    + apply naf_app in Hn1. destruct Hn1 as (_ & _ & [?|?]); [assumption | discriminate].
    + apply naf_cons in Hn2. destruct Hn2 as [[?|?] _]; [discriminate | assumption].
    + rewrite last_snoc. cbn. discriminate.
    + intros x szx Hx q Hq.
      pose proof (outside_free _ _ _ _ _ _ _ _ W Hx Hin Hq).
      pose proof (outside_free _ _ _ _ _ _ _ _ W Hx Hin0 Hq).
      pose proof (outside_free _ _ _ _ _ _ _ _ W Hx Hin2 Hq).
      etransitivity;
        [apply (retag_mem s2 (a - psz) (sz + (psz + nsz)) q false);
         [lia | Z.div_mod_to_equations; lia | lia] |].
      etransitivity;
        [apply (removeFromFreeList_kept s1 _ fl1 (a - psz) x szx W1 Hfl01);
         [rewrite Hhl1; exact Hx | exact Hq] |].
      apply (removeFromFreeList_kept s _ fl (a + sz) x szx W Hfl2 Hx). exact Hq.
    + unfold free_size. rewrite last_snoc. cbn [fst snd]. lia.
    + unfold free_size. rewrite last_snoc. cbn [hd fst snd]. lia.
Qed.

(** ** [free] *)

Lemma listed_split (a0 : Z) (l1 l2 : list block) (b : block) (fl : list Z) :
  listed a0 (l1 ++ b :: l2) fl ->
  listed_but (a0 + total l1) a0 (l1 ++ (fst b, false) :: l2) fl.
Proof.
  intros H x sz Hx Hne.
  change (l1 ++ (fst b, false) :: l2) with (l1 ++ [(fst b, false)] ++ l2) in Hx.
  apply (H x sz).
  change (l1 ++ b :: l2) with (l1 ++ [b] ++ l2).
  apply (located_replace _ _ _ _ [(fst b, false)]); [reflexivity | assumption |].
  cbn [located In]. intros [E|[]]. injection E as E _. lia.
Qed.

Lemma listed_of_but (x a0 : Z) (bs : list block) (fl : list Z) :
  listed_but x a0 bs fl -> listed a0 bs (x :: fl).
Proof.
  intros H a sz Ha. destruct (Z.eq_dec x a) as [->|Hne]; [now left | right].
  apply (H a sz Ha). congruence.
Qed.

(** A live block is not on the free list. *)
Lemma wf_live_unlisted (s : state) (bs : list block) (fl : list Z) (bp sz : Z) :
  wf s bs fl -> In (bp, (sz, true)) (located (heap_listp s + 8) bs) -> ~ In bp fl.
Proof.
  intros W Hin Hfl. destruct (wf_free _ _ _ W _ Hfl) as [sz' Hin'].
  pose proof (located_inj _ _ _ _ _ (wf_sized _ _ _ W) Hin Hin'). discriminate.
Qed.

Lemma free_size_nonneg (l : list block) (b : block) :
  Forall sized l -> In b ((0, true) :: l) -> 0 <= free_size b.
Proof.
  intros Hs [<-|Hb]; [cbn; lia|]. rewrite Forall_forall in Hs.
  destruct (Hs b Hb) as [? _]. unfold free_size. destruct (snd b); lia.
Qed.

Lemma free_size_last (l : list block) : Forall sized l -> 0 <= free_size (last l (0, true)).
Proof.
  intros Hs. apply (free_size_nonneg l); [assumption|].
  destruct (list_end l) as [->|(l' & x & ->)]; [now left | right].
  rewrite last_snoc. apply in_or_app. right. now left.
Qed.

Lemma free_size_hd (l : list block) : Forall sized l -> 0 <= free_size (hd (0, true) l).
Proof.
  intros Hs. apply (free_size_nonneg l); [assumption|].
  destruct l; [now left | right; now left].
Qed.

(** What [free] achieves on the block in use of size [sz] at [bp], between
    the blocks [l1] and [l2]: the state is well formed again; the block has
    become, with its free neighbours, the free block at [bp'], which is the
    head of the free list; the other blocks in use, and what they hold, are
    as they were. *)
Lemma free_exact (s : state) (l1 l2 : list block) (fl : list Z) (bp sz : Z) :
  wf s (l1 ++ (sz, true) :: l2) fl ->
  listed (heap_listp s + 8) (l1 ++ (sz, true) :: l2) fl ->
  no_adjacent_free (l1 ++ (sz, true) :: l2) ->
  bp = heap_listp s + 8 + total l1 ->
  exists l1' l2' fl' bp' sz',
    wf (free s bp) (l1' ++ (sz', false) :: l2') (bp' :: fl')
    /\ listed (heap_listp s + 8) (l1' ++ (sz', false) :: l2') (bp' :: fl')
    /\ no_adjacent_free (l1' ++ (sz', false) :: l2')
    /\ heap_listp (free s bp) = heap_listp s
    /\ same_but (fun x => x = bp) s (l1 ++ (sz, true) :: l2)
                (free s bp) (l1' ++ (sz', false) :: l2')
    /\ bp' = heap_listp s + 8 + total l1'
    /\ bp' = bp - free_size (last l1 (0, true))
    /\ sz' = sz + free_size (last l1 (0, true)) + free_size (hd (0, true) l2).
Proof.
  intros W Hlisted Hnaf Ha.
  pose proof (wf_here s l1 l2 (sz, true) bp Ha) as Hin.
  destruct (wf_block _ _ _ W _ _ Hin) as (Hh & Hf & Hsz & Hm & Hlo & _). cbn [fst] in *.
  pose proof (wf_live_unlisted _ _ _ _ _ W Hin) as Hnot.
  destruct (wf_lo _ _ _ W) as [? ?].
  pose proof (wf_total_bound _ _ _ W) as Hbd. rewrite total_app in Hbd.
  cbn [total fst] in Hbd.
  pose proof (wf_sized _ _ _ W) as Hs.
  assert (Hs' := Hs). apply Forall_app in Hs'. destruct Hs' as [Hs1 Hs2].
  apply Forall_inv_tail in Hs2.
  pose proof (total_nonneg _ Hs1). pose proof (total_nonneg _ Hs2).
  unfold free. replace (bp =? 0) with false by eqb_false.
  rewrite (GET_SIZE_HDRP _ bp (sz, true) Hh Hm). cbn [fst].
  assert (W2 := retag_wf s l1 [(sz, true)] l2 fl bp sz false W Ha).
  cbn [Z.b2z] in W2.
  set (s2 := put (put s (HDRP bp) (PACK sz 0))
                 (FTRP (mem (put s (HDRP bp) (PACK sz 0))) bp) (PACK sz 0)) in *.
  assert (W2' : wf s2 (l1 ++ (sz, false) :: l2) fl).
  { apply W2; [cbn; lia | discriminate |].
    intros c b Hc [Hb|[]]. injection Hb as <- <-. contradiction. }
  clear W2.
  assert (Hhl2 : heap_listp s2 = heap_listp s) by reflexivity.
  assert (Hin2 : In (bp, (sz, false)) (located (heap_listp s2 + 8) (l1 ++ (sz, false) :: l2)))
    by (rewrite Hhl2, Ha; apply In_located_mid).
  assert (W3 : wf (put s2 bp 0) (l1 ++ (sz, false) :: l2) fl)
    by (apply (wf_put_unlisted _ _ _ bp (sz, false)); try assumption; cbn [fst]; lia).
  assert (W4 : wf (put (put s2 bp 0) (bp + WSIZE) 0) (l1 ++ (sz, false) :: l2) fl)
    by (apply (wf_put_unlisted _ _ _ bp (sz, false)); try assumption; unfold WSIZE; cbn [fst]; lia).
  set (s4 := put (put s2 bp 0) (bp + WSIZE) 0) in *.
  assert (Hhl4 : heap_listp s4 = heap_listp s) by reflexivity.
  assert (Hsame4 : same_but (fun x => x = bp) s (l1 ++ [(sz, true)] ++ l2)
                            s4 (l1 ++ [(sz, false)] ++ l2)).
  { apply (same_but_region _ s s4 l1 [(sz, true)] [(sz, false)] l2 bp);
      try assumption; try reflexivity.
    - intros q Hq. cbn [total fst] in Hq. subst s4. st. unfold WSIZE.
      rewrite !PUT_other by lia.
      apply (retag_mem s bp sz q false); [lia | assumption | lia].
    - intros x sz0 [Hx|[]]. now injection Hx as <- _.
    - intros x sz0 [Hx|[]]. discriminate. }
  apply naf_app in Hnaf. destruct Hnaf as (Hn1 & Hn2 & _). apply naf_cons in Hn2.
  assert (Hc : coalesced s4 l1 sz l2 bp (fst (coalesce s4 bp)) (snd (coalesce s4 bp))).
  { apply (coalesce_spec s4 l1 l2 sz fl bp); try assumption; [ | apply Hn2].
    rewrite Hhl4, Ha. now apply (listed_split _ _ _ (sz, true)). }
  destruct (coalesce s4 bp) as [s5 bp'] eqn:Ec. cbn [fst snd] in Hc.
  destruct Hc as (l1' & sz' & l2' & fl' & W5 & Hhl5 & Ha' & Hnot' & Hlisted' & Hnaf' & _ & _
                  & _ & Hsame5 & Hat & Hsum).
  rewrite Hhl4 in *.
  assert (Hin5 : In (bp', (sz', false)) (located (heap_listp s5 + 8) (l1' ++ (sz', false) :: l2')))
    by (rewrite Hhl5, Ha'; apply In_located_mid).
  destruct (addToFreeList_wf _ _ _ _ _ W5 Hin5 Hnot') as [W6 Hhl6].
  exists l1', l2', fl', bp', sz'.
  split; [exact W6|]. split; [now apply listed_of_but|]. split; [exact Hnaf'|].
  split; [now rewrite Hhl6|].
  split; [|now repeat split].
  apply (same_but_weaken (fun x => (x = bp \/ False) \/ False)); [tauto|].
  apply (same_but_trans _ _ s s5 _ _ (l1' ++ (sz', false) :: l2')); [exact Hhl5| |].
  - apply (same_but_trans _ _ s s4 _ _ (l1 ++ (sz, false) :: l2));
      [exact Hhl4 | exact Hsame4 | exact Hsame5].
  - apply same_but_mem. intros x sz0 _ Hx.
    apply (addToFreeList_kept s5 _ fl' bp' sz' x sz0 W5 Hin5 Hx).
Qed.

Lemma free_spec (s : state) (bs : list block) (fl : list Z) (bp sz : Z) :
  wf s bs fl -> listed (heap_listp s + 8) bs fl -> no_adjacent_free bs ->
  In (bp, (sz, true)) (located (heap_listp s + 8) bs) ->
  exists bs' fl',
    wf (free s bp) bs' fl'
    /\ listed (heap_listp s + 8) bs' fl'
    /\ no_adjacent_free bs'
    /\ heap_listp (free s bp) = heap_listp s
    /\ (forall x b, snd b = true -> x <> bp ->
        In (x, b) (located (heap_listp s + 8) bs) ->
        In (x, b) (located (heap_listp s + 8) bs')).
Proof.
  intros W Hlisted Hnaf Hin.
  destruct (In_located_split _ _ _ _ Hin) as (l1 & l2 & E & Ha). subst bs.
  destruct (free_exact s l1 l2 fl bp sz W Hlisted Hnaf Ha)
    as (l1' & l2' & fl' & bp' & sz' & W' & Hl' & Hn' & Hhl & Hsame & _).
  exists (l1' ++ (sz', false) :: l2'), (bp' :: fl').
  split; [exact W'|]. split; [exact Hl'|]. split; [exact Hn'|]. split; [exact Hhl|].
  intros x [szx al] Hal Hne Hx. cbn [snd] in Hal. subst al.
  now apply (Hsame x szx Hne).
Qed.

(** ** Splitting a block in two *)

Lemma listed_replace (a0 : Z) (l1 mid mid' l2 : list block) (fl fl' : list Z) :
  Forall sized (l1 ++ mid ++ l2) -> total mid' = total mid ->
  listed a0 (l1 ++ mid ++ l2) fl ->
  (forall c, In c fl -> In c fl' \/ exists b, In (c, b) (located (a0 + total l1) mid)) ->
  (forall x sz, In (x, (sz, false)) (located (a0 + total l1) mid') -> In x fl') ->
  listed a0 (l1 ++ mid' ++ l2) fl'.
Proof.
  intros Hs Ht Hl Hkeep Hnew x sz Hx.
  apply Forall_app in Hs. destruct Hs as [Hs1 Hs]. apply Forall_app in Hs. destruct Hs as [Hsm Hs2].
  apply (In_located_outside _ _ _ _ mid) in Hx; try assumption.
  destruct Hx as [Hx|[Hx Hpos]]; [now apply (Hnew x sz)|].
  destruct (Hkeep x (Hl _ _ Hx)) as [?|[b Hb]]; [assumption | exfalso].
  pose proof (In_located_bounds _ _ _ _ Hsm Hb).
  pose proof (In_located_sized _ _ _ _ Hsm Hb) as [? _].
  assert (Hsx : sized (sz, false)).
  { apply In_located_app3 in Hx. destruct Hx as [Hx|[Hx|Hx]];
      [exact (In_located_sized _ _ _ _ Hs1 Hx) | exact (In_located_sized _ _ _ _ Hsm Hx)
       | exact (In_located_sized _ _ _ _ Hs2 Hx)]. }
  destruct Hsx as [? _]. cbn [fst] in *. lia.
Qed.

(** The four stores that cut the block at [a], of size [c], into a block in
    use of size [asize] and a free block with the rest. *)
Lemma split_wf (s s4 : state) (l1 l2 : list block) (c : Z) (al : bool)
      (fl : list Z) (a asize : Z) :
  wf s (l1 ++ (c, al) :: l2) fl ->
  a = heap_listp s + 8 + total l1 -> ~ In a fl ->
  16 <= asize -> asize mod 8 = 0 -> 16 <= c - asize ->
  mem s4 = PUT (PUT (PUT (PUT (mem s) (HDRP a) (PACK asize 1))
                         (a + asize - 8) (PACK asize 1))
                    (HDRP (a + asize)) (PACK (c - asize) 0))
               (a + asize + (c - asize) - 8) (PACK (c - asize) 0) ->
  mem_lo s4 = mem_lo s -> mem_brk s4 = mem_brk s -> mem_max s4 = mem_max s ->
  heap_listp s4 = heap_listp s -> freelist s4 = freelist s ->
  wf s4 (l1 ++ (asize, true) :: (c - asize, false) :: l2) fl.
Proof.
  intros W Ha Hnot Has Ham Hrem Em E1 E2 E3 E4 E5.
  pose proof (wf_here s l1 l2 (c, al) a Ha) as Hin.
  destruct (wf_block _ _ _ W _ _ Hin) as (_ & _ & Hc & Hcm & _). cbn [fst] in *.
  pose proof (wf_total_bound _ _ _ W) as Hb. rewrite total_app in Hb. cbn [total fst] in Hb.
  pose proof (wf_sized _ _ _ W) as Hs. apply Forall_app in Hs. destruct Hs as [Hs1 Hs].
  apply Forall_inv_tail in Hs.
  pose proof (total_nonneg _ Hs1). pose proof (total_nonneg _ Hs).
  assert (Hrm : (c - asize) mod 8 = 0) by (Z.div_mod_to_equations; lia).
  destruct (retag (mem s) a asize true) as (_ & Ht1 & Hf1); [lia | assumption |].
  cbn [Z.b2z] in *.
  set (m2 := PUT (PUT (mem s) (HDRP a) (PACK asize 1)) (a + asize - 8) (PACK asize 1)) in *.
  destruct (retag m2 (a + asize) (c - asize) false) as (_ & Ht2 & Hf2); [lia | assumption |].
  cbn [Z.b2z] in *. rewrite <- Em in *.
  change (l1 ++ (asize, true) :: (c - asize, false) :: l2)
    with (l1 ++ [(asize, true); (c - asize, false)] ++ l2).
  apply (wf_region s _ l1 [(c, al)] _ l2 fl); try assumption.
  - cbn [total fst]. lia.
  - repeat constructor; cbn [fst]; assumption.
  - intros q Hq. cbn [total fst] in Hq. rewrite Hf2, Hf1 by lia. reflexivity.
  - cbn [located fst]. rewrite <- Ha. constructor; [|constructor; [assumption | constructor]].
    destruct Ht1 as [Ht1 Ht1']. cbn [fst snd] in *.
    split; cbn [fst snd]; rewrite Hf2 by lia; assumption.
  - intros x b Hx [Hxb|[]]. injection Hxb as <- <-. rewrite <- Ha in Hx. contradiction.
Qed.

(** ** [place] *)

(** What [place] achieves on the free block of size [c] at [bp], which is
    on the list: the block is in use, with [asize] bytes when the rest makes
    a block of its own, which is then free and on the list, and with all of
    its [c] bytes otherwise; the other blocks in use, and what they hold,
    are as they were. *)
Lemma place_exact (s : state) (bs : list block) (fl : list Z) (bp c asize : Z) :
  wf s bs fl -> listed (heap_listp s + 8) bs fl -> no_adjacent_free bs ->
  In bp fl -> In (bp, (c, false)) (located (heap_listp s + 8) bs) ->
  16 <= asize <= c -> asize mod 8 = 0 ->
  exists bs' fl' sz',
    wf (place s bp asize) bs' fl'
    /\ listed (heap_listp s + 8) bs' fl'
    /\ no_adjacent_free bs'
    /\ heap_listp (place s bp asize) = heap_listp s
    /\ In (bp, (sz', true)) (located (heap_listp s + 8) bs')
    /\ asize <= sz'
    /\ (forall x b, snd b = true ->
        In (x, b) (located (heap_listp s + 8) bs) ->
        In (x, b) (located (heap_listp s + 8) bs'))
    /\ sz' = (if c - asize >=? 16 then asize else c)
    /\ (16 <= c - asize ->
        In (bp + asize, (c - asize, false)) (located (heap_listp s + 8) bs')
        /\ hd 0 fl' = bp + asize)
    /\ same_but (fun x => x = bp) s bs (place s bp asize) bs'.
Proof.
  intros W Hlisted Hnaf Hfl Hin Has Ham.
  destruct (In_located_split _ _ _ _ Hin) as (l1 & l2 & E & Ha). subst bs.
  destruct (wf_block _ _ _ W _ _ Hin) as (Hh & Hf & Hsz & Hm & Hlo & _). cbn [fst] in *.
  pose proof (wf_total_bound _ _ _ W) as Hbd. rewrite total_app in Hbd. cbn [total fst] in Hbd.
  pose proof (wf_sized _ _ _ W) as Hs.
  assert (Hs' := Hs). apply Forall_app in Hs'. destruct Hs' as [Hs1 Hs2].
  apply Forall_inv_tail in Hs2.
  pose proof (total_nonneg _ Hs1). pose proof (total_nonneg _ Hs2).
  destruct (removeFromFreeList_spec _ _ _ _ W Hfl) as (fl1 & W1 & Hhl1 & Hmem1).
  unfold place. cbv zeta.
  rewrite (GET_SIZE_HDRP _ bp (c, false) Hh Hm). cbn [fst].
  set (s1 := removeFromFreeList s bp) in *.
  assert (Ha1 : bp = heap_listp s1 + 8 + total l1) by (rewrite Hhl1; exact Ha).
  assert (Hnot1 : ~ In bp fl1) by (intros Hc; now apply Hmem1 in Hc).
  rewrite wrap64_small by lia.
  apply naf_app in Hnaf. destruct Hnaf as (Hn1 & Hn2 & Hn3). apply naf_cons in Hn2.
  cbn [hd snd] in Hn3. destruct Hn3 as [Hn3|?]; [|discriminate].
  destruct Hn2 as [[?|Hn4] Hn2]; [discriminate|].
  unfold DSIZE. change (2 * 8) with 16.
  destruct (c - asize >=? 16) eqn:Hsplit.
  - (* the block is split *)
    rewrite Z.geb_leb in Hsplit. apply Z.leb_le in Hsplit.
    assert (Hrm : (c - asize) mod 8 = 0) by (Z.div_mod_to_equations; lia).
    destruct (retag (mem s1) bp asize true) as (HF1 & Ht1 & _); [lia | assumption |].
    cbn [Z.b2z] in *. st. rewrite HF1.
    set (m2 := PUT (PUT (mem s1) (HDRP bp) (PACK asize 1)) (bp + asize - 8) (PACK asize 1)) in *.
    rewrite (NEXT_BLKP_tagged m2 bp (asize, true) (proj1 Ht1) Ham). cbn [fst].
    destruct (retag m2 (bp + asize) (c - asize) false) as (HF2 & _ & _); [lia | assumption |].
    cbn [Z.b2z] in *. rewrite HF2.
    match goal with |- context [addToFreeList ?st _] => set (s5 := st) end.
    assert (W5 : wf s5 (l1 ++ (asize, true) :: (c - asize, false) :: l2) fl1)
      by (apply (split_wf s1 s5 l1 l2 c false fl1 bp asize); try assumption; try reflexivity; lia).
    assert (Hhl5 : heap_listp s5 = heap_listp s) by exact Hhl1.
    assert (Hin5 : In (bp + asize, (c - asize, false))
                      (located (heap_listp s5 + 8)
                         (l1 ++ (asize, true) :: (c - asize, false) :: l2))).
    { rewrite Hhl5.
      replace (bp + asize) with (heap_listp s + 8 + total (l1 ++ [(asize, true)]))
        by (rewrite total_app; cbn; lia).
      change (l1 ++ (asize, true) :: (c - asize, false) :: l2)
        with (l1 ++ [(asize, true)] ++ (c - asize, false) :: l2).
      rewrite app_assoc. apply In_located_mid. }
    assert (Hnot5 : ~ In (bp + asize) fl1).
    { intros Hc. apply Hmem1 in Hc. destruct Hc as [Hc _].
      destruct (wf_free_block _ _ _ W _ Hc) as (sz' & Hc' & ? & _).
      destruct (located_disjoint _ _ _ _ _ _ Hs Hin Hc') as [[? _]|[?|?]]; cbn [fst] in *; lia. }
    destruct (addToFreeList_wf _ _ _ _ _ W5 Hin5 Hnot5) as [W6 Hhl6].
    exists (l1 ++ (asize, true) :: (c - asize, false) :: l2), (bp + asize :: fl1), asize.
    split; [exact W6|].
    split; [|split; [|split; [|split; [|split; [|split; [|split; [|split]]]]]]].
    + change (l1 ++ (asize, true) :: (c - asize, false) :: l2)
        with (l1 ++ [(asize, true); (c - asize, false)] ++ l2).
      apply (listed_replace _ _ [(c, false)] _ _ fl); try assumption.
      * cbn; lia.
      * intros x Hx. destruct (Z.eq_dec x bp) as [->|Hne].
        -- right. exists (c, false). rewrite <- Ha. now left.
        -- left. right. now apply Hmem1.
      * intros x sz [Hx|[Hx|[]]]; [discriminate|]. injection Hx as <- _.
        left. lia.
    + apply naf_app. split; [assumption|]. split; [|now left].
      apply naf_cons. split; [now left|]. apply naf_cons. split; [now right | assumption].
    + now rewrite Hhl6.
    + rewrite Ha. apply In_located_mid.
    + lia.
    + intros x b Hxb Hx.
      change (l1 ++ (asize, true) :: (c - asize, false) :: l2)
        with (l1 ++ [(asize, true); (c - asize, false)] ++ l2).
      change (l1 ++ (c, false) :: l2) with (l1 ++ [(c, false)] ++ l2) in Hx.
      apply (located_replace _ _ _ _ [(c, false)]); [cbn; lia | assumption |].
      intros [E|[]]. injection E as _ <-. discriminate.
    + reflexivity.
    + intros _. split; [rewrite <- Hhl5; exact Hin5 | reflexivity].
    + apply (same_but_weaken (fun x => (False \/ x = bp) \/ False)); [tauto|].
      apply (same_but_trans _ _ s s5 _ _
               (l1 ++ (asize, true) :: (c - asize, false) :: l2)); [exact Hhl5| |].
      * apply (same_but_trans _ _ s s1 _ _ (l1 ++ (c, false) :: l2)); [exact Hhl1| |].
        -- apply same_but_mem. intros x sz0 _ Hx.
           apply (removeFromFreeList_kept s _ fl bp x sz0 W Hfl Hx).
        -- apply (same_but_region _ s1 s5 l1 [(c, false)]
                    [(asize, true); (c - asize, false)] l2 bp);
             try assumption.
           ++ cbn; lia.
           ++ intros q Hq. cbn [total fst] in Hq. subst s5 m2. st. unfold HDRP, WSIZE.
              rewrite !PUT_other by lia. reflexivity.
           ++ intros x sz0 [Hx|[]]. discriminate.
           ++ intros x sz0 [Hx|[Hx|[]]]; [now injection Hx as <- _ | discriminate].
      * apply same_but_mem. intros x sz0 _ Hx.
        apply (addToFreeList_kept s5 _ fl1 (bp + asize) (c - asize) x sz0 W5 Hin5 Hx).
  - (* the whole block is used *)
    assert (W3 := retag_wf s1 l1 [(c, false)] l2 fl1 bp c true W1 Ha1).
    cbn [Z.b2z] in W3.
    match goal with |- context [wf ?st _ _] => set (s3 := st) in * end.
    assert (W3' : wf s3 (l1 ++ (c, true) :: l2) fl1).
    { apply W3; [cbn; lia | discriminate |].
      intros x b Hx [Hxb|[]]. injection Hxb as <- <-. contradiction. }
    exists (l1 ++ (c, true) :: l2), fl1, c.
    split; [exact W3'|].
    split; [|split; [|split; [|split; [|split; [|split; [|split; [|split]]]]]]].
    + change (l1 ++ (c, true) :: l2) with (l1 ++ [(c, true)] ++ l2).
      apply (listed_replace _ _ [(c, false)] _ _ fl); try assumption.
      * reflexivity.
      * intros x Hx. destruct (Z.eq_dec x bp) as [->|Hne].
        -- right. exists (c, false). rewrite <- Ha. now left.
        -- left. now apply Hmem1.
      * intros x sz [Hx|[]]. discriminate.
    + apply naf_app. split; [assumption|]. split; [|now left].
      apply naf_cons. split; [now left | assumption].
    + exact Hhl1.
    + rewrite Ha. apply In_located_mid.
    + lia.
    + intros x b Hxb Hx.
      change (l1 ++ (c, true) :: l2) with (l1 ++ [(c, true)] ++ l2).
      change (l1 ++ (c, false) :: l2) with (l1 ++ [(c, false)] ++ l2) in Hx.
      apply (located_replace _ _ _ _ [(c, false)]); [reflexivity | assumption |].
      intros [E|[]]. injection E as _ <-. discriminate.
    + reflexivity.
    + rewrite Z.geb_leb in Hsplit. apply Z.leb_gt in Hsplit. lia.
    + apply (same_but_weaken (fun x => False \/ x = bp)); [tauto|].
      apply (same_but_trans _ _ s s1 _ _ (l1 ++ (c, false) :: l2)); [exact Hhl1| |].
      * apply same_but_mem. intros x sz0 _ Hx.
        apply (removeFromFreeList_kept s _ fl bp x sz0 W Hfl Hx).
      * apply (same_but_region _ s1 s3 l1 [(c, false)] [(c, true)] l2 bp);
          try assumption; try reflexivity.
        -- intros q Hq. cbn [total fst] in Hq.
           apply (retag_mem s1 bp c q true); [lia | assumption | lia].
        -- intros x sz0 [Hx|[]]. discriminate.
        -- intros x sz0 [Hx|[]]. now injection Hx as <- _.
Qed.


(** ** [find_fit] *)

Section FindFit.

Variables (s : state) (bs : list block) (fl : list Z) (asize : Z).
Hypothesis W : wf s bs fl.

(** Whatever the fuel, a result is [NULL] or a listed block that fits. *)
Lemma find_fit_loop_sound (fuel : nat) (l : list Z) (p r : Z) :
  dll (mem s) (heap_listp s) p l 0 -> incl l fl ->
  find_fit_loop fuel s (off_hd (heap_listp s) l 0) asize = Some r ->
  r = 0
  \/ (In r l /\ exists sz, In (r, (sz, false)) (located (heap_listp s + 8) bs)
                           /\ asize <= sz).
Proof.
  revert l p. induction fuel as [|fuel IH]; intros l p Hdl Hincl; cbn [find_fit_loop]; [discriminate|].
  destruct l as [|a l']; cbn [off_hd].
  - cbn. intros H. injection H as <-. now left.
  - destruct Hdl as (_ & Hnext & Hdl).
    assert (Ha : In a fl) by (apply Hincl; now left).
    destruct (wf_free_block _ _ _ W a Ha) as (sz & Hin & _).
    destruct (wf_offset _ _ _ W _ _ Hin) as (Hoff & Haddr & _).
    destruct (wf_block _ _ _ W _ _ Hin) as (Hh & _ & _ & Hm & _). cbn [fst] in *.
    replace (a - heap_listp s =? 0) with false by eqb_false.
    rewrite Haddr. rewrite (GET_SIZE_HDRP _ a (sz, false) Hh Hm). cbn [fst].
    unfold WSIZE. rewrite Hnext.
    destruct (sz >=? asize) eqn:Hfit.
    + intros H. injection H as <-. right. split; [now left|]. exists sz.
      rewrite Z.geb_leb in Hfit. apply Z.leb_le in Hfit. now split.
    + intros H.
      assert (Hincl' : incl l' fl) by (intros c Hc; apply Hincl; now right).
      destruct (IH l' (a - heap_listp s) Hdl Hincl' H) as [?|(? & ?)].
      * now left.
      * right. split; [now right | assumption].
Qed.

(** With more fuel than the list is long, the search ends. *)
Lemma find_fit_loop_total (fuel : nat) (l : list Z) (p : Z) :
  dll (mem s) (heap_listp s) p l 0 -> incl l fl ->
  (length l < fuel)%nat ->
  exists r, find_fit_loop fuel s (off_hd (heap_listp s) l 0) asize = Some r.
Proof.
  revert l p. induction fuel as [|fuel IH]; intros l p Hdl Hincl Hlen; [lia|].
  cbn [find_fit_loop]. destruct l as [|a l']; cbn [off_hd].
  - cbn. eauto.
  - destruct Hdl as (_ & Hnext & Hdl).
    assert (Ha : In a fl) by (apply Hincl; now left).
    destruct (wf_free_block _ _ _ W a Ha) as (sz & Hin & _).
    destruct (wf_offset _ _ _ W _ _ Hin) as (Hoff & Haddr & _).
    replace (a - heap_listp s =? 0) with false by eqb_false.
    rewrite Haddr. unfold WSIZE. rewrite Hnext.
    destruct (GET_SIZE (mem s) (HDRP a) >=? asize); [eauto|].
    apply (IH l' (a - heap_listp s) Hdl).
    + intros c Hc. apply Hincl. now right.
    + cbn [length] in Hlen. lia.
Qed.

Lemma find_fit_sound (fuel : nat) (r : Z) :
  find_fit fuel s asize = Some r ->
  r = 0
  \/ (In r fl /\ exists sz, In (r, (sz, false)) (located (heap_listp s + 8) bs)
                            /\ asize <= sz).
Proof.
  unfold find_fit. rewrite (wf_head _ _ _ W).
  apply (find_fit_loop_sound fuel fl 0); [apply (wf_links _ _ _ W) | apply incl_refl].
Qed.

Lemma find_fit_total (fuel : nat) :
  (length fl < fuel)%nat -> exists r, find_fit fuel s asize = Some r.
Proof.
  unfold find_fit. rewrite (wf_head _ _ _ W).
  apply (find_fit_loop_total fuel fl 0); [apply (wf_links _ _ _ W) | apply incl_refl].
Qed.

End FindFit.

(** ** [extend_heap] *)

Lemma wf_log (s : state) (bs : list block) (fl : list Z) (incr : Z) :
  wf s bs fl -> wf (log_sbrk s incr) bs fl.
Proof. intros []. constructor; assumption. Qed.

Lemma words_of_size (size : Z) :
  0 <= size < 2 ^ 64 -> size mod 8 = 0 ->
  (if negb (size / WSIZE mod 2 =? 0)
   then wrap64 ((size / WSIZE + 1) * WSIZE) else wrap64 (size / WSIZE * WSIZE))
  = size.
Proof.
  intros Hr Hm. unfold WSIZE.
  replace (size / 4 mod 2 =? 0) with true
    by (symmetry; apply Z.eqb_eq; Z.div_mod_to_equations; lia).
  cbn [negb]. rewrite wrap64_small by (Z.div_mod_to_equations; lia).
  Z.div_mod_to_equations; lia.
Qed.

(** What [extend_heap] achieves when the provider serves the request: the
    heap has grown by [size] bytes, which make, with the last block when it
    was free, the free block returned; that block is the last of the heap
    and the head of the free list; the blocks in use, and what they hold,
    are as they were. *)
Lemma extend_heap_exact (s : state) (bs : list block) (fl : list Z) (size : Z) :
  wf s bs fl -> listed (heap_listp s + 8) bs fl -> no_adjacent_free bs ->
  16 <= size -> size mod 8 = 0 -> sbrk_fits s size = true ->
  exists bs' fl' sz',
    wf (fst (extend_heap s (size / WSIZE))) bs' fl'
    /\ listed (heap_listp s + 8) bs' fl'
    /\ no_adjacent_free bs'
    /\ heap_listp (fst (extend_heap s (size / WSIZE))) = heap_listp s
    /\ In (snd (extend_heap s (size / WSIZE))) fl'
    /\ In (snd (extend_heap s (size / WSIZE)), (sz', false))
          (located (heap_listp s + 8) bs')
    /\ size <= sz'
    /\ (forall x b, snd b = true ->
        In (x, b) (located (heap_listp s + 8) bs) ->
        In (x, b) (located (heap_listp s + 8) bs'))
    /\ same_but (fun _ => False) s bs (fst (extend_heap s (size / WSIZE))) bs'
    /\ hd 0 fl' = snd (extend_heap s (size / WSIZE))
    /\ snd (extend_heap s (size / WSIZE)) + sz' = mem_lo s + mem_brk s + size
    /\ sz' = size + free_size (last bs (0, true))
    /\ mem_brk (fst (extend_heap s (size / WSIZE))) = mem_brk s + size
    /\ sbrk_log (fst (extend_heap s (size / WSIZE))) = size :: sbrk_log s
    /\ mem_lo (fst (extend_heap s (size / WSIZE))) = mem_lo s
    /\ mem_max (fst (extend_heap s (size / WSIZE))) = mem_max s.
Proof.
  intros W Hlisted Hnaf Hsz Hm Hfits.
  pose proof (wf_total_bound _ _ _ W) as Hbd.
  pose proof (wf_end _ _ _ W) as Hend.
  destruct (wf_lo _ _ _ W) as [Hlo1 Hlo2]. destruct (wf_brk _ _ _ W) as [Hbrk Hmax].
  assert (Hfits' := Hfits). unfold sbrk_fits in Hfits'.
  apply andb_true_iff in Hfits'. destruct Hfits' as [_ Hfit']. apply Z.leb_le in Hfit'.
  unfold extend_heap. rewrite words_of_size by lia.
  unfold mem_sbrk. rewrite Hfits.
  set (bp := mem_lo s + mem_brk s).
  replace (bp =? -1) with false by (subst bp; eqb_false).
  cbv zeta.
  destruct (retag (mem s) bp size false) as (HF & Ht & _); [lia | assumption |].
  cbn [Z.b2z] in *. st. rewrite HF.
  rewrite (NEXT_BLKP_tagged _ bp (size, false) (proj1 Ht) Hm). cbn [fst].
  clear HF Ht.
  match goal with |- context [coalesce ?st _] => set (s5 := st) end.
  assert (Hv : wrap32 (PACK size 0) = tag (size, false)).
  { change (PACK size 0) with (PACK size (Z.b2z false)).
    rewrite (PACK_tag size false Hm). apply wrap32_small. unfold tag. cbn. lia. }
  assert (W5 : wf s5 (bs ++ [(size, false)]) fl).
  { apply (wf_extend s s5 bs fl size); try assumption; try reflexivity.
    - split; assumption.
    - intros q Hq. subst s5. st. unfold HDRP, WSIZE.
      rewrite !GET_PUT_other by (subst bp; lia). reflexivity.
    - fold bp. subst s5. st. unfold HDRP, WSIZE.
      split; cbn [fst snd]; rewrite !GET_PUT_other by lia; rewrite GET_PUT_same; exact Hv.
    - fold bp. subst s5. st. unfold HDRP, WSIZE.
      rewrite !GET_PUT_other by lia. rewrite GET_PUT_same. reflexivity. }
  assert (Hhl5 : heap_listp s5 = heap_listp s) by reflexivity.
  assert (Hbp : bp = heap_listp s5 + 8 + total bs) by (rewrite Hhl5; subst bp; lia).
  assert (Hnot : ~ In bp fl).
  { intros Hc. destruct (wf_free_block _ _ _ W _ Hc) as (sz' & _ & ? & _ & ?). subst bp. lia. }
  assert (Hc : coalesced s5 bs size [] bp (fst (coalesce s5 bp)) (snd (coalesce s5 bp))).
  { apply (coalesce_spec s5 bs [] size fl bp); try assumption; [|exact I].
    intros x sz Hx Hne. apply (Hlisted x sz). rewrite Hhl5 in Hx.
    rewrite located_app in Hx. apply in_app_or in Hx. destruct Hx as [Hx|[Hx|[]]]; [assumption|].
    injection Hx as Hx _. subst bp. lia. }
  pose proof (coalesce_provider s5 bp) as Hprov.
  destruct (coalesce s5 bp) as [s6 bp'] eqn:Ec. cbn [fst snd] in Hc, Hprov.
  destruct Hc as (l1' & sz' & l2' & fl' & W6 & Hhl6 & Ha' & Hnot' & Hlisted' & Hnaf' & Hle & Hkeep
                  & _ & Hsame6 & Hat & Hsum).
  rewrite Hhl5 in *.
  assert (Hin6 : In (bp', (sz', false)) (located (heap_listp s6 + 8) (l1' ++ (sz', false) :: l2')))
    by (rewrite Hhl6, Ha'; apply In_located_mid).
  destruct (addToFreeList_wf _ _ _ _ _ W6 Hin6 Hnot') as [W7 Hhl7].
  cbn [fst snd].
  exists (l1' ++ (sz', false) :: l2'), (bp' :: fl'), sz'.
  split; [exact W7|]. split; [now apply listed_of_but|]. split; [exact Hnaf'|].
  split; [now rewrite Hhl7|]. split; [now left|].
  split; [rewrite Ha'; apply In_located_mid|]. split; [exact Hle|].
  split.
  { intros x b Hb Hx. apply Hkeep; [assumption|].
    change (bs ++ (size, false) :: []) with (bs ++ [(size, false)]).
    rewrite located_app. apply in_or_app. now left. }
  destruct Hprov as (Hlo6 & Hbrk6 & Hmax6 & Hlog6 & _).
  destruct (addToFreeList_provider s6 bp') as (Hlo7 & Hbrk7 & Hmax7 & Hlog7 & _).
  cbn [hd free_size snd] in Hsum.
  split; [|split; [reflexivity|]; split; [lia|]; split; [lia|]; split;
           [rewrite Hbrk7, Hbrk6; reflexivity|]; split;
           [rewrite Hlog7, Hlog6; reflexivity|]; split;
           [rewrite Hlo7, Hlo6; reflexivity | rewrite Hmax7, Hmax6; reflexivity]].
  apply (same_but_weaken (fun x => (False \/ False) \/ False)); [tauto|].
  apply (same_but_trans _ _ s s6 _ _ (l1' ++ (sz', false) :: l2')); [exact Hhl6| |].
  - apply (same_but_trans _ _ s s5 _ _ (bs ++ [(size, false)]));
      [exact Hhl5 | | exact Hsame6].
    apply same_but_snoc; [apply (wf_sized _ _ _ W) | reflexivity |].
    intros q Hq. subst s5. st. unfold HDRP, WSIZE.
    rewrite !PUT_other by (subst bp; lia). reflexivity.
  - apply same_but_mem. intros x sz0 _ Hx.
    apply (addToFreeList_kept s6 _ fl' bp' sz' x sz0 W6 Hin6 Hx).
Qed.

Lemma extend_heap_spec (s : state) (bs : list block) (fl : list Z) (size : Z) :
  wf s bs fl -> listed (heap_listp s + 8) bs fl -> no_adjacent_free bs ->
  16 <= size -> size mod 8 = 0 -> sbrk_fits s size = true ->
  exists bs' fl' sz',
    wf (fst (extend_heap s (size / WSIZE))) bs' fl'
    /\ listed (heap_listp s + 8) bs' fl'
    /\ no_adjacent_free bs'
    /\ heap_listp (fst (extend_heap s (size / WSIZE))) = heap_listp s
    /\ In (snd (extend_heap s (size / WSIZE))) fl'
    /\ In (snd (extend_heap s (size / WSIZE)), (sz', false))
          (located (heap_listp s + 8) bs')
    /\ size <= sz'
    /\ (forall x b, snd b = true ->
        In (x, b) (located (heap_listp s + 8) bs) ->
        In (x, b) (located (heap_listp s + 8) bs')).
Proof.
  intros W Hlisted Hnaf Hsz Hm Hfits.
  destruct (extend_heap_exact s bs fl size W Hlisted Hnaf Hsz Hm Hfits)
    as (bs' & fl' & sz' & H1 & H2 & H3 & H4 & H5 & H6 & H7 & H8 & _).
  exists bs', fl', sz'.
  split; [exact H1|]. split; [exact H2|]. split; [exact H3|]. split; [exact H4|].
  split; [exact H5|]. split; [exact H6|]. split; [exact H7 | exact H8].
Qed.

(** ** [malloc] *)

Ltac conj := repeat match goal with |- _ /\ _ => split end.

Lemma adjust_bounds (n : Z) :
  0 < n -> n + 15 < 2 ^ 64 ->
  16 <= adjust n /\ n + 8 <= adjust n /\ adjust n <= n + 15 /\ adjust n mod 8 = 0.
Proof.
  intros Hn Hb. unfold adjust, DSIZE. destruct (n <=? 8) eqn:E.
  - apply Z.leb_le in E. repeat split; try lia.
  - apply Z.leb_gt in E. pose proof (ALIGN_bounds n). destruct (ALIGN_range n) as [_ ?].
    repeat split; try lia.
Qed.

Lemma MAX_bounds (x y : Z) : x <= MAX x y /\ y <= MAX x y /\ (MAX x y = x \/ MAX x y = y).
Proof.
  unfold MAX. destruct (x >? y) eqn:E.
  - rewrite Z.gtb_ltb in E. apply Z.ltb_lt in E. lia.
  - rewrite Z.gtb_ltb in E. apply Z.ltb_ge in E. lia.
Qed.

(** What [malloc] achieves for a request of [n] bytes: the heap is well
    formed again; the pointer returned, when not [NULL], is a block in use
    that was not in use before, of at least [adjust n] bytes and of less
    than sixteen more; the other blocks in use, and what they hold, are as
    they were; [NULL] is returned only when no block of the free list fits
    and the provider refuses to extend the heap. *)
Lemma malloc_exact (fuel : nat) (s s' : state) (bs : list block) (fl : list Z) (n p : Z) :
  wf s bs fl -> listed (heap_listp s + 8) bs fl -> no_adjacent_free bs ->
  0 < n -> n + 15 < 2 ^ 64 ->
  malloc fuel s n = Some (s', p) ->
  exists bs' fl',
    wf s' bs' fl'
    /\ listed (heap_listp s + 8) bs' fl'
    /\ no_adjacent_free bs'
    /\ heap_listp s' = heap_listp s
    /\ (p <> 0 ->
        (exists sz', In (p, (sz', true)) (located (heap_listp s + 8) bs')
                     /\ adjust n <= sz' < adjust n + 16)
        /\ (forall sz, ~ In (p, (sz, true)) (located (heap_listp s + 8) bs)))
    /\ same_but (fun x => x = p) s bs s' bs'
    /\ (p = 0 ->
        find_fit fuel s (adjust n) = Some 0
        /\ sbrk_fits s (MAX (adjust n) CHUNKSIZE) = false).
Proof.
  intros W Hlisted Hnaf Hn Hb.
  destruct (adjust_bounds n Hn Hb) as (Ha16 & _ & Hamax & Ham).
  unfold malloc. replace (n =? 0) with false by eqb_false.
  destruct (find_fit fuel s (adjust n)) as [bp|] eqn:Hfit; [|discriminate].
  destruct (bp =? 0) eqn:Hbp; cbn [negb].
  - (* no fit: the heap is extended *)
    apply Z.eqb_eq in Hbp. subst bp.
    destruct (MAX_bounds (adjust n) CHUNKSIZE) as (HM1 & HM2 & HM3).
    change CHUNKSIZE with 256 in *.
    assert (HMm : MAX (adjust n) 256 mod 8 = 0) by (destruct HM3 as [-> | ->]; [assumption | reflexivity]).
    destruct (sbrk_fits s (MAX (adjust n) 256)) eqn:Hfits.
    + destruct (extend_heap_exact s bs fl (MAX (adjust n) 256) W Hlisted Hnaf)
        as (bs1 & fl1 & sz1 & W1 & Hl1 & Hn1 & Hhl1 & Hin1 & Hb1 & Hsz1 & Hkeep1 & Hsame1 & _);
        try assumption; [lia|].
      destruct (extend_heap s (MAX (adjust n) 256 / WSIZE)) as [s1 bp1]. cbn [fst snd] in *.
      destruct (wf_free_block _ _ _ W1 _ Hin1) as (? & _ & _ & Hlo & _).
      destruct (wf_lo _ _ _ W1) as [? ?].
      replace (bp1 =? 0) with false by eqb_false.
      intros Hres. injection Hres as <- <-.
      rewrite <- Hhl1 in Hl1, Hb1.
      destruct (place_exact s1 bs1 fl1 bp1 sz1 (adjust n) W1 Hl1 Hn1 Hin1 Hb1)
        as (bs2 & fl2 & sz2 & W2 & Hl2 & Hn2 & Hhl2 & Hin2 & Hsz2 & Hkeep2 & Hexact2 & _ & Hsame2);
        [lia | assumption |].
      rewrite Hhl1 in *.
      assert (Hup : sz2 < adjust n + 16).
      { subst sz2. destruct (sz1 - adjust n >=? 16) eqn:E; [lia|].
        rewrite Z.geb_leb in E. apply Z.leb_gt in E. lia. }
      exists bs2, fl2. conj; try assumption.
      * intros _. split; [exists sz2; split; [assumption | lia]|].
        intros sz Hc. apply Hkeep1 in Hc; [|reflexivity].
        pose proof (located_inj _ _ _ _ _ (wf_sized _ _ _ W1) Hc Hb1). discriminate.
      * apply (same_but_weaken (fun x => False \/ x = bp1)); [tauto|].
        apply (same_but_trans _ _ s s1 _ _ bs1); [exact Hhl1 | exact Hsame1 | exact Hsame2].
      * lia.
    + rewrite extend_heap_fail by (try assumption; lia). cbn [Z.eqb].
      intros Hres. injection Hres as <- <-.
      exists bs, fl. conj; try assumption; try easy.
      now apply wf_log.
  - (* a block of the list fits *)
    apply Z.eqb_neq in Hbp.
    destruct (find_fit_sound s bs fl (adjust n) W fuel bp Hfit) as [?|(Hin & sz & Hblk & Hsz)];
      [contradiction|].
    intros Hres. injection Hres as <- <-.
    destruct (place_exact s bs fl bp sz (adjust n) W Hlisted Hnaf Hin Hblk)
      as (bs2 & fl2 & sz2 & W2 & Hl2 & Hn2 & Hhl2 & Hin2 & Hsz2 & Hkeep2 & Hexact2 & _ & Hsame2);
      [lia | assumption |].
    assert (Hup : sz2 < adjust n + 16).
    { subst sz2. destruct (sz - adjust n >=? 16) eqn:E; [lia|].
      rewrite Z.geb_leb in E. apply Z.leb_gt in E. lia. }
    exists bs2, fl2. conj; try assumption.
    + intros _. split; [exists sz2; split; [assumption | lia]|].
      intros sz' Hc.
      pose proof (located_inj _ _ _ _ _ (wf_sized _ _ _ W) Hc Hblk). discriminate.
    + contradiction.
Qed.

(** The blocks in use are found at addresses above the start of the heap. *)
Lemma in_use_positive (s : state) (bs : list block) (fl : list Z) (x : Z) (b : block) :
  wf s bs fl -> In (x, b) (located (heap_listp s + 8) bs) -> 0 < x.
Proof.
  intros W Hin. destruct (wf_block _ _ _ W _ _ Hin) as (_ & _ & _ & _ & ? & _).
  destruct (wf_lo _ _ _ W). lia.
Qed.

Lemma malloc_spec (fuel : nat) (s s' : state) (bs : list block) (fl : list Z) (n p : Z) :
  wf s bs fl -> listed (heap_listp s + 8) bs fl -> no_adjacent_free bs ->
  0 < n -> n + 15 < 2 ^ 64 ->
  malloc fuel s n = Some (s', p) ->
  allocated s bs (adjust n) s' p.
Proof.
  intros W Hlisted Hnaf Hn Hb Hrun.
  destruct (malloc_exact fuel s s' bs fl n p W Hlisted Hnaf Hn Hb Hrun)
    as (bs' & fl' & W' & Hl' & Hn' & Hhl & Hnew & Hsame & _).
  exists bs', fl'.
  split; [exact W'|]. split; [exact Hl'|]. split; [exact Hn'|]. split; [exact Hhl|].
  split.
  - intros x [szx al] Hal Hx. cbn [snd] in Hal. subst al.
    apply (Hsame x szx); [|assumption].
    intros ->. destruct (Z.eq_dec p 0) as [->|Hp].
    + pose proof (in_use_positive _ _ _ _ _ W Hx). lia.
    + destruct (Hnew Hp) as [_ Hfresh]. exact (Hfresh _ Hx).
  - intros Hp. destruct (Hnew Hp) as [(sz' & Hin & Hsz & _) Hfresh].
    split; [exists sz'; now split | exact Hfresh].
Qed.

Lemma malloc_total (fuel : nat) (s : state) (bs : list block) (fl : list Z) (n : Z) :
  wf s bs fl -> (length fl < fuel)%nat ->
  exists r, malloc fuel s n = Some r.
Proof.
  intros W Hfuel. unfold malloc. destruct (n =? 0); [eauto|].
  destruct (find_fit_total s bs fl (adjust n) W fuel Hfuel) as [bp ->].
  destruct (negb (bp =? 0)); [eauto|].
  destruct (extend_heap s (MAX (adjust n) CHUNKSIZE / WSIZE)) as [s1 bp1].
  destruct (bp1 =? 0); eauto.
Qed.

(** ** Writes into the payload of a block in use *)

Lemma GET_ext (m m' : memory) (q : Z) :
  (forall a, q <= a < q + 4 -> m' a = m a) -> GET m' q = GET m q.
Proof.
  intros H. unfold GET, byte_at. now rewrite !H by lia.
Qed.

Lemma GET_memcpy_other (m : memory) (dst src n q : Z) :
  q + 4 <= dst \/ dst + n <= q -> GET (memcpy m dst src n) q = GET m q.
Proof.
  intros H. apply GET_ext. intros a Ha. unfold memcpy.
  replace ((dst <=? a) && (a <? dst + n)) with false; [reflexivity|].
  symmetry. apply andb_false_iff.
  destruct H; [left; apply Z.leb_gt | right; apply Z.ltb_ge]; lia.
Qed.

Lemma GET_memset_other (m : memory) (dst c n q : Z) :
  q + 4 <= dst \/ dst + n <= q -> GET (memset m dst c n) q = GET m q.
Proof.
  intros H. apply GET_ext. intros a Ha. unfold memset.
  replace ((dst <=? a) && (a <? dst + n)) with false; [reflexivity|].
  symmetry. apply andb_false_iff.
  destruct H; [left; apply Z.leb_gt | right; apply Z.ltb_ge]; lia.
Qed.

Lemma wf_payload_write (s : state) (bs : list block) (fl : list Z)
      (x sz : Z) (m' : memory) :
  wf s bs fl -> In (x, (sz, true)) (located (heap_listp s + 8) bs) ->
  (forall q, q + 4 <= x \/ x + sz - 8 <= q -> GET m' q = GET (mem s) q) ->
  wf (set_mem s m') bs fl.
Proof.
  intros W Hin Hext.
  pose proof (wf_live_unlisted _ _ _ _ _ W Hin) as Hnot.
  destruct (wf_block _ _ _ W _ _ Hin) as (Hh & Hf & Hsz & _). cbn [fst] in *.
  destruct (In_located_split _ _ _ _ Hin) as (l1 & l2 & E & Ha). subst bs.
  change (l1 ++ (sz, true) :: l2) with (l1 ++ [(sz, true)] ++ l2) in *.
  apply (wf_region s _ l1 [(sz, true)] [(sz, true)] l2 fl); try assumption; try reflexivity.
  - pose proof (wf_sized _ _ _ W) as Hs. apply Forall_app in Hs.
    destruct Hs as [_ Hs]. apply Forall_app in Hs. apply Hs.
  - st. intros q Hq. cbn [total fst] in Hq. apply Hext. lia.
  - st. cbn [located]. rewrite <- Ha. constructor; [|constructor].
    split; cbn [fst snd]; rewrite Hext by lia; assumption.
  - intros c b Hc [Hb|[]]. injection Hb as <- <-. rewrite <- Ha in Hc. contradiction.
Qed.

Lemma memcpy_out (m : memory) (dst src n a : Z) :
  a < dst \/ dst + n <= a -> memcpy m dst src n a = m a.
Proof.
  intros H. unfold memcpy.
  replace ((dst <=? a) && (a <? dst + n)) with false; [reflexivity|].
  symmetry. apply andb_false_iff.
  destruct H; [left; apply Z.leb_gt | right; apply Z.ltb_ge]; lia.
Qed.

Lemma memcpy_in (m : memory) (dst src n a : Z) :
  dst <= a < dst + n -> memcpy m dst src n a = m (src + (a - dst)).
Proof.
  intros H. unfold memcpy.
  replace ((dst <=? a) && (a <? dst + n)) with true; [reflexivity|].
  symmetry. apply andb_true_iff. split; [apply Z.leb_le | apply Z.ltb_lt]; lia.
Qed.

Lemma memset_out (m : memory) (dst c n a : Z) :
  a < dst \/ dst + n <= a -> memset m dst c n a = m a.
Proof.
  intros H. unfold memset.
  replace ((dst <=? a) && (a <? dst + n)) with false; [reflexivity|].
  symmetry. apply andb_false_iff.
  destruct H; [left; apply Z.leb_gt | right; apply Z.ltb_ge]; lia.
Qed.

Lemma memset_in (m : memory) (dst c n a : Z) :
  dst <= a < dst + n -> memset m dst c n a = c mod 256.
Proof.
  intros H. unfold memset.
  replace ((dst <=? a) && (a <? dst + n)) with true; [reflexivity|].
  symmetry. apply andb_true_iff. split; [apply Z.leb_le | apply Z.ltb_lt]; lia.
Qed.

(** A write into the payload of the block in use at [x] leaves the other
    blocks in use as they were. *)
Lemma same_but_payload (s : state) (bs : list block) (fl : list Z)
      (x sz : Z) (m' : memory) :
  wf s bs fl -> In (x, (sz, true)) (located (heap_listp s + 8) bs) ->
  (forall a, a < x \/ x + sz - 8 <= a -> m' a = mem s a) ->
  same_but (fun y => y = x) s bs (set_mem s m') bs.
Proof.
  intros W Hin Hm. apply same_but_mem. intros y szy Hy Hiny a Ha. st. apply Hm.
  destruct (located_disjoint _ _ _ _ _ _ (wf_sized _ _ _ W) Hin Hiny) as [[E _]|[?|?]];
    cbn [fst] in *; [congruence | lia | lia].
Qed.

(** No block in use starts inside of a free block. *)
Lemma inside_free_not_in_use (a0 x sz y szy : Z) (bs : list block) :
  Forall sized bs ->
  In (y, (szy, false)) (located a0 bs) -> y <= x < y + szy ->
  ~ In (x, (sz, true)) (located a0 bs).
Proof.
  intros Hs Hy Hx Hc.
  pose proof (In_located_sized _ _ _ _ Hs Hc) as [? _].
  destruct (located_disjoint _ _ _ _ _ _ Hs Hy Hc) as [[_ E]|[?|?]];
    cbn [fst] in *; [discriminate | lia | lia].
Qed.

(** ** [realloc] *)

Lemma ALIGN_facts (n : Z) :
  0 < n -> n + 15 < 2 ^ 64 ->
  16 <= ALIGN n /\ n + 8 <= ALIGN n /\ ALIGN n <= n + 15 /\ ALIGN n mod 8 = 0.
Proof.
  intros Hn Hb. pose proof (ALIGN_bounds n). destruct (ALIGN_range n) as [_ Hm].
  assert (n + 8 <= ALIGN n < n + 16) by lia.
  repeat split; try lia. Z.div_mod_to_equations. lia.
Qed.

(** What [realloc] achieves on the block in use of size [old] at [ptr],
    for a request of [n] bytes: the heap is well formed again; a pointer [r]
    returned is a block in use of at least [ALIGN n] bytes, which holds what
    the block at [ptr] held, up to the shorter of the two payloads; when the
    block was moved, the block at [ptr] is no longer in use; when [NULL] is
    returned, the block at [ptr] is as it was; the other blocks in use, and
    what they hold, are as they were. *)
Lemma realloc_exact (fuel : nat) (s s' : state) (bs : list block) (fl : list Z)
      (ptr old n r : Z) (e : realloc_exit) :
  wf s bs fl -> listed (heap_listp s + 8) bs fl -> no_adjacent_free bs ->
  In (ptr, (old, true)) (located (heap_listp s + 8) bs) ->
  0 < n -> n + 30 < 2 ^ 64 ->
  realloc_run fuel s ptr n = Some (s', r, e) ->
  exists bs' fl',
    wf s' bs' fl'
    /\ listed (heap_listp s + 8) bs' fl'
    /\ no_adjacent_free bs'
    /\ heap_listp s' = heap_listp s
    /\ same_but (fun x => x = ptr \/ x = r) s bs s' bs'
    /\ (r <> 0 ->
        exists sz', In (r, (sz', true)) (located (heap_listp s + 8) bs')
                    /\ ALIGN n <= sz' /\ (e = ExitGrow -> ALIGN n + 8 <= sz')
                    /\ (forall i, 0 <= i < old - 8 -> i < sz' - 8 ->
                                  mem s' (r + i) = mem s (ptr + i)))
    /\ (r <> 0 -> r <> ptr ->
        forall sz, ~ In (ptr, (sz, true)) (located (heap_listp s + 8) bs'))
    /\ (r = 0 -> In (ptr, (old, true)) (located (heap_listp s + 8) bs')
                 /\ kept (mem s) (mem s') ptr old)
    /\ (r <> ptr -> forall sz, ~ In (r, (sz, true)) (located (heap_listp s + 8) bs)).
Proof.
  intros W Hlisted Hnaf Hin Hn Hb.
  destruct (ALIGN_facts n Hn) as (Ha16 & Hamin & Hamax & Ham); [lia|].
  destruct (wf_block _ _ _ W _ _ Hin) as (Hh & Hf & Hsz & Hm & Hlo & _). cbn [fst] in *.
  destruct (wf_lo _ _ _ W) as [? ?].
  pose proof (wf_live_unlisted _ _ _ _ _ W Hin) as Hnot.
  unfold realloc_run.
  replace (ptr =? 0) with false by eqb_false.
  replace (n =? 0) with false by eqb_false.
  rewrite (GET_SIZE_HDRP _ ptr (old, true) Hh Hm). cbn [fst].
  unfold DSIZE. change (2 * 8) with 16.
  destruct (old >=? ALIGN n) eqn:Hge.
  - rewrite Z.geb_leb in Hge. apply Z.leb_le in Hge.
    rewrite wrap64_small by (pose proof (wf_total_bound _ _ _ W);
      pose proof (In_located_bounds _ _ _ _ (wf_sized _ _ _ W) Hin); cbn [fst] in *; lia).
    destruct (old - ALIGN n <? 16) eqn:Hkeep.
    + (* the block is kept as it is *)
      intros Hres. injection Hres as <- <- <-.
      exists bs, fl.
      split; [|split; [|split; [|split; [|split; [|split; [|split; [|split]]]]]]];
        try assumption; try reflexivity.
      * apply same_but_mem. intros x sz0 _ _ q _. reflexivity.
      * intros _. exists old. conj; [assumption | lia | discriminate |].
        intros i _ _. reflexivity.
      * intros _ Hc. now contradiction Hc.
      * intros ->. lia.
      * intros Hc. now contradiction Hc.
    + (* the block is shrunk in place *)
      apply Z.ltb_ge in Hkeep.
      intros Hres. injection Hres as <- <- <-.
      destruct (In_located_split _ _ _ _ Hin) as (l1 & l2 & E & Ha). subst bs.
      pose proof (wf_total_bound _ _ _ W) as Hbd. rewrite total_app in Hbd.
      cbn [total fst] in Hbd.
      pose proof (wf_sized _ _ _ W) as Hs.
      assert (Hs' := Hs). apply Forall_app in Hs'. destruct Hs' as [Hs1 Hs2].
      apply Forall_inv_tail in Hs2.
      pose proof (total_nonneg _ Hs1). pose proof (total_nonneg _ Hs2).
      set (asize := ALIGN n) in *.
      assert (Hrm : (old - asize) mod 8 = 0) by (Z.div_mod_to_equations; lia).
      destruct (retag (mem s) ptr asize true) as (HF1 & Ht1 & _); [lia | assumption |].
      cbn [Z.b2z] in *. st. rewrite HF1.
      set (m2 := PUT (PUT (mem s) (HDRP ptr) (PACK asize 1)) (ptr + asize - 8) (PACK asize 1)) in *.
      rewrite (NEXT_BLKP_tagged m2 ptr (asize, true) (proj1 Ht1) Ham). cbn [fst].
      destruct (retag m2 (ptr + asize) (old - asize) false) as (HF2 & _ & _); [lia | assumption |].
      cbn [Z.b2z] in *. rewrite HF2.
      match goal with |- context [put (put ?st (ptr + asize) 0) _ 0] => set (s4 := st) end.
      assert (W4 : wf s4 (l1 ++ (asize, true) :: (old - asize, false) :: l2) fl)
        by (apply (split_wf s s4 l1 l2 old true fl ptr asize); try assumption; try reflexivity; lia).
      assert (Hhl4 : heap_listp s4 = heap_listp s) by reflexivity.
      assert (Hin4 : In (ptr + asize, (old - asize, false))
                        (located (heap_listp s4 + 8)
                           (l1 ++ (asize, true) :: (old - asize, false) :: l2))).
      { rewrite Hhl4.
        replace (ptr + asize) with (heap_listp s + 8 + total (l1 ++ [(asize, true)]))
          by (rewrite total_app; cbn; lia).
        change (l1 ++ (asize, true) :: (old - asize, false) :: l2)
          with (l1 ++ [(asize, true)] ++ (old - asize, false) :: l2).
        rewrite app_assoc. apply In_located_mid. }
      assert (Hnot4 : ~ In (ptr + asize) fl).
      { intros Hc.
        destruct (wf_free_block _ _ _ W _ Hc) as (sz' & Hc' & ? & _).
        destruct (located_disjoint _ _ _ _ _ _ Hs Hin Hc') as [[? _]|[?|?]]; cbn [fst] in *; lia. }
      assert (W5 : wf (put s4 (ptr + asize) 0)
                      (l1 ++ (asize, true) :: (old - asize, false) :: l2) fl)
        by (apply (wf_put_unlisted _ _ _ (ptr + asize) (old - asize, false));
            try assumption; cbn [fst]; lia).
      assert (W6 : wf (put (put s4 (ptr + asize) 0) (ptr + asize + WSIZE) 0)
                      (l1 ++ (asize, true) :: (old - asize, false) :: l2) fl)
        by (apply (wf_put_unlisted _ _ _ (ptr + asize) (old - asize, false));
            try assumption; unfold WSIZE; cbn [fst]; lia).
      set (s6 := put (put s4 (ptr + asize) 0) (ptr + asize + WSIZE) 0) in *.
      assert (Hhl6 : heap_listp s6 = heap_listp s) by reflexivity.
      assert (Hmem6 : forall q, q < ptr - 4 \/ ptr <= q < ptr + asize - 8 \/ ptr + old - 4 <= q ->
                                mem s6 q = mem s q).
      { intros q Hq. subst s6 s4 m2. st. unfold HDRP, WSIZE.
        rewrite !PUT_other by lia. reflexivity. }
      apply naf_app in Hnaf. destruct Hnaf as (Hn1 & Hn2 & _). apply naf_cons in Hn2.
      assert (W6' : wf s6 ((l1 ++ [(asize, true)]) ++ (old - asize, false) :: l2) fl)
        by (rewrite <- app_assoc; exact W6).
      assert (Hc : coalesced s6 (l1 ++ [(asize, true)]) (old - asize) l2 (ptr + asize)
                     (fst (coalesce s6 (ptr + asize))) (snd (coalesce s6 (ptr + asize)))).
      { apply (coalesce_spec s6 _ l2 (old - asize) fl (ptr + asize)); try assumption.
        - rewrite Hhl6, total_app. cbn. lia.
        - rewrite Hhl6, <- app_assoc.
          change (l1 ++ [(asize, true)] ++ (old - asize, false) :: l2)
            with (l1 ++ [(asize, true); (old - asize, false)] ++ l2).
          intros x sz Hx Hne. apply (Hlisted x sz).
          change (l1 ++ (old, true) :: l2) with (l1 ++ [(old, true)] ++ l2).
          apply (located_replace _ _ _ _ [(asize, true); (old - asize, false)]);
            [cbn; lia | assumption |].
          rewrite <- Ha. intros [Hc|[Hc|[]]]; [discriminate | injection Hc as Hc _; lia].
        - apply naf_app. split; [assumption|]. split; [exact I | now right].
        - apply Hn2. }
      destruct (coalesce s6 (ptr + asize)) as [s7 bp'] eqn:Ec. cbn [fst snd] in *.
      destruct Hc as (l1' & sz' & l2' & fl' & W7 & Hhl7 & Ha' & Hnot' & Hlisted' & Hnaf'
                      & _ & Hkeep7 & Hsame & Hsame7 & _).
      destruct Hsame as [-> ->]; [now rewrite last_snoc|].
      rewrite Hhl6 in *.
      assert (Hin7 : In (ptr + asize, (sz', false))
                        (located (heap_listp s7 + 8) ((l1 ++ [(asize, true)]) ++ (sz', false) :: l2')))
        by (rewrite Hhl7, Ha'; apply In_located_mid).
      destruct (addToFreeList_wf _ _ _ _ _ W7 Hin7 Hnot') as [W8 Hhl8].
      assert (Hptr6 : In (ptr, (asize, true))
                         (located (heap_listp s6 + 8)
                            ((l1 ++ [(asize, true)]) ++ (old - asize, false) :: l2)))
        by (rewrite Hhl6, <- app_assoc, Ha; apply In_located_mid).
      destruct (Hsame7 ptr asize (fun f => f)) as [_ Hfwd7].
      destruct (Hfwd7 Hptr6) as [Hptr7 Hkept7]. rewrite Hhl6, <- Hhl7 in Hptr7.
      exists ((l1 ++ [(asize, true)]) ++ (sz', false) :: l2'), (ptr + asize :: fl').
      split; [|split; [|split; [|split; [|split; [|split; [|split; [|split]]]]]]];
        try assumption.
      * now apply listed_of_but.
      * now rewrite Hhl8.
      * apply (same_but_weaken (fun x => (x = ptr \/ False) \/ False)); [tauto|].
        apply (same_but_trans _ _ s s7 _ _ ((l1 ++ [(asize, true)]) ++ (sz', false) :: l2'));
          [exact Hhl7| |].
        -- apply (same_but_trans _ _ s s6 _ _
                    ((l1 ++ [(asize, true)]) ++ (old - asize, false) :: l2));
             [exact Hhl6 | | exact Hsame7].
           rewrite <- app_assoc.
           apply (same_but_region _ s s6 l1 [(old, true)]
                    [(asize, true); (old - asize, false)] l2 ptr); try assumption.
           ++ cbn; lia.
           ++ intros q Hq. cbn [total fst] in Hq. apply Hmem6. lia.
           ++ intros x sz0 [Hx|[]]. now injection Hx as <- _.
           ++ intros x sz0 [Hx|[Hx|[]]]; [now injection Hx as <- _ | discriminate].
        -- apply same_but_mem. intros x sz0 _ Hx.
           apply (addToFreeList_kept s7 _ fl' (ptr + asize) sz' x sz0 W7 Hin7 Hx).
      * intros _. exists asize. conj; [ | apply Z.le_refl | discriminate |].
        -- rewrite <- app_assoc, Ha. apply In_located_mid.
        -- intros i Hi1 Hi2.
           rewrite (addToFreeList_kept s7 _ fl' (ptr + asize) sz' ptr asize W7 Hin7 Hptr7)
             by lia.
           rewrite Hkept7 by lia. apply Hmem6. lia.
      * intros _ Hc. now contradiction Hc.
      * intros ->. lia.
      * intros Hc. now contradiction Hc.
  - (* the block is moved *)
    rewrite Z.geb_leb in Hge. apply Z.leb_gt in Hge.
    rewrite gtb_true by lia.
    destruct (malloc fuel s (ALIGN n)) as [[s1 newptr]|] eqn:Hmalloc; [|discriminate].
    assert (Hpos : 0 < ALIGN n) by lia.
    assert (Hfit : ALIGN n + 15 < 2 ^ 64) by lia.
    destruct (malloc_exact fuel s s1 bs fl (ALIGN n) newptr W Hlisted Hnaf Hpos Hfit Hmalloc)
      as (bs1 & fl1 & W1 & Hl1 & Hn1 & Hhl1 & Hnew & Hsame1 & _).
    assert (Hadj : adjust (ALIGN n) = ALIGN n + 8).
    { unfold adjust, DSIZE. replace (ALIGN n <=? 8) with false by (symmetry; apply Z.leb_gt; lia).
      rewrite ALIGN_multiple by (try assumption; lia). apply wrap64_small. lia. }
    rewrite Hadj in Hnew.
    destruct (newptr =? 0) eqn:Hnull.
    + apply Z.eqb_eq in Hnull. subst newptr.
      intros Hres. injection Hres as <- <- <-.
      assert (Hp0 : ~ ptr = 0) by lia.
      destruct (Hsame1 ptr old Hp0) as [_ Hfwd]. destruct (Hfwd Hin) as [Hin1 Hkept1].
      exists bs1, fl1.
      split; [|split; [|split; [|split; [|split; [|split; [|split; [|split]]]]]]];
        try assumption.
      * apply (same_but_weaken (fun x => x = 0)); [tauto | exact Hsame1].
      * intros Hc. now contradiction Hc.
      * intros Hc. now contradiction Hc.
      * intros _. now split.
      * intros _ sz Hc. pose proof (in_use_positive _ _ _ _ _ W Hc). lia.
    + apply Z.eqb_neq in Hnull.
      intros Hres. injection Hres as <- <- <-.
      destruct (Hnew Hnull) as ((sz1 & Hin1 & Hsz1 & _) & Hfresh).
      assert (Hne : newptr <> ptr) by (intros ->; exact (Hfresh old Hin)).
      destruct (Hsame1 ptr old (not_eq_sym Hne)) as [_ Hfwd].
      destruct (Hfwd Hin) as [Hptr1 Hkept1].
      rewrite <- Hhl1 in Hin1.
      set (s2 := set_mem s1 (memcpy (mem s1) newptr ptr old)).
      assert (W2 : wf s2 bs1 fl1).
      { apply (wf_payload_write s1 bs1 fl1 newptr sz1); try assumption.
        intros q Hq. apply GET_memcpy_other. lia. }
      assert (Hsame2 : same_but (fun y => y = newptr) s1 bs1 s2 bs1).
      { apply (same_but_payload s1 bs1 fl1 newptr sz1); try assumption.
        intros a Ha. apply memcpy_out. lia. }
      assert (Hhl2 : heap_listp s2 = heap_listp s) by exact Hhl1.
      rewrite <- Hhl2 in Hl1.
      assert (Hptr : In (ptr, (old, true)) (located (heap_listp s2 + 8) bs1))
        by (rewrite Hhl2; exact Hptr1).
      destruct (In_located_split _ _ _ _ Hptr) as (k1 & k2 & E & Ha). subst bs1.
      destruct (free_exact s2 k1 k2 fl1 ptr old W2 Hl1 Hn1 Ha)
        as (k1' & k2' & fl3 & bp3 & sz3 & W3 & Hl3 & Hn3 & Hhl3 & Hsame3 & Hbp3 & Hat3 & Hsum3).
      rewrite Hhl2 in *. rewrite Hhl1 in Hin1.
      assert (Hnew2 : In (newptr, (sz1, true)) (located (heap_listp s2 + 8) (k1 ++ (old, true) :: k2)))
        by (rewrite Hhl2; exact Hin1).
      destruct (Hsame3 newptr sz1 Hne) as [_ Hfwd3].
      destruct (Hfwd3 Hnew2) as [Hnew3 Hkept3]. rewrite Hhl2 in Hnew3.
      pose proof (wf_sized _ _ _ W2) as Hs2. apply Forall_app in Hs2.
      destruct Hs2 as [Hk1 Hk2]. apply Forall_inv_tail in Hk2.
      pose proof (free_size_last _ Hk1). pose proof (free_size_hd _ Hk2).
      exists (k1' ++ (sz3, false) :: k2'), (bp3 :: fl3).
      split; [|split; [|split; [|split; [|split; [|split; [|split; [|split]]]]]]];
        try assumption.
      * apply (same_but_weaken (fun x => (x = newptr \/ x = newptr) \/ x = ptr)); [tauto|].
        apply (same_but_trans _ _ s s2 _ _ (k1 ++ (old, true) :: k2));
          [exact Hhl2 | | exact Hsame3].
        apply (same_but_trans _ _ s s1 _ _ (k1 ++ (old, true) :: k2));
          [exact Hhl1 | exact Hsame1 | exact Hsame2].
      * intros _. exists sz1. conj; [assumption | lia | intros _; lia |].
        intros i Hi1 Hi2. rewrite Hkept3 by lia. subst s2. st.
        rewrite memcpy_in by lia. replace (ptr + (newptr + i - newptr)) with (ptr + i) by lia.
        apply Hkept1. lia.
      * intros _ _ sz.
        apply (inside_free_not_in_use _ _ _ bp3 sz3); [apply (wf_sized _ _ _ W3) | | lia].
        rewrite Hbp3. apply In_located_mid.
      * intros Hc. now contradiction Hc.
      * intros _. exact Hfresh.
Qed.

Lemma realloc_spec (fuel : nat) (s s' : state) (bs : list block) (fl : list Z)
      (ptr old n r : Z) (e : realloc_exit) :
  wf s bs fl -> listed (heap_listp s + 8) bs fl -> no_adjacent_free bs ->
  In (ptr, (old, true)) (located (heap_listp s + 8) bs) ->
  0 < n -> n + 30 < 2 ^ 64 ->
  realloc_run fuel s ptr n = Some (s', r, e) ->
  resized s bs ptr old (ALIGN n) s' r e.
Proof.
  intros W Hlisted Hnaf Hin Hn Hb Hrun.
  destruct (realloc_exact fuel s s' bs fl ptr old n r e W Hlisted Hnaf Hin Hn Hb Hrun)
    as (bs' & fl' & W' & Hl' & Hn' & Hhl & Hsame & Hnew & _ & Hnull & Hfresh).
  exists bs', fl'.
  split; [exact W'|]. split; [exact Hl'|]. split; [exact Hn'|]. split; [exact Hhl|].
  split; [|split].
  - intros x [szx al] Hal Hne Hx. cbn [snd] in Hal. subst al.
    apply (Hsame x szx); [|assumption].
    intros [->| ->]; [now apply Hne|]. exact (Hfresh Hne _ Hx).
  - intros Hr. destruct (Hnew Hr) as (sz' & H1 & H2 & H3 & _).
    exists sz'. now repeat split.
  - intros Hr. now apply Hnull.
Qed.

(** ** [calloc] *)

(** What [calloc] achieves: what [malloc] achieves for the product of the
    two numbers, as [size_t] computes it, and the first bytes of the
    payload, as many as were asked for, are zero. *)
Lemma calloc_exact (fuel : nat) (s s' : state) (bs : list block) (fl : list Z)
      (nmemb size p : Z) :
  wf s bs fl -> listed (heap_listp s + 8) bs fl -> no_adjacent_free bs ->
  wrap64 (nmemb * size) + 15 < 2 ^ 64 ->
  calloc fuel s nmemb size = Some (s', p) ->
  exists bs' fl',
    wf s' bs' fl'
    /\ listed (heap_listp s + 8) bs' fl'
    /\ no_adjacent_free bs'
    /\ heap_listp s' = heap_listp s
    /\ (p <> 0 ->
        (exists sz', In (p, (sz', true)) (located (heap_listp s + 8) bs')
                     /\ adjust (wrap64 (nmemb * size)) <= sz'
                        < adjust (wrap64 (nmemb * size)) + 16)
        /\ (forall sz, ~ In (p, (sz, true)) (located (heap_listp s + 8) bs)))
    /\ same_but (fun x => x = p) s bs s' bs'
    /\ (p <> 0 -> forall a, p <= a < p + wrap64 (nmemb * size) -> mem s' a = 0).
Proof.
  intros W Hlisted Hnaf Hb. unfold calloc.
  pose proof (wrap64_range (nmemb * size)) as Hr.
  set (bytes := wrap64 (nmemb * size)) in *.
  destruct (malloc fuel s bytes) as [[s1 q]|] eqn:Hmalloc; [|discriminate].
  destruct (Z.eq_dec bytes 0) as [E|E].
  - rewrite E in Hmalloc. unfold malloc in Hmalloc. cbn in Hmalloc.
    injection Hmalloc as <- <-. cbn. intros Hres. injection Hres as <- <-.
    exists bs, fl. conj; try assumption; try easy.
  - assert (Hpos : 0 < bytes) by lia.
    destruct (malloc_exact fuel s s1 bs fl bytes q W Hlisted Hnaf Hpos Hb Hmalloc)
      as (bs1 & fl1 & W1 & Hl1 & Hn1 & Hhl1 & Hnew & Hsame1 & _).
    destruct (q =? 0) eqn:Hq; cbn [negb]; intros Hres; injection Hres as <- <-.
    + apply Z.eqb_eq in Hq. exists bs1, fl1. conj; try assumption.
      intros Hc. now contradiction Hc.
    + apply Z.eqb_neq in Hq. destruct (Hnew Hq) as ((sz1 & Hin1 & Hsz1) & Hfresh).
      destruct (adjust_bounds bytes Hpos Hb) as (_ & Hmin & _).
      rewrite <- Hhl1 in Hin1.
      exists bs1, fl1. conj; try assumption.
      * apply (wf_payload_write s1 bs1 fl1 q sz1); try assumption.
        intros a Ha. apply GET_memset_other. lia.
      * apply (same_but_weaken (fun x => x = q \/ x = q)); [tauto|].
        apply (same_but_trans _ _ s s1 _ _ bs1); [exact Hhl1 | exact Hsame1 |].
        apply (same_but_payload s1 bs1 fl1 q sz1); try assumption.
        intros a Ha. apply memset_out. lia.
      * intros _ a Ha. st. now rewrite memset_in by lia.
Qed.

Lemma calloc_spec (fuel : nat) (s s' : state) (bs : list block) (fl : list Z)
      (nmemb size p : Z) :
  wf s bs fl -> listed (heap_listp s + 8) bs fl -> no_adjacent_free bs ->
  wrap64 (nmemb * size) + 15 < 2 ^ 64 ->
  calloc fuel s nmemb size = Some (s', p) ->
  allocated s bs (adjust (wrap64 (nmemb * size))) s' p.
Proof.
  intros W Hlisted Hnaf Hb Hrun.
  destruct (calloc_exact fuel s s' bs fl nmemb size p W Hlisted Hnaf Hb Hrun)
    as (bs' & fl' & W' & Hl' & Hn' & Hhl & Hnew & Hsame & _).
  exists bs', fl'.
  split; [exact W'|]. split; [exact Hl'|]. split; [exact Hn'|]. split; [exact Hhl|].
  split.
  - intros x [szx al] Hal Hx. cbn [snd] in Hal. subst al.
    apply (Hsame x szx); [|assumption].
    intros ->. destruct (Z.eq_dec p 0) as [->|Hp].
    + pose proof (in_use_positive _ _ _ _ _ W Hx). lia.
    + destruct (Hnew Hp) as [_ Hfresh]. exact (Hfresh _ Hx).
  - intros Hp. destruct (Hnew Hp) as [(sz' & Hin & Hsz & _) Hfresh].
    split; [exists sz'; now split | exact Hfresh].
Qed.

(** ** [mm_init] *)

Lemma mm_init_spec (s : state) :
  provider_ok s -> sbrk_fits s (2 * DSIZE) = true ->
  heap_ok (fst (mm_init s))
  /\ heap_listp (fst (mm_init s)) = mem_lo s + mem_brk s + 8.
Proof.
  intros (Hlo & Hbrk & Hmax) Hfits.
  assert (Hfits' := Hfits). unfold sbrk_fits, DSIZE in Hfits'.
  apply andb_true_iff in Hfits'. destruct Hfits' as [_ Hfit']. apply Z.leb_le in Hfit'.
  unfold mm_init, mem_sbrk. rewrite Hfits. cbv zeta. st.
  replace (mem_lo s + mem_brk s =? -1) with false by eqb_false.
  set (p := mem_lo s + mem_brk s).
  match goal with |- context [extend_heap ?st _] => set (s6 := st) end.
  assert (W6 : wf s6 [] []).
  { subst s6. unfold WSIZE, DSIZE. constructor; st; cbn [total located].
    - lia.
    - lia.
    - lia.
    - constructor.
    - change (PACK 8 1) with 9. change (PACK 0 1) with 1.
      repeat split; cbn [fst snd].
      + replace (p + 2 * 4 - 4) with (p + 1 * 4) by lia.
        rewrite !GET_PUT_other by lia. now rewrite GET_PUT_same.
      + replace (p + 2 * 4 + 8 - 8) with (p + 2 * 4) by lia.
        rewrite !GET_PUT_other by lia. now rewrite GET_PUT_same.
      + constructor.
      + cbn [total]. replace (p + 2 * 4 + 8 + 0 - 4) with (p + 3 * 4) by lia.
        now rewrite GET_PUT_same.
    - intros a [].
    - constructor.
    - exact I.
    - reflexivity. }
  assert (Hhl6 : heap_listp s6 = p + 8) by (subst s6; st; unfold WSIZE; lia).
  assert (Hl6 : listed (heap_listp s6 + 8) [] []) by (intros a sz []).
  change (CHUNKSIZE / WSIZE) with (256 / WSIZE).
  destruct (sbrk_fits s6 256) eqn:Hfits6.
  - destruct (extend_heap_spec s6 [] [] 256 W6 Hl6 I)
      as (bs1 & fl1 & sz1 & W1 & Hl1 & Hn1 & Hhl1 & Hin1 & _); try assumption;
      [lia | reflexivity |].
    destruct (extend_heap s6 (256 / WSIZE)) as [s7 bp]. cbn [fst snd] in *.
    assert (Hs7 : heap_ok s7).
    { exists bs1, fl1. conj; try assumption. now rewrite Hhl1. }
    destruct (bp =? 0); cbn [fst]; (split; [exact Hs7 | lia]).
  - change 256 with (MAX 0 CHUNKSIZE) in Hfits6 |- *.
    rewrite (extend_heap_fail s6 0) by (try assumption; try reflexivity; lia).
    cbn [fst Z.eqb]. split; [|exact Hhl6].
    exists [], []. conj; [now apply wf_log | intros a sz [] | exact I].
Qed.

(** ** The physical walk of a well-formed heap *)

Lemma heap_blocks_mono (f f' : nat) (m : memory) (a : Z) (l : list (Z * Z * Z)) :
  heap_blocks f m a = Some l -> (f <= f')%nat -> heap_blocks f' m a = Some l.
Proof.
  revert f' a l. induction f as [|f IH]; intros f' a l; cbn [heap_blocks]; [discriminate|].
  intros H Hle. destruct f' as [|f']; [lia|]. cbn [heap_blocks].
  destruct (GET_SIZE m (HDRP a) >? 0); [|assumption].
  destruct (heap_blocks f m (NEXT_BLKP m a)) as [l0|] eqn:E; [|discriminate].
  rewrite (IH f' _ _ E) by lia. assumption.
Qed.

Lemma heap_blocks_located (fuel : nat) (m : memory) (a : Z) (bs : list block) :
  Forall (fun b => 0 < fst b /\ fst b mod 8 = 0) bs ->
  Forall (tagged m) (located a bs) ->
  GET m (a + total bs - 4) = 1 ->
  (length bs < fuel)%nat ->
  heap_blocks fuel m a = Some (map block_view (located a bs)).
Proof.
  revert a bs. induction fuel as [|fuel IH]; intros a bs Hs Ht He Hlen; [lia|].
  cbn [heap_blocks]. destruct bs as [|b r]; cbn [located map total] in *.
  - replace (a + 0 - 4) with (a - 4) in He by lia.
    assert (Hz : GET_SIZE m (HDRP a) = 0).
    { unfold HDRP, WSIZE. rewrite GET_SIZE_eq, He. reflexivity. }
    rewrite Hz. reflexivity.
  - apply Forall_cons_iff in Hs as [[Hb Hm] Hs]. apply Forall_cons_iff in Ht as [[Hh _] Ht].
    cbn [fst snd] in *.
    rewrite (GET_SIZE_HDRP m a b Hh Hm), (GET_ALLOC_HDRP m a b Hh Hm).
    rewrite (NEXT_BLKP_tagged m a b Hh Hm).
    rewrite gtb_true by lia.
    rewrite (IH (a + fst b) r); try assumption.
    + reflexivity.
    + now replace (a + fst b + total r - 4) with (a + (fst b + total r) - 4) by lia.
    + cbn [length] in Hlen. lia.
Qed.

Lemma wf_heap_blocks (s : state) (bs : list block) (fl : list Z) (fuel : nat) :
  wf s bs fl -> (S (length bs) < fuel)%nat ->
  heap_blocks fuel (mem s) (heap_listp s)
  = Some (map block_view (located (heap_listp s) ((8, true) :: bs))).
Proof.
  intros W Hlen. destruct (wf_shape _ _ _ W) as (Hp & Ht & He).
  apply heap_blocks_located.
  - constructor; [cbn; split; [lia | reflexivity]|].
    eapply Forall_impl; [|apply (wf_sized _ _ _ W)]. intros b [? ?]. split; [lia | assumption].
  - cbn [located fst]. now constructor.
  - cbn [total fst]. now replace (heap_listp s + (8 + total bs) - 4)
      with (heap_listp s + 8 + total bs - 4) by lia.
  - cbn [length]. lia.
Qed.

Lemma adjacent_free_view (a : Z) (bs : list block) :
  no_adjacent_free bs -> adjacent_free (map block_view (located a bs)) = false.
Proof.
  revert a. induction bs as [|b1 r IH]; intros a; [reflexivity|].
  destruct r as [|b2 r']; [reflexivity|].
  intros [Hor Hn]. specialize (IH (a + fst b1) Hn).
  cbn [located map adjacent_free block_view fst snd] in *.
  rewrite IH. rewrite orb_false_r.
  destruct Hor as [-> | ->]; cbn; [reflexivity | apply andb_false_r].
Qed.

(** In a heap that satisfies the invariant the walk ends, and no two blocks
    it meets in a row are free. *)
Lemma heap_ok_walk (s : state) :
  heap_ok s ->
  exists fuel l,
    heap_blocks fuel (mem s) (heap_listp s) = Some l /\ adjacent_free l = false.
Proof.
  intros (bs & fl & W & _ & Hn).
  exists (S (S (length bs))), (map block_view (located (heap_listp s) ((8, true) :: bs))).
  split; [apply (wf_heap_blocks _ _ fl); [assumption | lia]|].
  apply adjacent_free_view. apply naf_cons. split; [now left | assumption].
Qed.

(** A live pointer is a block in use of the list. *)
Lemma live_located (s : state) (bs : list block) (fl : list Z) (bp : Z) :
  wf s bs fl -> live s bp ->
  exists sz, In (bp, (sz, true)) (located (heap_listp s + 8) bs).
Proof.
  intros W (Hne & fuel & l & sz & Hwalk & Hin).
  pose proof (wf_heap_blocks s bs fl (Nat.max fuel (S (S (length bs)))) W) as H1.
  rewrite (heap_blocks_mono fuel _ _ _ _ Hwalk) in H1 by lia.
  specialize (H1 ltac:(lia)). injection H1 as ->.
  cbn [located map fst] in Hin. destruct Hin as [Hv|Hin].
  - unfold block_view in Hv. cbn [fst snd] in Hv. injection Hv as Hv _. congruence.
  - apply in_map_iff in Hin. destruct Hin as ([x [sz' al]] & Hv & Hin).
    unfold block_view in Hv. cbn [fst snd] in Hv. injection Hv as -> -> Hal.
    destruct al; [|discriminate]. now exists sz.
Qed.

Lemma located_live (s : state) (bs : list block) (fl : list Z) (bp sz : Z) :
  wf s bs fl -> In (bp, (sz, true)) (located (heap_listp s + 8) bs) -> live s bp.
Proof.
  intros W Hin. destruct (wf_block _ _ _ W _ _ Hin) as (_ & _ & _ & _ & Hlo & _).
  split; [lia|].
  exists (S (S (length bs))), (map block_view (located (heap_listp s) ((8, true) :: bs))), sz.
  split; [apply (wf_heap_blocks _ _ fl); [assumption | lia]|].
  apply in_map_iff. exists (bp, (sz, true)). split; [reflexivity|].
  cbn [located fst]. now right.
Qed.

(** ** The invariant holds in every reachable state *)

Lemma heap_ok_provider (s : state) : heap_ok s -> provider_ok s.
Proof.
  intros (bs & fl & W & _). destruct (wf_lo _ _ _ W). destruct (wf_brk _ _ _ W).
  pose proof (wf_end _ _ _ W). pose proof (wf_total_bound _ _ _ W).
  repeat split; lia.
Qed.

Lemma run_call_heap_ok (fuel : nat) (s s' : state) (c : call) (r : Z) :
  heap_ok s -> valid_call s c -> run_call fuel s c = Some (s', r) -> heap_ok s'.
Proof.
  intros Hok Hv Hrun.
  destruct c as [|n|bp|ptr n|k n]; cbn [run_call valid_call] in *.
  - injection Hrun as Hrun. destruct Hv as [Hp Hf].
    replace s' with (fst (mm_init s)) by now rewrite Hrun.
    apply (mm_init_spec s Hp Hf).
  - destruct Hok as (bs & fl & W & Hl & Hn). destruct Hv as [Hn0 Hb].
    destruct (Z.eq_dec n 0) as [->|Hne].
    + cbn in Hrun. injection Hrun as <- _. now exists bs, fl.
    + destruct (malloc_spec fuel s s' bs fl n r W Hl Hn ltac:(lia) Hb Hrun)
        as (bs' & fl' & W' & Hl' & Hn' & Hhl & _).
      exists bs', fl'. rewrite Hhl. now conj.
  - injection Hrun as <- _. destruct Hv as [->|Hlive]; [exact Hok|].
    destruct Hok as (bs & fl & W & Hl & Hn).
    destruct (live_located _ _ _ _ W Hlive) as [sz Hin].
    destruct (free_spec s bs fl bp sz W Hl Hn Hin) as (bs' & fl' & W' & Hl' & Hn' & Hhl & _).
    exists bs', fl'. rewrite Hhl. now conj.
  - destruct Hv as (Hptr & Hn0 & Hb). unfold realloc in Hrun.
    destruct (realloc_run fuel s ptr n) as [[[s1 p] e]|] eqn:Hr; [|discriminate].
    injection Hrun as <- <-.
    destruct Hok as (bs & fl & W & Hl & Hn).
    destruct (Z.eq_dec ptr 0) as [->|Hp0].
    + unfold realloc_run in Hr. cbn [Z.eqb] in Hr.
      destruct (malloc fuel s n) as [[s2 q]|] eqn:Hm; [|discriminate].
      injection Hr as <- <- <-.
      destruct (Z.eq_dec n 0) as [->|Hne].
      * cbn in Hm. injection Hm as <- _. now exists bs, fl.
      * destruct (malloc_spec fuel s s2 bs fl n q W Hl Hn ltac:(lia) ltac:(lia) Hm)
          as (bs' & fl' & W' & Hl' & Hn' & Hhl & _).
        exists bs', fl'. rewrite Hhl. now conj.
    + destruct Hptr as [?|Hlive]; [contradiction|].
      destruct (live_located _ _ _ _ W Hlive) as [old Hin].
      destruct (Z.eq_dec n 0) as [->|Hne].
      * unfold realloc_run in Hr. replace (ptr =? 0) with false in Hr by eqb_false.
        cbn [Z.eqb] in Hr. injection Hr as <- _ _.
        destruct (free_spec s bs fl ptr old W Hl Hn Hin) as (bs' & fl' & W' & Hl' & Hn' & Hhl & _).
        exists bs', fl'. rewrite Hhl. now conj.
      * destruct (realloc_spec fuel s s1 bs fl ptr old n p e W Hl Hn Hin ltac:(lia) Hb Hr)
          as (bs' & fl' & W' & Hl' & Hn' & Hhl & _).
        exists bs', fl'. rewrite Hhl. now conj.
  - destruct Hok as (bs & fl & W & Hl & Hn).
    destruct (calloc_spec fuel s s' bs fl k n r W Hl Hn Hv Hrun)
      as (bs' & fl' & W' & Hl' & Hn' & Hhl & _).
    exists bs', fl'. rewrite Hhl. now conj.
Qed.

Theorem reachable_heap_ok (s : state) : reachable s -> heap_ok s.
Proof.
  induction 1 as [s Hp Hf | s s' c fuel r _ IH Hv Hrun].
  - apply (mm_init_spec s Hp Hf).
  - exact (run_call_heap_ok fuel s s' c r IH Hv Hrun).
Qed.

(** X16. With legitimate calls (valid pointers, sizes that do not wrap
    around), no heap reachable from [mm_init] has two free blocks side by
    side: the physical walk of the heap ends, and never meets a free block
    right after a free block. *)
Theorem reachable_no_adjacent_free (s : state) :
  reachable s ->
  exists fuel l,
    heap_blocks fuel (mem s) (heap_listp s) = Some l /\ adjacent_free l = false.
Proof. intros H. apply heap_ok_walk, reachable_heap_ok, H. Qed.

(** Every public call returns, given fuel for the search of the free list. *)
Theorem run_call_total (s : state) (c : call) :
  heap_ok s -> exists fuel r, run_call fuel s c = Some r.
Proof.
  intros (bs & fl & W & _). exists (S (length fl)).
  destruct c as [|n|bp|ptr n|k n]; cbn [run_call]; eauto.
  - apply (malloc_total _ s bs fl); [assumption | lia].
  - unfold realloc, realloc_run.
    destruct (ptr =? 0).
    + destruct (malloc_total (S (length fl)) s bs fl n W) as [[s1 p] ->]; [lia | eauto].
    + destruct (n =? 0); [eauto|].
      destruct (GET_SIZE (mem s) (HDRP ptr) >=? ALIGN n).
      * destruct (wrap64 (GET_SIZE (mem s) (HDRP ptr) - ALIGN n) <? 2 * DSIZE); eauto.
      * destruct (ALIGN n >? GET_SIZE (mem s) (HDRP ptr)); [|eauto].
        destruct (malloc_total (S (length fl)) s bs fl (ALIGN n) W) as [[s1 p] ->]; [lia|].
        destruct (p =? 0); eauto.
  - unfold calloc.
    destruct (malloc_total (S (length fl)) s bs fl (wrap64 (k * n)) W) as [[s1 p] ->]; [lia|].
    destruct (negb (p =? 0)); eauto.
Qed.

(** ** Extending the heap on a miss *)


(** ** The grow path of [realloc] *)

(** On a heap that satisfies the invariant, with a request whose adjusted
    sizes do not wrap around: the grow path asks [malloc] for [ALIGN n]
    bytes, which is the adjusted size of [n] already; [malloc] adjusts it
    to [ALIGN n + 8]; and the block returned is in use with at least that
    many bytes when [realloc] returns. *)
Theorem realloc_grow_overallocates (fuel : nat) (s s' : state) (ptr n q : Z) :
  heap_ok s -> live s ptr -> 0 < n -> n + 30 < 2 ^ 64 ->
  realloc_run fuel s ptr n = Some (s', q, ExitGrow) ->
  GET_SIZE (mem s) (HDRP ptr) < ALIGN n
  /\ ALIGN n = adjust n
  /\ adjust (ALIGN n) = ALIGN n + 8
  /\ (exists s1, malloc fuel s (ALIGN n) = Some (s1, q))
  /\ GET_ALLOC (mem s') (HDRP q) = 1
  /\ ALIGN n + 8 <= GET_SIZE (mem s') (HDRP q)
  /\ heap_ok s'.
Proof.
  intros (bs & fl & W & Hl & Hn) Hlive Hpos Hb Hrun.
  destruct (live_located _ _ _ _ W Hlive) as [old Hin].
  destruct (ALIGN_facts n Hpos) as (Ha16 & Hamin & Hamax & Ham); [lia|].
  destruct (realloc_spec fuel s s' bs fl ptr old n q ExitGrow W Hl Hn Hin Hpos Hb Hrun)
    as (bs' & fl' & W' & Hl' & Hn' & Hhl & _ & Hnew & _).
  destruct (wf_block _ _ _ W _ _ Hin) as (_ & _ & _ & _ & Hlo & _).
  destruct (wf_lo _ _ _ W) as [? ?].
  unfold realloc_run in Hrun.
  replace (ptr =? 0) with false in Hrun by eqb_false.
  replace (n =? 0) with false in Hrun by eqb_false.
  destruct (GET_SIZE (mem s) (HDRP ptr) >=? ALIGN n) eqn:Hge.
  { destruct (wrap64 (GET_SIZE (mem s) (HDRP ptr) - ALIGN n) <? 2 * DSIZE); discriminate. }
  rewrite Z.geb_leb in Hge. apply Z.leb_gt in Hge.
  rewrite gtb_true in Hrun by lia.
  destruct (malloc fuel s (ALIGN n)) as [[s1 newptr]|] eqn:Hm; [|discriminate].
  destruct (newptr =? 0) eqn:Hnull; [discriminate|].
  apply Z.eqb_neq in Hnull. injection Hrun as _ Hq. subst newptr.
  destruct (Hnew Hnull) as (sz' & Hin' & _ & Hsz'). specialize (Hsz' eq_refl).
  rewrite <- Hhl in Hin', Hl'.
  destruct (wf_block _ _ _ W' _ _ Hin') as (Hh' & _ & _ & Hm' & _). cbn [fst] in *.
  conj.
  - exact Hge.
  - unfold adjust, DSIZE. destruct (n <=? 8) eqn:E; [|reflexivity].
    apply Z.leb_le in E. rewrite ALIGN_eq, wrap64_small by lia.
    Z.div_mod_to_equations. lia.
  - unfold adjust, DSIZE. replace (ALIGN n <=? 8) with false by (symmetry; apply Z.leb_gt; lia).
    rewrite ALIGN_multiple by (try assumption; lia). apply wrap64_small. lia.
  - now exists s1.
  - now rewrite (GET_ALLOC_HDRP _ q (sz', true) Hh' Hm').
  - now rewrite (GET_SIZE_HDRP _ q (sz', true) Hh' Hm').
  - now exists bs', fl'.
Qed.

(** ** The example states are reachable *)

Lemma roomy_provider : provider_ok roomy.
Proof. unfold provider_ok. cbn. lia. Qed.

Lemma fresh_reachable : reachable fresh.
Proof.
  assert (E : fresh = fst (mm_init roomy)) by (vm_compute; reflexivity).
  rewrite E. apply reach_init; [exact roomy_provider | reflexivity].
Qed.

Lemma one_live_reachable : reachable one_live.
Proof.
  apply (reach_call fresh one_live (CallMalloc 100) 8 4112 fresh_reachable).
  - cbn. lia.
  - vm_compute. reflexivity.
Qed.

Lemma one_live_live : live one_live 4112.
Proof.
  split; [vm_compute; discriminate|].
  exists 4%nat, [(4104, 8, 1); (4112, 112, 1); (4224, 144, 0)], 112.
  split; [vm_compute; reflexivity | cbn; tauto].
Qed.


Lemma realloc_run_observed (r : option (state * Z * realloc_exit)) (q : Z)
      (e : realloc_exit) (P : state -> Prop) :
  match r with
  | Some (s', q', e') => q' = q /\ e' = e /\ P s'
  | None => False
  end ->
  exists s', r = Some (s', q, e) /\ P s'.
Proof.
  destruct r as [[[s' q'] e']|]; [|easy]. intros (-> & -> & H). eauto.
Qed.

Example realloc_grow_overallocates_example :
  exists s',
    realloc_run 2 one_live 4112 200 = Some (s', 4224, ExitGrow)
    /\ ALIGN 200 = 208
    /\ 216 <= GET_SIZE (mem s') (HDRP 4224).
Proof.
  destruct (realloc_run_observed (realloc_run 2 one_live 4112 200) 4224 ExitGrow
              (fun _ => True)) as (s' & E & _).
  { vm_compute. repeat split. }
  exists s'. split; [exact E|]. split; [reflexivity|].
  apply (realloc_grow_overallocates 2 one_live s' 4112 200 4224
           (reachable_heap_ok one_live one_live_reachable) one_live_live);
    [lia | lia | exact E].
Qed.

Theorem realloc_grow_wraps_around :
  exists s',
    realloc_run 1 one_live 4112 (2 ^ 64 - 16) = Some (s', 4224, ExitGrow)
    /\ GET_SIZE (mem one_live) (HDRP 4112) = 112
    /\ ALIGN (2 ^ 64 - 16) = 2 ^ 64 - 8
    /\ adjust (ALIGN (2 ^ 64 - 16)) = 0
    /\ GET_SIZE (mem s') (HDRP 4224) = 144
    /\ GET_ALLOC (mem s') (HDRP 4224) = 0
    /\ heap_blocks 3 (mem s') (heap_listp s') = Some [(4104, 8, 1); (4112, 256, 0)].
Proof.
  apply (realloc_run_observed (realloc_run 1 one_live 4112 (2 ^ 64 - 16)) 4224 ExitGrow
           (fun s' =>
              GET_SIZE (mem one_live) (HDRP 4112) = 112
              /\ ALIGN (2 ^ 64 - 16) = 2 ^ 64 - 8
              /\ adjust (ALIGN (2 ^ 64 - 16)) = 0
              /\ GET_SIZE (mem s') (HDRP 4224) = 144
              /\ GET_ALLOC (mem s') (HDRP 4224) = 0
              /\ heap_blocks 3 (mem s') (heap_listp s')
                 = Some [(4104, 8, 1); (4112, 256, 0)])).
  vm_compute. repeat split.
Qed.

Lemma tight_full_reachable : reachable tight_full.
Proof.
  assert (E : state_after tight [CallInit] = fst (mm_init tight)) by (vm_compute; reflexivity).
  apply (reach_call (state_after tight [CallInit]) tight_full (CallMalloc 16) 8 4112).
  - rewrite E. apply reach_init; [unfold provider_ok; cbn; lia | reflexivity].
  - cbn. lia.
  - vm_compute. reflexivity.
Qed.

Lemma recycled_reachable : reachable recycled.
Proof.
  set (s1 := state_after roomy [CallInit; CallMalloc 1]).
  set (s2 := state_after roomy [CallInit; CallMalloc 1; CallMalloc 1]).
  assert (R1 : reachable s1).
  { apply (reach_call fresh s1 (CallMalloc 1) 8 4112 fresh_reachable);
      [cbn; lia | vm_compute; reflexivity]. }
  assert (R2 : reachable s2).
  { apply (reach_call s1 s2 (CallMalloc 1) 8 4128 R1);
      [cbn; lia | vm_compute; reflexivity]. }
  apply (reach_call s2 recycled (CallFree 4112) 8 0 R2); [|vm_compute; reflexivity].
  right. split; [vm_compute; discriminate|].
  exists 5%nat, [(4104, 8, 1); (4112, 16, 1); (4128, 16, 1); (4144, 224, 0)], 16.
  split; [vm_compute; reflexivity | cbn; tauto].
Qed.

(** The heap [recycled]: a free block of 16 bytes, a block in use of 16
    bytes and a free block of 224 bytes; the block freed last is the head
    of the free list. *)
Lemma recycled_wf : wf recycled [(16, false); (16, true); (224, false)] [4112; 4144].
Proof.
  assert (E : heap_listp recycled = 4104) by (vm_compute; reflexivity).
  constructor.
  - vm_compute. split; [reflexivity | discriminate].
  - vm_compute. split; [discriminate | reflexivity].
  - vm_compute. reflexivity.
  - repeat constructor; cbn [fst]; lia.
  - split; [|split].
    + split; vm_compute; reflexivity.
    + repeat constructor; vm_compute; reflexivity.
    + vm_compute. reflexivity.
  - rewrite E. intros a [<-|[<-|[]]]; eexists; cbn [located fst In]; eauto.
  - repeat constructor; cbn [In]; intuition lia.
  - rewrite E. cbn [dll off_hd]. repeat split; vm_compute; reflexivity.
  - vm_compute. reflexivity.
Qed.

Lemma recycled_live : live recycled 4128.
Proof.
  split; [vm_compute; discriminate|].
  exists 5%nat, [(4104, 8, 1); (4112, 16, 0); (4128, 16, 1); (4144, 224, 0)], 16.
  split; [vm_compute; reflexivity | cbn; tauto].
Qed.

(** ** The blocks in use, as the program reads them *)

Lemma in_use_header (s : state) (bs : list block) (fl : list Z) (x : Z) (b : block) :
  wf s bs fl -> In (x, b) (located (heap_listp s + 8) bs) ->
  GET_SIZE (mem s) (HDRP x) = fst b /\ GET_ALLOC (mem s) (HDRP x) = Z.b2z (snd b).
Proof.
  intros W Hin. destruct (wf_block _ _ _ W _ _ Hin) as (Hh & _ & _ & Hm & _).
  split; [apply (GET_SIZE_HDRP _ _ b) | apply (GET_ALLOC_HDRP _ _ b)]; assumption.
Qed.

Lemma same_but_untouched (X : Z -> Prop) (s s' : state) (bs bs' : list block)
      (fl fl' : list Z) (q : Z) :
  wf s bs fl -> wf s' bs' fl' -> heap_listp s' = heap_listp s ->
  same_but X s bs s' bs' -> ~ X q -> untouched s s' q.
Proof.
  intros W W' Hhl Hsame HX. split.
  - split; intros Hlive.
    + destruct (live_located _ _ _ _ W' Hlive) as [sz Hin]. rewrite Hhl in Hin.
      apply (located_live s bs fl q sz W). now apply (Hsame q sz HX).
    + destruct (live_located _ _ _ _ W Hlive) as [sz Hin].
      apply (located_live s' bs' fl' q sz W'). rewrite Hhl. now apply (Hsame q sz HX).
  - intros Hlive. destruct (live_located _ _ _ _ W Hlive) as [sz Hin].
    destruct (Hsame q sz HX) as [_ Hfwd]. destruct (Hfwd Hin) as [Hin' Hkept].
    rewrite <- Hhl in Hin'.
    destruct (in_use_header _ _ _ _ _ W Hin) as [-> _].
    destruct (in_use_header _ _ _ _ _ W' Hin') as [-> _]. cbn [fst].
    split; [reflexivity|]. intros a Ha. unfold byte_at, DSIZE in *. now rewrite Hkept.
Qed.

Lemma located_aligned (a x : Z) (b : block) (bs : list block) :
  Forall sized bs -> a mod 8 = 0 -> In (x, b) (located a bs) -> x mod 8 = 0.
Proof.
  intros Hs Ha Hin. destruct (In_located_split _ _ _ _ Hin) as (l1 & l2 & -> & ->).
  apply Forall_app in Hs. destruct Hs as [Hs1 _]. pose proof (total_mod8 _ Hs1).
  Z.div_mod_to_equations. lia.
Qed.

(** The value returned by a call on a concrete state. *)
Lemma run_observed (r : option (state * Z)) (q : Z) :
  match r with Some (_, p) => p = q | None => False end ->
  exists s', r = Some (s', q).
Proof.
  destruct r as [[s' p]|]; [|easy]. intros ->. now exists s'.
Qed.

(** What [coalesce] reads of the neighbours of a block. *)
Lemma neighbours_read (s : state) (l1 l2 : list block) (b : block) (fl : list Z) (a : Z) :
  wf s (l1 ++ b :: l2) fl -> a = heap_listp s + 8 + total l1 ->
  free_before s a = free_size (last l1 (0, true))
  /\ free_after s a = free_size (hd (0, true) l2).
Proof.
  intros W Ha.
  destruct (wf_prev _ _ _ _ _ _ W Ha) as (pb & Hplast & Hpf & Hph & Hpm & Hps & Hpfree).
  destruct (wf_next _ _ _ _ _ _ W Ha) as (nb & Hnhd & Hnh & Hnm & _).
  pose proof (wf_here _ _ l2 b _ Ha) as Hin.
  destruct (wf_block _ _ _ W _ _ Hin) as (Hh & _ & _ & Hm & _).
  unfold free_before, free_after.
  rewrite (PREV_BLKP_tagged _ _ pb Hpf Hpm).
  rewrite (FTRP_tagged (mem s) (a - fst pb) pb Hph Hpm).
  replace (a - fst pb + fst pb - 8) with (a - 8) by lia.
  rewrite (proj2 (tag_fields _ _ _ Hpm Hpf)).
  rewrite (GET_SIZE_HDRP _ (a - fst pb) pb Hph Hpm).
  rewrite (NEXT_BLKP_tagged _ _ b Hh Hm).
  rewrite (GET_ALLOC_HDRP _ (a + fst b) nb Hnh Hnm).
  rewrite (GET_SIZE_HDRP _ (a + fst b) nb Hnh Hnm).
  rewrite Hnhd. unfold free_size. split.
  - destruct pb as [psz [|]]; cbn [Z.b2z snd fst Z.eqb] in *.
    + now rewrite Hplast.
    + destruct Hpfree as (l1' & -> & _); [reflexivity|]. now rewrite last_snoc.
  - destruct nb as [nsz [|]]; reflexivity.
Qed.

(** ** First fit *)

Lemma find_fit_loop_first (s : state) (asize : Z) (fuel : nat) (l : list Z) (p r : Z) :
  dll (mem s) (heap_listp s) p l 0 ->
  (forall c, In c l -> c - heap_listp s <> 0) ->
  find_fit_loop fuel s (off_hd (heap_listp s) l 0) asize = Some r ->
  (r = 0 /\ forall c, In c l -> GET_SIZE (mem s) (HDRP c) < asize)
  \/ (exists l1 l2, l = l1 ++ r :: l2 /\ asize <= GET_SIZE (mem s) (HDRP r)
                    /\ forall c, In c l1 -> GET_SIZE (mem s) (HDRP c) < asize).
Proof.
  revert l p. induction fuel as [|fuel IH]; intros l p Hdl Hoff; cbn [find_fit_loop];
    [discriminate|].
  destruct l as [|a l']; cbn [off_hd].
  - cbn [Z.eqb]. intros Hr. injection Hr as <-. left. split; [reflexivity | intros c []].
  - cbn [dll] in Hdl. destruct Hdl as (_ & Hnext & Hdl).
    pose proof (Hoff a (or_introl eq_refl)) as Ha.
    replace (a - heap_listp s =? 0) with false by (symmetry; now apply Z.eqb_neq).
    unfold GET_ADDR, WSIZE. replace (heap_listp s + (a - heap_listp s)) with a by lia.
    destruct (GET_SIZE (mem s) (HDRP a) >=? asize) eqn:Hfit.
    + rewrite Z.geb_leb in Hfit. apply Z.leb_le in Hfit.
      intros Hr. injection Hr as <-. right. exists [], l'.
      split; [reflexivity|]. split; [assumption | intros c []].
    + rewrite Z.geb_leb in Hfit. apply Z.leb_gt in Hfit.
      rewrite Hnext. intros Hr.
      destruct (IH l' (a - heap_listp s) Hdl (fun c Hc => Hoff c (or_intror Hc)) Hr)
        as [[-> Hall]|(l1 & l2 & -> & Hsz & Hall)].
      * left. split; [reflexivity|]. intros c [<-|Hc]; [assumption | now apply Hall].
      * right. exists (a :: l1), l2. split; [reflexivity|]. split; [assumption|].
        intros c [<-|Hc]; [assumption | now apply Hall].
Qed.

Lemma find_fit_first (fuel : nat) (s : state) (bs : list block) (fl : list Z)
      (asize r : Z) :
  wf s bs fl ->
  find_fit fuel s asize = Some r ->
  (r = 0 /\ forall c, In c fl -> GET_SIZE (mem s) (HDRP c) < asize)
  \/ (exists l1 l2, fl = l1 ++ r :: l2 /\ asize <= GET_SIZE (mem s) (HDRP r)
                    /\ forall c, In c l1 -> GET_SIZE (mem s) (HDRP c) < asize).
Proof.
  intros W. unfold find_fit. rewrite (wf_head _ _ _ W).
  apply (find_fit_loop_first s asize fuel fl 0); [apply (wf_links _ _ _ W)|].
  intros c Hc. destruct (wf_free_offset _ _ _ W c Hc) as (? & _). lia.
Qed.

(** The head of the free list is returned when it fits. *)
Lemma find_fit_head (fuel : nat) (s : state) (bs : list block) (fl : list Z)
      (asize a r : Z) :
  wf s bs (a :: fl) -> asize <= GET_SIZE (mem s) (HDRP a) ->
  find_fit fuel s asize = Some r -> r = a.
Proof.
  intros W Hsz Hfit.
  destruct (find_fit_first fuel s bs (a :: fl) asize r W Hfit)
    as [[_ Hall]|(l1 & l2 & E & _ & Hall)].
  - specialize (Hall a (or_introl eq_refl)). lia.
  - destruct l1 as [|c l1]; cbn [app] in E; injection E as E _; [congruence|].
    subst c. specialize (Hall a (or_introl eq_refl)). lia.
Qed.

(** X10. First fit: on a well-formed heap [find_fit] returns the first block
    of the free list, in the order of the list, whose size is at least
    [asize]; that block is free; [NULL] is returned only when no block of
    the list is that large. *)
Theorem find_fit_first_fit (fuel : nat) (s : state) (bs : list block) (fl : list Z)
        (asize r : Z) :
  wf s bs fl ->
  find_fit fuel s asize = Some r ->
  (r = 0 /\ forall c, In c fl -> GET_SIZE (mem s) (HDRP c) < asize)
  \/ (exists l1 l2, fl = l1 ++ r :: l2
                    /\ GET_ALLOC (mem s) (HDRP r) = 0
                    /\ asize <= GET_SIZE (mem s) (HDRP r)
                    /\ forall c, In c l1 -> GET_SIZE (mem s) (HDRP c) < asize).
Proof.
  intros W Hfit.
  destruct (find_fit_first fuel s bs fl asize r W Hfit)
    as [H|(l1 & l2 & E & Hsz & Hall)]; [now left | right].
  exists l1, l2. split; [exact E|]. split; [|now split].
  assert (Hr : In r fl) by (rewrite E; apply in_or_app; right; now left).
  destruct (wf_free _ _ _ W r Hr) as [sz Hin].
  exact (proj2 (in_use_header _ _ _ _ _ W Hin)).
Qed.

Lemma find_fit_first_fit_witness :
  (4144 = 0 /\ forall c, In c [4112; 4144] -> GET_SIZE (mem recycled) (HDRP c) < 24)
  \/ (exists l1 l2, [4112; 4144] = l1 ++ 4144 :: l2
                    /\ GET_ALLOC (mem recycled) (HDRP 4144) = 0
                    /\ 24 <= GET_SIZE (mem recycled) (HDRP 4144)
                    /\ forall c, In c l1 -> GET_SIZE (mem recycled) (HDRP c) < 24).
Proof.
  apply (find_fit_first_fit 8 recycled _ _ 24 4144 recycled_wf).
  vm_compute. reflexivity.
Defined.

Lemma walk_free_located (s : state) (bs : list block) (fl : list Z)
      (fuel : nat) (l : list (Z * Z * Z)) (x sz : Z) :
  wf s bs fl -> heap_blocks fuel (mem s) (heap_listp s) = Some l -> In (x, sz, 0) l ->
  In (x, (sz, false)) (located (heap_listp s + 8) bs).
Proof.
  intros W Hwalk Hin.
  pose proof (wf_heap_blocks s bs fl (Nat.max fuel (S (S (length bs)))) W) as H1.
  rewrite (heap_blocks_mono fuel _ _ _ _ Hwalk) in H1 by lia.
  specialize (H1 ltac:(lia)). injection H1 as ->.
  cbn [located map fst] in Hin. destruct Hin as [Hv|Hin].
  - unfold block_view in Hv. cbn [fst snd] in Hv. discriminate.
  - apply in_map_iff in Hin. destruct Hin as ([y [sz' al]] & Hv & Hin).
    unfold block_view in Hv. cbn [fst snd] in Hv. injection Hv as -> -> Hal.
    destruct al; [discriminate | assumption].
Qed.


(** ** [malloc], as its caller sees it *)

(** X6. On a well-formed heap, a call of [malloc] for [n] bytes that does
    not return [NULL] returns a block that was not in use and now is: its
    header has the allocated bit, its size is at least [n] plus the eight
    bytes of the two tags and less than the adjusted size plus sixteen (a
    rest of sixteen bytes or more is split off), it lies inside the heap
    after the prologue, and it is aligned on eight bytes when the heap
    is.  The heap is well formed again. *)
Theorem malloc_new_block (fuel : nat) (s s' : state) (n p : Z) :
  heap_ok s -> 0 < n -> n + 15 < 2 ^ 64 ->
  malloc fuel s n = Some (s', p) -> p <> 0 ->
  heap_ok s'
  /\ live s' p /\ ~ live s p
  /\ GET_ALLOC (mem s') (HDRP p) = 1
  /\ n + DSIZE <= GET_SIZE (mem s') (HDRP p) < adjust n + 2 * DSIZE
  /\ heap_listp s' + DSIZE <= p
  /\ p + GET_SIZE (mem s') (HDRP p) <= mem_heap_lo s' + mem_heapsize s'
  /\ (heap_listp s mod 8 = 0 -> p mod 8 = 0).
Proof.
  intros (bs & fl & W & Hl & Hn) Hn0 Hb Hrun Hp.
  destruct (malloc_exact fuel s s' bs fl n p W Hl Hn Hn0 Hb Hrun)
    as (bs' & fl' & W' & Hl' & Hn' & Hhl & Hnew & _).
  destruct (Hnew Hp) as ((sz' & Hin' & Hsz1 & Hsz2) & Hfresh).
  destruct (adjust_bounds n Hn0 Hb) as (_ & Hmin & _).
  rewrite <- Hhl in Hin', Hl'.
  destruct (in_use_header _ _ _ _ _ W' Hin') as [Hsize Halloc]. cbn [fst snd] in *.
  destruct (wf_block _ _ _ W' _ _ Hin') as (_ & _ & _ & _ & Hlo & Hhi). cbn [fst] in *.
  unfold DSIZE, mem_heap_lo, mem_heapsize. rewrite Hsize.
  split; [now exists bs', fl'|].
  split; [exact (located_live _ _ _ _ _ W' Hin')|].
  split.
  { intros Hc. destruct (live_located _ _ _ _ W Hc) as [sz Hc']. exact (Hfresh _ Hc'). }
  split; [exact Halloc|].
  split; [lia|]. split; [lia|]. split; [lia|].
  intros Hal. rewrite <- Hhl in Hal.
  apply (located_aligned _ _ _ _ (wf_sized _ _ _ W')) in Hin'; [assumption|].
  Z.div_mod_to_equations. lia.
Qed.

Lemma malloc_new_block_witness :
  exists s', malloc 8 one_live 24 = Some (s', 4224)
  /\ heap_ok s'
  /\ live s' 4224 /\ ~ live one_live 4224
  /\ GET_ALLOC (mem s') (HDRP 4224) = 1
  /\ 24 + DSIZE <= GET_SIZE (mem s') (HDRP 4224) < adjust 24 + 2 * DSIZE
  /\ heap_listp s' + DSIZE <= 4224
  /\ 4224 + GET_SIZE (mem s') (HDRP 4224) <= mem_heap_lo s' + mem_heapsize s'
  /\ (heap_listp one_live mod 8 = 0 -> 4224 mod 8 = 0).
Proof.
  destruct (run_observed (malloc 8 one_live 24) 4224) as [s' E]; [vm_compute; reflexivity|].
  exists s'. split; [exact E|].
  apply (malloc_new_block 8 one_live s' 24 4224
           (reachable_heap_ok one_live one_live_reachable)); [lia | lia | exact E | lia].
Defined.

(** X7. [malloc] leaves the other blocks alone: every block but the one
    returned is in use after the call exactly when it was before, with the
    same size and the same bytes in its payload; and the block returned
    does not overlap any block that was in use. *)
Theorem malloc_keeps_other_blocks (fuel : nat) (s s' : state) (n p : Z) :
  heap_ok s -> 0 < n -> n + 15 < 2 ^ 64 ->
  malloc fuel s n = Some (s', p) ->
  (forall q, q <> p -> untouched s s' q)
  /\ (forall q, live s q ->
        q <> p
        /\ (p <> 0 ->
            q + GET_SIZE (mem s) (HDRP q) <= p
            \/ p + GET_SIZE (mem s') (HDRP p) <= q)).
Proof.
  intros (bs & fl & W & Hl & Hn) Hn0 Hb Hrun.
  destruct (malloc_exact fuel s s' bs fl n p W Hl Hn Hn0 Hb Hrun)
    as (bs' & fl' & W' & Hl' & Hn' & Hhl & Hnew & Hsame & _).
  split.
  - intros q Hq. exact (same_but_untouched _ _ _ _ _ _ _ q W W' Hhl Hsame Hq).
  - intros q Hlive. destruct (live_located _ _ _ _ W Hlive) as [sz Hin].
    assert (Hne : q <> p).
    { intros ->. destruct (Z.eq_dec p 0) as [->|Hp].
      - pose proof (in_use_positive _ _ _ _ _ W Hin). lia.
      - destruct (Hnew Hp) as [_ Hfresh]. exact (Hfresh _ Hin). }
    split; [exact Hne|]. intros Hp.
    destruct (Hnew Hp) as ((sz' & Hin' & _) & _).
    destruct (Hsame q sz Hne) as [_ Hfwd]. destruct (Hfwd Hin) as [Hq' _].
    destruct (in_use_header _ _ _ _ _ W Hin) as [-> _].
    rewrite <- Hhl in Hin', Hq'.
    destruct (in_use_header _ _ _ _ _ W' Hin') as [-> _]. cbn [fst].
    destruct (located_disjoint _ _ _ _ _ _ (wf_sized _ _ _ W') Hq' Hin') as [[E _]|[?|?]];
      cbn [fst] in *; [contradiction | now left | now right].
Qed.

Lemma malloc_keeps_other_blocks_witness :
  exists s', malloc 8 one_live 24 = Some (s', 4224)
  /\ (forall q, q <> 4224 -> untouched one_live s' q)
  /\ (forall q, live one_live q ->
        q <> 4224
        /\ (4224 <> 0 ->
            q + GET_SIZE (mem one_live) (HDRP q) <= 4224
            \/ 4224 + GET_SIZE (mem s') (HDRP 4224) <= q)).
Proof.
  destruct (run_observed (malloc 8 one_live 24) 4224) as [s' E]; [vm_compute; reflexivity|].
  exists s'. split; [exact E|].
  apply (malloc_keeps_other_blocks 8 one_live s' 24 4224
           (reachable_heap_ok one_live one_live_reachable)); [lia | lia | exact E].
Defined.

(** X8. On a well-formed heap, [malloc] returns [NULL] for a request of
    [n > 0] bytes only when the provider refuses to extend the heap by
    [MAX (adjust n) CHUNKSIZE] bytes and no free block of the heap is as
    large as the adjusted size. *)
Theorem malloc_fails_only_when_exhausted (fuel : nat) (s s' : state) (n : Z) :
  heap_ok s -> 0 < n -> n + 15 < 2 ^ 64 ->
  malloc fuel s n = Some (s', 0) ->
  sbrk_fits s (MAX (adjust n) CHUNKSIZE) = false
  /\ (forall fuel' l x sz,
        heap_blocks fuel' (mem s) (heap_listp s) = Some l -> In (x, sz, 0) l ->
        sz < adjust n).
Proof.
  intros (bs & fl & W & Hl & Hn) Hn0 Hb Hrun.
  destruct (malloc_exact fuel s s' bs fl n 0 W Hl Hn Hn0 Hb Hrun)
    as (bs' & fl' & _ & _ & _ & _ & _ & _ & Hnull).
  destruct (Hnull eq_refl) as [Hfit Hsbrk]. split; [exact Hsbrk|].
  intros fuel' l x sz Hwalk Hin.
  pose proof (walk_free_located _ _ _ _ _ _ _ W Hwalk Hin) as Hx.
  destruct (in_use_header _ _ _ _ _ W Hx) as [Hsz _]. cbn [fst] in Hsz.
  destruct (find_fit_first fuel s bs fl (adjust n) 0 W Hfit)
    as [[_ Hall]|(l1 & l2 & E & _)].
  - rewrite <- Hsz. apply Hall. exact (Hl _ _ Hx).
  - exfalso. assert (Hc : In 0 fl) by (rewrite E; apply in_or_app; right; now left).
    destruct (wf_free_block _ _ _ W 0 Hc) as (? & _ & _ & ? & _).
    destruct (wf_lo _ _ _ W). lia.
Qed.

Lemma malloc_fails_only_when_exhausted_witness :
  exists s', malloc 8 tight_full 1000 = Some (s', 0)
  /\ sbrk_fits tight_full (MAX (adjust 1000) CHUNKSIZE) = false
  /\ (forall fuel' l x sz,
        heap_blocks fuel' (mem tight_full) (heap_listp tight_full) = Some l ->
        In (x, sz, 0) l -> sz < adjust 1000).
Proof.
  destruct (run_observed (malloc 8 tight_full 1000) 0) as [s' E]; [vm_compute; reflexivity|].
  exists s'. split; [exact E|].
  apply (malloc_fails_only_when_exhausted 8 tight_full s' 1000
           (reachable_heap_ok tight_full tight_full_reachable)); [lia | lia | exact E].
Defined.

(** X11. The split rule of [place], on the block that [find_fit] returns
    for [asize]: the block becomes a block in use; when the rest is at
    least sixteen bytes the block keeps [asize] bytes and the rest becomes a
    free block, which is the new head of the free list; otherwise the block
    keeps its size.  The heap is well formed again and the other blocks are
    as they were. *)
Theorem place_splits (fuel : nat) (s : state) (asize bp : Z) :
  heap_ok s -> 2 * DSIZE <= asize -> asize mod 8 = 0 ->
  find_fit fuel s asize = Some bp -> bp <> 0 ->
  let c := GET_SIZE (mem s) (HDRP bp) in
  let s' := place s bp asize in
  heap_ok s'
  /\ GET_ALLOC (mem s') (HDRP bp) = 1
  /\ (2 * DSIZE <= c - asize ->
      GET_SIZE (mem s') (HDRP bp) = asize
      /\ GET_ALLOC (mem s') (HDRP (bp + asize)) = 0
      /\ GET_SIZE (mem s') (HDRP (bp + asize)) = c - asize
      /\ GET_ADDR s' (freelist s') = bp + asize)
  /\ (c - asize < 2 * DSIZE -> GET_SIZE (mem s') (HDRP bp) = c)
  /\ (forall q, q <> bp -> untouched s s' q).
Proof.
  intros (bs & fl & W & Hl & Hn) Ha16 Ham Hfit Hbp. cbv zeta. unfold DSIZE in *.
  destruct (find_fit_sound s bs fl asize W fuel bp Hfit) as [?|(Hin & c & Hblk & Hc)];
    [contradiction|].
  destruct (in_use_header _ _ _ _ _ W Hblk) as [-> _]. cbn [fst].
  destruct (place_exact s bs fl bp c asize W Hl Hn Hin Hblk)
    as (bs' & fl' & sz' & W' & Hl' & Hn' & Hhl & Hin' & _ & _ & Hexact & Hrest & Hsame);
    [lia | assumption |].
  rewrite <- Hhl in Hin', Hl'.
  destruct (in_use_header _ _ _ _ _ W' Hin') as [Hsize Halloc]. cbn [fst snd Z.b2z] in *.
  split; [exists bs', fl'; split; [exact W'|]; split; assumption|].
  split; [exact Halloc|]. split; [|split].
  - intros Hsplit. destruct (Hrest Hsplit) as [Hr Hhd]. rewrite <- Hhl in Hr.
    destruct (in_use_header _ _ _ _ _ W' Hr) as [Hrs Hra]. cbn [fst snd Z.b2z] in *.
    rewrite Hsize, Hexact. rewrite geb_true by lia.
    split; [reflexivity|]. split; [exact Hra|]. split; [exact Hrs|].
    rewrite (wf_head _ _ _ W'). destruct fl' as [|x r]; [exact (False_ind _ (Hl' _ _ Hr))|].
    cbn [hd] in Hhd. subst x. cbn [off_hd]. unfold GET_ADDR. lia.
  - intros Hno. rewrite Hsize, Hexact. now rewrite geb_false by lia.
  - intros q Hq. exact (same_but_untouched _ _ _ _ _ _ _ q W W' Hhl Hsame Hq).
Qed.

Lemma place_splits_witness :
  let c := GET_SIZE (mem recycled) (HDRP 4144) in
  let s' := place recycled 4144 24 in
  heap_ok s'
  /\ GET_ALLOC (mem s') (HDRP 4144) = 1
  /\ (2 * DSIZE <= c - 24 ->
      GET_SIZE (mem s') (HDRP 4144) = 24
      /\ GET_ALLOC (mem s') (HDRP (4144 + 24)) = 0
      /\ GET_SIZE (mem s') (HDRP (4144 + 24)) = c - 24
      /\ GET_ADDR s' (freelist s') = 4144 + 24)
  /\ (c - 24 < 2 * DSIZE -> GET_SIZE (mem s') (HDRP 4144) = c)
  /\ (forall q, q <> 4144 -> untouched recycled s' q).
Proof.
  apply (place_splits 8 recycled 24 4144 (reachable_heap_ok recycled recycled_reachable));
    [vm_compute; discriminate | reflexivity | vm_compute; reflexivity | lia].
Defined.

(** X2. When the provider serves the request, [extend_heap] grows the heap
    by exactly [size] bytes and returns a free block of at least [size]
    bytes (more when the last block was free: the two are merged) that
    ends where the heap now ends and is the head of the free list; the
    heap is well formed and no block in use is touched. *)
Theorem extend_heap_grows (s : state) (size : Z) :
  heap_ok s -> 2 * DSIZE <= size -> size mod 8 = 0 -> sbrk_fits s size = true ->
  let s' := fst (extend_heap s (size / WSIZE)) in
  let bp := snd (extend_heap s (size / WSIZE)) in
  heap_ok s'
  /\ mem_heapsize s' = mem_heapsize s + size
  /\ GET_ALLOC (mem s') (HDRP bp) = 0
  /\ size <= GET_SIZE (mem s') (HDRP bp)
  /\ bp + GET_SIZE (mem s') (HDRP bp) = mem_heap_lo s' + mem_heapsize s'
  /\ GET_ADDR s' (freelist s') = bp
  /\ (forall q, untouched s s' q).
Proof.
  intros (bs & fl & W & Hl & Hn) Hs16 Hsm Hfits. cbv zeta. unfold DSIZE in *.
  destruct (extend_heap_exact s bs fl size W Hl Hn Hs16 Hsm Hfits)
    as (bs' & fl' & sz' & W' & Hl' & Hn' & Hhl & Hin & Hb & Hsz & _ & Hsame & Hhd & Hend
        & _ & Hbrk & _ & Hlo & _).
  destruct (extend_heap s (size / WSIZE)) as [s' bp]. cbn [fst snd] in *.
  rewrite <- Hhl in Hb, Hl'.
  destruct (in_use_header _ _ _ _ _ W' Hb) as [Hsize Halloc]. cbn [fst snd Z.b2z] in *.
  unfold mem_heapsize, mem_heap_lo. rewrite Hsize.
  split; [exists bs', fl'; split; [exact W'|]; split; assumption|].
  split; [exact Hbrk|]. split; [exact Halloc|]. split; [exact Hsz|].
  split; [lia|]. split.
  - rewrite (wf_head _ _ _ W'). destruct fl' as [|x r]; [destruct Hin|].
    cbn [hd] in Hhd. subst x. cbn [off_hd]. unfold GET_ADDR. lia.
  - intros q. apply (same_but_untouched _ _ _ _ _ _ _ q W W' Hhl Hsame). tauto.
Qed.

Lemma extend_heap_grows_witness :
  let s' := fst (extend_heap one_live (1024 / WSIZE)) in
  let bp := snd (extend_heap one_live (1024 / WSIZE)) in
  heap_ok s'
  /\ mem_heapsize s' = mem_heapsize one_live + 1024
  /\ GET_ALLOC (mem s') (HDRP bp) = 0
  /\ 1024 <= GET_SIZE (mem s') (HDRP bp)
  /\ bp + GET_SIZE (mem s') (HDRP bp) = mem_heap_lo s' + mem_heapsize s'
  /\ GET_ADDR s' (freelist s') = bp
  /\ (forall q, untouched one_live s' q).
Proof.
  apply (extend_heap_grows one_live 1024 (reachable_heap_ok one_live one_live_reachable));
    [vm_compute; discriminate | reflexivity | vm_compute; reflexivity].
Defined.

(** X14. On a well-formed heap, a call of [calloc] that does not return
    [NULL] returns a block that was not in use and now is, with room for
    the product of the two numbers (computed in [size_t]), whose first bytes,
    as many as that product, are zero; the heap is well formed again and
    the other blocks are as they were. *)
Theorem calloc_gives_zeroed_block (fuel : nat) (s s' : state) (nmemb size p : Z) :
  heap_ok s -> wrap64 (nmemb * size) + 15 < 2 ^ 64 ->
  calloc fuel s nmemb size = Some (s', p) -> p <> 0 ->
  heap_ok s'
  /\ live s' p /\ ~ live s p
  /\ wrap64 (nmemb * size) + DSIZE <= GET_SIZE (mem s') (HDRP p)
  /\ (forall a, p <= a < p + wrap64 (nmemb * size) -> byte_at (mem s') a = 0)
  /\ (forall q, q <> p -> untouched s s' q).
Proof.
  intros (bs & fl & W & Hl & Hn) Hb Hrun Hp.
  destruct (calloc_exact fuel s s' bs fl nmemb size p W Hl Hn Hb Hrun)
    as (bs' & fl' & W' & Hl' & Hn' & Hhl & Hnew & Hsame & Hzero).
  destruct (Hnew Hp) as ((sz' & Hin' & Hsz1 & _) & Hfresh).
  assert (Hpos : 0 < wrap64 (nmemb * size)).
  { pose proof (wrap64_range (nmemb * size)).
    destruct (Z.eq_dec (wrap64 (nmemb * size)) 0) as [E|E]; [|lia].
    unfold calloc in Hrun. rewrite E in Hrun. cbn in Hrun. injection Hrun as _ Hc.
    now contradiction Hp. }
  destruct (adjust_bounds _ Hpos Hb) as (_ & Hmin & _).
  rewrite <- Hhl in Hin'.
  destruct (in_use_header _ _ _ _ _ W' Hin') as [-> _]. cbn [fst]. unfold DSIZE.
  split.
  { exists bs', fl'. rewrite Hhl. split; [exact W'|]. split; [exact Hl' | exact Hn']. }
  split; [exact (located_live _ _ _ _ _ W' Hin')|].
  split.
  { intros Hc. destruct (live_located _ _ _ _ W Hc) as [sz Hc']. exact (Hfresh _ Hc'). }
  split; [lia|]. split.
  - intros a Ha. unfold byte_at. now rewrite (Hzero Hp a Ha).
  - intros q Hq. exact (same_but_untouched _ _ _ _ _ _ _ q W W' Hhl Hsame Hq).
Qed.

Lemma calloc_gives_zeroed_block_witness :
  exists s', calloc 8 one_live 3 8 = Some (s', 4224)
  /\ heap_ok s'
  /\ live s' 4224 /\ ~ live one_live 4224
  /\ wrap64 (3 * 8) + DSIZE <= GET_SIZE (mem s') (HDRP 4224)
  /\ (forall a, 4224 <= a < 4224 + wrap64 (3 * 8) -> byte_at (mem s') a = 0)
  /\ (forall q, q <> 4224 -> untouched one_live s' q).
Proof.
  destruct (run_observed (calloc 8 one_live 3 8) 4224) as [s' E];
    [vm_compute; reflexivity|].
  exists s'. split; [exact E|].
  apply (calloc_gives_zeroed_block 8 one_live s' 3 8 4224
           (reachable_heap_ok one_live one_live_reachable));
    [vm_compute; reflexivity | exact E | lia].
Defined.

(** ** [free], as its caller sees it *)

(** X3. On a well-formed heap, [free] of a block in use leaves a well-formed
    heap in which that block is no longer in use; the provider is not
    called and the heap keeps its size; every other block is in use after
    the call exactly when it was before, with the same size and the same
    bytes in its payload. *)
Theorem free_releases_block (s : state) (bp : Z) :
  heap_ok s -> live s bp ->
  heap_ok (free s bp)
  /\ ~ live (free s bp) bp
  /\ same_provider s (free s bp)
  /\ (forall q, q <> bp -> untouched s (free s bp) q).
Proof.
  intros (bs & fl & W & Hl & Hn) Hlive.
  destruct (live_located _ _ _ _ W Hlive) as [sz Hin].
  destruct (In_located_split _ _ _ _ Hin) as (l1 & l2 & E & Ha). subst bs.
  destruct (free_exact s l1 l2 fl bp sz W Hl Hn Ha)
    as (l1' & l2' & fl' & bp' & sz' & W' & Hl' & Hn' & Hhl & Hsame & Hbp' & Hat & Hsum).
  pose proof (wf_sized _ _ _ W) as Hs. apply Forall_app in Hs.
  destruct Hs as [Hs1 Hs2]. pose proof (Forall_inv Hs2) as [Hsz _].
  pose proof (Forall_inv_tail Hs2) as Hs2'. cbn [fst] in Hsz.
  pose proof (free_size_last _ Hs1). pose proof (free_size_hd _ Hs2').
  split.
  { exists (l1' ++ (sz', false) :: l2'), (bp' :: fl'). rewrite Hhl.
    split; [exact W'|]. split; [exact Hl' | exact Hn']. }
  split.
  { intros Hc. destruct (live_located _ _ _ _ W' Hc) as [sz0 Hc']. revert Hc'.
    apply (inside_free_not_in_use _ _ _ bp' sz'); [apply (wf_sized _ _ _ W') | | lia].
    rewrite Hhl, Hbp'. apply In_located_mid. }
  split; [apply free_provider|].
  intros q Hq. exact (same_but_untouched _ _ _ _ _ _ _ q W W' Hhl Hsame Hq).
Qed.

Lemma free_releases_block_witness :
  heap_ok (free one_live 4112)
  /\ ~ live (free one_live 4112) 4112
  /\ same_provider one_live (free one_live 4112)
  /\ (forall q, q <> 4112 -> untouched one_live (free one_live 4112) q).
Proof.
  exact (free_releases_block one_live 4112
           (reachable_heap_ok one_live one_live_reachable) one_live_live).
Defined.

(** X4. Coalescing is immediate and complete: after [free] of a block in
    use, the head of the free list is the free block that starts
    [free_before] bytes before it and spans the free block before, the block
    itself and the free block after ([free_before] and [free_after] are zero
    for a neighbour in use); its footer equals its header, and its own
    neighbours are both in use. *)
Theorem free_coalesces (s : state) (bp : Z) :
  heap_ok s -> live s bp ->
  let s' := free s bp in
  let a := bp - free_before s bp in
  GET_ADDR s' (freelist s') = a
  /\ GET_ALLOC (mem s') (HDRP a) = 0
  /\ GET_SIZE (mem s') (HDRP a)
     = free_before s bp + GET_SIZE (mem s) (HDRP bp) + free_after s bp
  /\ GET (mem s') (FTRP (mem s') a) = GET (mem s') (HDRP a)
  /\ free_before s' a = 0 /\ free_after s' a = 0.
Proof.
  intros (bs & fl & W & Hl & Hn) Hlive. cbv zeta.
  destruct (live_located _ _ _ _ W Hlive) as [sz Hin].
  destruct (In_located_split _ _ _ _ Hin) as (l1 & l2 & E & Ha). subst bs.
  destruct (free_exact s l1 l2 fl bp sz W Hl Hn Ha)
    as (l1' & l2' & fl' & bp' & sz' & W' & Hl' & Hn' & Hhl & Hsame & Hbp' & Hat & Hsum).
  destruct (neighbours_read s l1 l2 (sz, true) fl bp W Ha) as [-> ->].
  destruct (in_use_header _ _ _ _ _ W Hin) as [-> _]. cbn [fst].
  rewrite <- Hat.
  assert (Hbp'' : bp' = heap_listp (free s bp) + 8 + total l1') by (now rewrite Hhl).
  pose proof (wf_here _ _ l2' (sz', false) _ Hbp'') as Hin'.
  destruct (in_use_header _ _ _ _ _ W' Hin') as [Hsize Halloc]. cbn [fst snd Z.b2z] in *.
  destruct (wf_block _ _ _ W' _ _ Hin') as (Hh & Hf & _ & Hm & _). cbn [fst] in *.
  destruct (neighbours_read _ l1' l2' (sz', false) _ bp' W' Hbp'') as [Hb Ha'].
  apply naf_app in Hn'. destruct Hn' as (_ & Hn2 & Hn3). apply naf_cons in Hn2.
  cbn [hd snd] in Hn3. destruct Hn3 as [Hn3|?]; [|discriminate].
  destruct Hn2 as [[?|Hn4] _]; [discriminate|].
  split.
  { rewrite (wf_head _ _ _ W'). cbn [off_hd]. unfold GET_ADDR. lia. }
  split; [exact Halloc|]. split; [lia|].
  split.
  { rewrite (FTRP_tagged _ _ (sz', false) Hh Hm). cbn [fst]. unfold HDRP, WSIZE. congruence. }
  split.
  - rewrite Hb. unfold free_size. now rewrite Hn3.
  - rewrite Ha'. unfold free_size. now rewrite Hn4.
Qed.

Lemma free_coalesces_witness :
  let s' := free one_live 4112 in
  let a := 4112 - free_before one_live 4112 in
  GET_ADDR s' (freelist s') = a
  /\ GET_ALLOC (mem s') (HDRP a) = 0
  /\ GET_SIZE (mem s') (HDRP a)
     = free_before one_live 4112 + GET_SIZE (mem one_live) (HDRP 4112)
       + free_after one_live 4112
  /\ GET (mem s') (FTRP (mem s') a) = GET (mem s') (HDRP a)
  /\ free_before s' a = 0 /\ free_after s' a = 0.
Proof.
  exact (free_coalesces one_live 4112
           (reachable_heap_ok one_live one_live_reachable) one_live_live).
Defined.

(** X9. Memory is reused, last freed first: right after [free] of a block
    in use, a request of [n] bytes, [n > 0] and small enough for its
    adjusted size not to wrap around, that the block could hold returns,
    and is served from that block (from the free block it was merged into,
    which starts [free_before] bytes before it), without a call of the
    provider. *)
Theorem free_then_malloc_reuses (s : state) (bp n : Z) :
  heap_ok s -> live s bp ->
  0 < n -> n + 15 < 2 ^ 64 -> adjust n <= GET_SIZE (mem s) (HDRP bp) ->
  exists fuel0, forall fuel, (fuel0 <= fuel)%nat ->
    exists s',
      malloc fuel (free s bp) n = Some (s', bp - free_before s bp)
      /\ same_provider s s'
      /\ live s' (bp - free_before s bp).
Proof.
  intros (bs & fl & W & Hl & Hn) Hlive Hn0 Hb Hfits.
  destruct (live_located _ _ _ _ W Hlive) as [sz Hin].
  destruct (In_located_split _ _ _ _ Hin) as (l1 & l2 & E & Ha). subst bs.
  destruct (free_exact s l1 l2 fl bp sz W Hl Hn Ha)
    as (l1' & l2' & fl' & bp' & sz' & W' & Hl' & Hn' & Hhl & Hsame & Hbp' & Hat & Hsum).
  destruct (neighbours_read s l1 l2 (sz, true) fl bp W Ha) as [Hbefore _].
  destruct (in_use_header _ _ _ _ _ W Hin) as [Hsz _]. cbn [fst] in Hsz.
  rewrite Hsz in Hfits. rewrite Hbefore, <- Hat.
  pose proof (wf_sized _ _ _ W) as Hs. apply Forall_app in Hs.
  destruct Hs as [Hs1 Hs2]. pose proof (Forall_inv_tail Hs2) as Hs2'.
  pose proof (free_size_last _ Hs1). pose proof (free_size_hd _ Hs2').
  assert (Hbp'' : bp' = heap_listp (free s bp) + 8 + total l1') by (now rewrite Hhl).
  pose proof (wf_here _ _ l2' (sz', false) _ Hbp'') as Hin'.
  destruct (in_use_header _ _ _ _ _ W' Hin') as [Hsize _]. cbn [fst] in Hsize.
  exists (S (length (bp' :: fl'))). intros fuel Hfuel.
  destruct (malloc_total fuel _ _ _ n W') as [[s' p] Hrun]; [lia|].
  assert (Hp : p = bp' /\ s' = place (free s bp) bp' (adjust n)).
  { unfold malloc in Hrun. replace (n =? 0) with false in Hrun by eqb_false.
    destruct (find_fit fuel (free s bp) (adjust n)) as [r|] eqn:Hfit; [|discriminate].
    assert (r = bp') by (apply (find_fit_head fuel _ _ fl' (adjust n) bp' r W'); [lia | exact Hfit]).
    subst r. destruct (wf_lo _ _ _ W'). destruct (wf_block _ _ _ W' _ _ Hin') as (_ & _ & _ & _ & ? & _).
    replace (bp' =? 0) with false in Hrun by eqb_false. cbn [negb] in Hrun.
    injection Hrun as <- <-. now split. }
  destruct Hp as [-> Hs'].
  exists s'. split; [exact Hrun|]. split.
  - rewrite Hs'.
    apply (same_provider_trans _ (free s bp)); [apply free_provider | apply place_provider].
  - rewrite <- Hhl in Hl'.
    destruct (malloc_exact fuel (free s bp) _ _ _ n bp' W' Hl' Hn' Hn0 Hb Hrun)
      as (bs2 & fl2 & W2 & _ & _ & Hhl2 & Hnew & _).
    destruct (wf_lo _ _ _ W'). destruct (wf_block _ _ _ W' _ _ Hin') as (_ & _ & _ & _ & ? & _).
    destruct Hnew as ((sz2 & Hin2 & _) & _); [lia|].
    rewrite <- Hhl2 in Hin2. exact (located_live _ _ _ _ _ W2 Hin2).
Qed.

Lemma free_then_malloc_reuses_witness :
  exists fuel0, forall fuel, (fuel0 <= fuel)%nat ->
    exists s',
      malloc fuel (free one_live 4112) 50 = Some (s', 4112 - free_before one_live 4112)
      /\ same_provider one_live s'
      /\ live s' (4112 - free_before one_live 4112).
Proof.
  apply (free_then_malloc_reuses one_live 4112 50
           (reachable_heap_ok one_live one_live_reachable) one_live_live);
    [lia | lia | vm_compute; discriminate].
Defined.

(** X5. The free list is a stack: [addToFreeList] makes a free block that
    is not on the list its head, and [removeFromFreeList] of that block
    gives back the list as it was, head included. *)
Theorem free_list_push_pop (s : state) (bs : list block) (fl : list Z) (bp sz : Z) :
  wf s bs fl ->
  In (bp, (sz, false)) (located (heap_listp s + 8) bs) -> ~ In bp fl ->
  wf (addToFreeList s bp) bs (bp :: fl)
  /\ GET_ADDR (addToFreeList s bp) (freelist (addToFreeList s bp)) = bp
  /\ wf (removeFromFreeList (addToFreeList s bp) bp) bs fl
  /\ freelist (removeFromFreeList (addToFreeList s bp) bp) = freelist s.
Proof.
  intros W Hin Hnot.
  destruct (addToFreeList_wf s bs fl bp sz W Hin Hnot) as [W1 Hhl1].
  destruct (removeFromFreeList_wf (addToFreeList s bp) bs [] fl bp W1) as [W2 Hhl2].
  cbn [app] in W2.
  split; [exact W1|]. split; [|split; [exact W2|]].
  - rewrite (wf_head _ _ _ W1). cbn [off_hd]. unfold GET_ADDR. lia.
  - rewrite (wf_head _ _ _ W2), (wf_head _ _ _ W). now rewrite Hhl2, Hhl1.
Qed.

Lemma unlisted_wf :
  wf (removeFromFreeList recycled 4112) [(16, false); (16, true); (224, false)] [4144].
Proof. exact (proj1 (removeFromFreeList_wf recycled _ [] [4144] 4112 recycled_wf)). Qed.

Lemma free_list_push_pop_witness :
  let s := removeFromFreeList recycled 4112 in
  wf (addToFreeList s 4112) [(16, false); (16, true); (224, false)] [4112; 4144]
  /\ GET_ADDR (addToFreeList s 4112) (freelist (addToFreeList s 4112)) = 4112
  /\ wf (removeFromFreeList (addToFreeList s 4112) 4112)
        [(16, false); (16, true); (224, false)] [4144]
  /\ freelist (removeFromFreeList (addToFreeList s 4112) 4112) = freelist s.
Proof.
  apply (free_list_push_pop _ _ _ 4112 16 unlisted_wf).
  - left. vm_compute. reflexivity.
  - intros [H|[]]. discriminate.
Defined.
(** ** [realloc] with the size the block already has *)

Lemma keep_range (old n : Z) :
  0 < n -> n + 15 < 2 ^ 64 -> 0 <= old < 2 ^ 32 -> old mod 8 = 0 ->
  (old - 23 <= n <= old - DSIZE
   <-> ALIGN n <= old /\ wrap64 (old - ALIGN n) < 2 * DSIZE).
Proof.
  intros Hn Hb Ho Hm. pose proof (ALIGN_bounds n ltac:(lia)) as Ha.
  destruct (ALIGN_range n) as [_ Ham]. unfold DSIZE.
  change (2 ^ 32) with 4294967296 in *. change (2 ^ 64) with 18446744073709551616 in *.
  split.
  - intros Hr. assert (ALIGN n <= old) by (Z.div_mod_to_equations; lia).
    split; [assumption|]. rewrite wrap64_small by (change (2 ^ 64) with 18446744073709551616; lia).
    Z.div_mod_to_equations; lia.
  - intros [H1 H2]. rewrite wrap64_small in H2 by (change (2 ^ 64) with 18446744073709551616; lia).
    Z.div_mod_to_equations; lia.
Qed.

(** C8. [realloc] of a block to [n > 0] bytes leaves by its [return ptr]
    that changes nothing exactly when [n] is between the size in the
    header of the block less 23 and that size less 8; the state is then
    the same and the pointer returned is [ptr].  This is so for the size
    of the payload (the size in the header less the two tags), and for the
    size with which [malloc] was asked for the block.  For a larger [n],
    and so for the size in the header itself, [realloc] on a well-formed
    heap takes the branch that calls [malloc] and never returns [ptr]. *)
Theorem realloc_same_size (fuel : nat) (s : state) (p n : Z) :
  p <> 0 -> 0 < n -> n + 15 < 2 ^ 64 ->
  (GET_SIZE (mem s) (HDRP p) - 23 <= n <= GET_SIZE (mem s) (HDRP p) - DSIZE
   <-> realloc_run fuel s p n = Some (s, p, ExitKeep))
  /\ (GET_SIZE (mem s) (HDRP p) - 23 <= n <= GET_SIZE (mem s) (HDRP p) - DSIZE ->
      realloc fuel s p n = Some (s, p))
  /\ (forall fuel0 s0, heap_ok s0 -> malloc fuel0 s0 n = Some (s, p) ->
      realloc fuel s p n = Some (s, p))
  /\ (heap_ok s -> live s p -> n + 30 < 2 ^ 64 ->
      GET_SIZE (mem s) (HDRP p) - DSIZE < n ->
      forall s' r e, realloc_run fuel s p n = Some (s', r, e) ->
                     (e = ExitGrow \/ e = ExitGrowFail) /\ r <> p).
Proof.
  intros Hp Hn Hb.
  destruct (GET_SIZE_range (mem s) (HDRP p)) as [Hr Hm].
  pose proof (keep_range (GET_SIZE (mem s) (HDRP p)) n Hn Hb Hr Hm) as Hk.
  assert (Hrun : realloc_run fuel s p n
                 = if GET_SIZE (mem s) (HDRP p) >=? ALIGN n
                   then if wrap64 (GET_SIZE (mem s) (HDRP p) - ALIGN n) <? 2 * DSIZE
                        then Some (s, p, ExitKeep)
                        else realloc_run fuel s p n
                   else realloc_run fuel s p n).
  { unfold realloc_run.
    replace (p =? 0) with false by eqb_false.
    replace (n =? 0) with false by eqb_false.
    destruct (GET_SIZE (mem s) (HDRP p) >=? ALIGN n); [|reflexivity].
    destruct (wrap64 (GET_SIZE (mem s) (HDRP p) - ALIGN n) <? 2 * DSIZE); reflexivity. }
  assert (Hkeep : GET_SIZE (mem s) (HDRP p) - 23 <= n <= GET_SIZE (mem s) (HDRP p) - DSIZE ->
                  realloc_run fuel s p n = Some (s, p, ExitKeep)).
  { intros Hin. apply Hk in Hin. destruct Hin as [H1 H2].
    rewrite Hrun, geb_true by lia.
    replace (_ <? _) with true by (symmetry; apply Z.ltb_lt; lia). reflexivity. }
  split; [split; [exact Hkeep|]|split; [|split]].
  - intros E. apply Hk. unfold realloc_run in E.
    replace (p =? 0) with false in E by eqb_false.
    replace (n =? 0) with false in E by eqb_false.
    destruct (GET_SIZE (mem s) (HDRP p) >=? ALIGN n) eqn:E1.
    + rewrite Z.geb_leb in E1. apply Z.leb_le in E1.
      destruct (wrap64 (GET_SIZE (mem s) (HDRP p) - ALIGN n) <? 2 * DSIZE) eqn:E2.
      * apply Z.ltb_lt in E2. now split.
      * discriminate.
    + destruct (ALIGN n >? GET_SIZE (mem s) (HDRP p)); [|discriminate].
      destruct (malloc fuel s (ALIGN n)) as [[s1 q]|]; [|discriminate].
      destruct (q =? 0); discriminate.
  - intros Hin. exact (realloc_of_run _ _ _ _ _ _ _ (Hkeep Hin)).
  - intros fuel0 s0 (bs & fl & W & Hl & Hnaf) Hmal.
    destruct (malloc_exact fuel0 s0 s bs fl n p W Hl Hnaf Hn Hb Hmal)
      as (bs' & fl' & W' & _ & _ & Hhl & Hnew & _).
    destruct (Hnew Hp) as ((sz' & Hin & Hsz) & _). rewrite <- Hhl in Hin.
    destruct (in_use_header _ _ _ _ _ W' Hin) as [Hsize _]. cbn [fst] in Hsize.
    apply (realloc_of_run _ _ _ _ _ _ ExitKeep), Hkeep.
    destruct (adjust_bounds n Hn Hb) as (_ & H8 & H15 & Ham).
    destruct Hr as [_ Hr]. rewrite Hsize in *. unfold DSIZE.
    Z.div_mod_to_equations. lia.
  - intros (bs & fl & W & Hl & Hnaf) Hlive Hb' Hlarge s' r e E.
    destruct (live_located _ _ _ _ W Hlive) as [old Hin].
    destruct (ALIGN_facts n Hn Hb) as (Ha16 & Ha8 & Ha15 & _).
    unfold DSIZE in Hlarge.
    unfold realloc_run in E.
    replace (p =? 0) with false in E by eqb_false.
    replace (n =? 0) with false in E by eqb_false.
    rewrite geb_false, gtb_true in E by lia.
    destruct (malloc fuel s (ALIGN n)) as [[s1 q]|] eqn:Hmal; [|discriminate].
    destruct (q =? 0) eqn:Hq.
    + injection E as _ <- <-. split; [now right | congruence].
    + injection E as _ <- <-. split; [now left|].
      apply Z.eqb_neq in Hq.
      destruct (malloc_exact fuel s s1 bs fl (ALIGN n) q W Hl Hnaf) as
        (bs' & fl' & _ & _ & _ & _ & Hnew & _); [lia | lia | exact Hmal|].
      destruct (Hnew Hq) as (_ & Hfresh). intros ->. exact (Hfresh _ Hin).
Qed.

Lemma realloc_same_size_witness :
  realloc 0 one_live 4112 104 = Some (one_live, 4112)
  /\ realloc 0 one_live 4112 100 = Some (one_live, 4112).
Proof.
  assert (E : GET_SIZE (mem one_live) (HDRP 4112) = 112) by (vm_compute; reflexivity).
  split.
  - destruct (realloc_same_size 0 one_live 4112 104) as (_ & H & _); [lia | lia | lia |].
    apply H. rewrite E. unfold DSIZE. lia.
  - destruct (realloc_same_size 0 one_live 4112 100) as (_ & _ & H & _); [lia | lia | lia |].
    apply (H 8%nat fresh); [exact (reachable_heap_ok fresh fresh_reachable) | vm_compute; reflexivity].
Defined.

(** C8, with the size of a block read as the size in its header, fails: the
    block at [4112] is in use and its header holds the size 112, and
    [realloc] of it to 112 bytes moves it to [4224] and frees it. *)
Lemma realloc_header_size_moves :
  exists s',
    realloc_run 2 one_live 4112 112 = Some (s', 4224, ExitGrow)
    /\ reachable one_live
    /\ live one_live 4112
    /\ GET_SIZE (mem one_live) (HDRP 4112) = 112
    /\ GET_ALLOC (mem one_live) (HDRP 4112) = 1
    /\ ALIGN 112 = 120
    /\ GET_ALLOC (mem s') (HDRP 4112) = 0
    /\ realloc 2 one_live 4112 112 <> Some (one_live, 4112).
Proof.
  destruct (realloc_run_observed (realloc_run 2 one_live 4112 112) 4224 ExitGrow
              (fun s' => GET_ALLOC (mem s') (HDRP 4112) = 0)) as (s' & E & Hfree).
  { vm_compute. repeat split. }
  exists s'. split; [exact E|].
  split; [exact one_live_reachable|]. split; [exact one_live_live|].
  split; [vm_compute; reflexivity|]. split; [vm_compute; reflexivity|].
  split; [vm_compute; reflexivity|]. split; [exact Hfree|].
  rewrite (realloc_of_run _ _ _ _ _ _ _ E). intros H. apply (f_equal (option_map snd)) in H. cbn [option_map snd] in H. discriminate.
Qed.

(** ** [realloc], as its caller sees it *)

Lemma realloc_run_of (fuel : nat) (s s' : state) (ptr n r : Z) :
  realloc fuel s ptr n = Some (s', r) ->
  exists e, realloc_run fuel s ptr n = Some (s', r, e).
Proof.
  unfold realloc. destruct (realloc_run fuel s ptr n) as [[[s1 r1] e]|]; [|discriminate].
  intros H. injection H as <- <-. now exists e.
Qed.

(** X12. On a well-formed heap, [realloc] of a block in use to [n > 0]
    bytes leaves a well-formed heap; a pointer returned is a block in use
    with room for [n] bytes, and when it is not the old pointer the old
    block is no longer in use and the new one was not in use before; when
    [NULL] is returned the old block is as it was; every other block is as
    it was. *)
Theorem realloc_resizes (fuel : nat) (s s' : state) (ptr n r : Z) :
  heap_ok s -> live s ptr -> 0 < n -> n + 30 < 2 ^ 64 ->
  realloc fuel s ptr n = Some (s', r) ->
  heap_ok s'
  /\ (r <> 0 ->
      live s' r /\ n + DSIZE <= GET_SIZE (mem s') (HDRP r)
      /\ (r <> ptr -> ~ live s' ptr /\ ~ live s r))
  /\ (r = 0 -> untouched s s' ptr)
  /\ (forall q, q <> ptr -> q <> r -> untouched s s' q).
Proof.
  intros (bs & fl & W & Hl & Hn) Hlive Hn0 Hb Hrun.
  destruct (realloc_run_of _ _ _ _ _ _ Hrun) as [e Hrun'].
  destruct (live_located _ _ _ _ W Hlive) as [old Hin].
  destruct (realloc_exact fuel s s' bs fl ptr old n r e W Hl Hn Hin Hn0 Hb Hrun')
    as (bs' & fl' & W' & Hl' & Hn' & Hhl & Hsame & Hnew & Hgone & Hnull & Hfresh).
  destruct (ALIGN_facts n Hn0) as (_ & Hamin & _); [lia|].
  split.
  { exists bs', fl'. rewrite Hhl. split; [exact W'|]. split; [exact Hl' | exact Hn']. }
  split; [|split].
  - intros Hr. destruct (Hnew Hr) as (sz' & Hin' & Hsz & _).
    rewrite <- Hhl in Hin'.
    destruct (in_use_header _ _ _ _ _ W' Hin') as [-> _]. cbn [fst]. unfold DSIZE.
    split; [exact (located_live _ _ _ _ _ W' Hin')|]. split; [lia|].
    intros Hne. split.
    + intros Hc. destruct (live_located _ _ _ _ W' Hc) as [sz Hc'].
      rewrite Hhl in Hc'. exact (Hgone Hr Hne _ Hc').
    + intros Hc. destruct (live_located _ _ _ _ W Hc) as [sz Hc'].
      exact (Hfresh Hne _ Hc').
  - intros Hr. destruct (Hnull Hr) as [Hin' Hkept]. rewrite <- Hhl in Hin'.
    split; [split; intros _; [exact Hlive | exact (located_live _ _ _ _ _ W' Hin')]|].
    intros _.
    destruct (in_use_header _ _ _ _ _ W Hin) as [-> _].
    destruct (in_use_header _ _ _ _ _ W' Hin') as [-> _]. cbn [fst].
    split; [reflexivity|]. intros a Ha. unfold byte_at, DSIZE in *. now rewrite Hkept.
  - intros q Hq1 Hq2.
    apply (same_but_untouched _ _ _ _ _ _ _ q W W' Hhl Hsame). tauto.
Qed.

Lemma realloc_resizes_witness :
  exists s', realloc 8 one_live 4112 50 = Some (s', 4112)
  /\ heap_ok s'
  /\ (4112 <> 0 ->
      live s' 4112 /\ 50 + DSIZE <= GET_SIZE (mem s') (HDRP 4112)
      /\ (4112 <> 4112 -> ~ live s' 4112 /\ ~ live one_live 4112))
  /\ (4112 = 0 -> untouched one_live s' 4112)
  /\ (forall q, q <> 4112 -> q <> 4112 -> untouched one_live s' q).
Proof.
  destruct (run_observed (realloc 8 one_live 4112 50) 4112) as [s' E];
    [vm_compute; reflexivity|].
  exists s'. split; [exact E|].
  apply (realloc_resizes 8 one_live s' 4112 50 4112
           (reachable_heap_ok one_live one_live_reachable) one_live_live);
    [lia | lia | exact E].
Defined.

Lemma realloc_total (fuel : nat) (s : state) (bs : list block) (fl : list Z) (ptr n : Z) :
  wf s bs fl -> (length fl < fuel)%nat ->
  exists r, realloc fuel s ptr n = Some r.
Proof.
  intros W Hfuel. unfold realloc, realloc_run.
  destruct (ptr =? 0).
  - destruct (malloc_total fuel s bs fl n W Hfuel) as [[s1 p] ->]. eauto.
  - destruct (n =? 0); [eauto|].
    destruct (GET_SIZE (mem s) (HDRP ptr) >=? ALIGN n).
    + destruct (wrap64 (GET_SIZE (mem s) (HDRP ptr) - ALIGN n) <? 2 * DSIZE); eauto.
    + destruct (ALIGN n >? GET_SIZE (mem s) (HDRP ptr)); [|eauto].
      destruct (malloc_total fuel s bs fl (ALIGN n) W Hfuel) as [[s1 p] ->].
      destruct (p =? 0); eauto.
Qed.

(** X13. [realloc] keeps the contents: for a request of [n] bytes, [n > 0]
    and [n + 30] below [2 ^ 64] (so that no size computed wraps around),
    the call on a block in use returns, and a block returned holds, byte
    for byte, what the old block held, up to the size asked for or to the
    end of the old payload, whichever comes first. *)
Theorem realloc_keeps_contents (s : state) (ptr n : Z) :
  heap_ok s -> live s ptr -> 0 < n -> n + 30 < 2 ^ 64 ->
  exists fuel0, forall fuel, (fuel0 <= fuel)%nat ->
    exists s' r,
      realloc fuel s ptr n = Some (s', r)
      /\ (r <> 0 ->
          forall i, 0 <= i < n -> i < GET_SIZE (mem s) (HDRP ptr) - DSIZE ->
                    byte_at (mem s') (r + i) = byte_at (mem s) (ptr + i)).
Proof.
  intros (bs & fl & W & Hl & Hn) Hlive Hn0 Hb.
  exists (S (length fl)). intros fuel Hfuel.
  destruct (realloc_total fuel s bs fl ptr n W) as [[s' r] Hrun]; [lia|].
  exists s', r. split; [exact Hrun|]. intros Hr i Hi1 Hi2.
  destruct (realloc_run_of _ _ _ _ _ _ Hrun) as [e Hrun'].
  destruct (live_located _ _ _ _ W Hlive) as [old Hin].
  destruct (realloc_exact fuel s s' bs fl ptr old n r e W Hl Hn Hin Hn0 Hb Hrun')
    as (bs' & fl' & _ & _ & _ & _ & _ & Hnew & _).
  destruct (ALIGN_facts n Hn0) as (_ & Hamin & _); [lia|].
  destruct (Hnew Hr) as (sz' & _ & Hsz & _ & Hcopy).
  destruct (in_use_header _ _ _ _ _ W Hin) as [Hold _]. cbn [fst] in Hold.
  rewrite Hold in Hi2. unfold DSIZE in Hi2.
  unfold byte_at. rewrite Hcopy by lia. reflexivity.
Qed.

Lemma realloc_keeps_contents_witness :
  exists fuel0, forall fuel, (fuel0 <= fuel)%nat ->
    exists s' r,
      realloc fuel one_live 4112 200 = Some (s', r)
      /\ (r <> 0 ->
          forall i, 0 <= i < 200 -> i < GET_SIZE (mem one_live) (HDRP 4112) - DSIZE ->
                    byte_at (mem s') (r + i) = byte_at (mem one_live) (4112 + i)).
Proof.
  apply (realloc_keeps_contents one_live 4112 200
           (reachable_heap_ok one_live one_live_reachable) one_live_live); lia.
Defined.


(** ** [mm_init], and the layout of the heap *)

Lemma total_zero_nil (l : list block) : Forall sized l -> total l = 0 -> l = [].
Proof.
  intros Hs Ht. destruct l as [|b r]; [reflexivity|]. exfalso.
  pose proof (Forall_inv Hs) as [? _]. pose proof (total_nonneg _ (Forall_inv_tail Hs)).
  cbn [total] in Ht. lia.
Qed.

(** X1. [mm_init] returns [0] or [-1], and [0] exactly when the provider has
    room for the sixteen bytes of the padding, the prologue and the
    epilogue and for a first chunk of [CHUNKSIZE] bytes; the heap is then
    well formed and consists of the prologue and of one free block of
    [CHUNKSIZE] bytes, which is the free list. *)
Theorem mm_init_result (s : state) :
  provider_ok s ->
  (snd (mm_init s) = 0 \/ snd (mm_init s) = -1)
  /\ (snd (mm_init s) = 0 <-> mem_brk s + 2 * DSIZE + CHUNKSIZE <= mem_max s)
  /\ (snd (mm_init s) = 0 ->
      heap_ok (fst (mm_init s))
      /\ heap_listp (fst (mm_init s)) = mem_lo s + mem_brk s + DSIZE
      /\ mem_brk (fst (mm_init s)) = mem_brk s + 2 * DSIZE + CHUNKSIZE
      /\ freelist (fst (mm_init s)) = DSIZE
      /\ heap_blocks 3 (mem (fst (mm_init s))) (heap_listp (fst (mm_init s)))
         = Some [(mem_lo s + mem_brk s + 8, 8, 1); (mem_lo s + mem_brk s + 16, 256, 0)]).
Proof.
  intros (Hlo & Hbrk & Hmax).
  change CHUNKSIZE with 256. unfold DSIZE.
  destruct (sbrk_fits s (2 * 8)) eqn:Hfits.
  - assert (Hfits' := Hfits). unfold sbrk_fits in Hfits'.
    apply andb_true_iff in Hfits'. destruct Hfits' as [_ Hfit']. apply Z.leb_le in Hfit'.
    unfold mm_init, mem_sbrk, DSIZE. rewrite Hfits. cbv zeta. st.
    replace (mem_lo s + mem_brk s =? -1) with false by eqb_false.
    set (p := mem_lo s + mem_brk s).
    match goal with |- context [extend_heap ?st _] => set (s6 := st) end.
    assert (W6 : wf s6 [] []).
    { subst s6. unfold WSIZE. constructor; st; cbn [total located].
      - lia.
      - lia.
      - lia.
      - constructor.
      - change (PACK 8 1) with 9. change (PACK 0 1) with 1.
        repeat split; cbn [fst snd].
        + replace (p + 2 * 4 - 4) with (p + 1 * 4) by lia.
          rewrite !GET_PUT_other by lia. now rewrite GET_PUT_same.
        + replace (p + 2 * 4 + 8 - 8) with (p + 2 * 4) by lia.
          rewrite !GET_PUT_other by lia. now rewrite GET_PUT_same.
        + constructor.
        + cbn [total]. replace (p + 2 * 4 + 8 + 0 - 4) with (p + 3 * 4) by lia.
          now rewrite GET_PUT_same.
      - intros a [].
      - constructor.
      - exact I.
      - reflexivity. }
    assert (Hhl6 : heap_listp s6 = p + 8) by (subst s6; st; unfold WSIZE; lia).
    assert (Hbrk6 : mem_brk s6 = mem_brk s + 16) by reflexivity.
    assert (Hlo6 : mem_lo s6 = mem_lo s) by reflexivity.
    assert (Hmax6 : mem_max s6 = mem_max s) by reflexivity.
    assert (Hl6 : listed (heap_listp s6 + 8) [] []) by (intros a sz []).
    change (CHUNKSIZE / WSIZE) with (256 / WSIZE).
    destruct (sbrk_fits s6 256) eqn:Hfits6.
    + assert (Hfits6' := Hfits6). unfold sbrk_fits in Hfits6'.
      apply andb_true_iff in Hfits6'. destruct Hfits6' as [_ Hfit6]. apply Z.leb_le in Hfit6.
      destruct (extend_heap_exact s6 [] [] 256 W6 Hl6 I)
        as (bs1 & fl1 & sz1 & W1 & Hl1 & Hn1 & Hhl1 & Hin1 & Hb1 & _ & _ & _ & Hhd & Hend
            & Hsz1 & Hbrk1 & _ & Hlo7 & _); try assumption; [lia | reflexivity |].
      destruct (extend_heap s6 (256 / WSIZE)) as [s7 bp]. cbn [fst snd] in *.
      cbn [last free_size snd] in Hsz1.
      destruct (wf_free_block _ _ _ W1 _ Hin1) as (? & _ & _ & Hlo1 & _).
      destruct (wf_lo _ _ _ W1) as [? ?].
      replace (bp =? 0) with false by eqb_false. cbn [fst snd].
      split; [now left|]. split; [split; [intros _; lia | reflexivity]|].
      intros _.
      assert (Hbs1 : bs1 = [(256, false)]).
      { pose proof (wf_end _ _ _ W1) as Hend1.
        pose proof (wf_sized _ _ _ W1) as Hs1.
        destruct (In_located_split _ _ _ _ Hb1) as (k1 & k2 & E & Ha). subst bs1.
        apply Forall_app in Hs1. destruct Hs1 as [Hk1 Hk2].
        pose proof (total_nonneg _ Hk1). pose proof (total_nonneg _ (Forall_inv_tail Hk2)).
        rewrite total_app in Hend1. cbn [total fst] in Hend1.
        rewrite (total_zero_nil k1), (total_zero_nil k2); 
          [subst sz1; reflexivity | exact (Forall_inv_tail Hk2) | lia | exact Hk1 | lia]. }
      subst bs1.
      split; [exists [(256, false)], fl1; rewrite Hhl1; split; [exact W1|]; split; assumption|].
      split; [lia|]. split; [lia|].
      split.
      * rewrite (wf_head _ _ _ W1). destruct fl1 as [|c r]; [destruct Hin1|].
        cbn [hd] in Hhd. subst c. cbn [off_hd]. cbn [located In] in Hb1.
        destruct Hb1 as [Hb1|[]]. injection Hb1 as Hb1 _. lia.
      * rewrite (wf_heap_blocks s7 [(256, false)] fl1 3 W1) by (cbn; lia).
        rewrite Hhl1, Hhl6. cbn [located map fst snd]. unfold block_view.
        cbn [fst snd Z.b2z]. subst p.
        replace (mem_lo s + mem_brk s + 8 + 8) with (mem_lo s + mem_brk s + 16) by lia.
        reflexivity.
    + change 256 with (MAX 0 CHUNKSIZE) in Hfits6 |- *.
      rewrite (extend_heap_fail s6 0) by (try assumption; try reflexivity; lia).
      cbn [fst snd Z.eqb]. split; [now right|].
      unfold sbrk_fits in Hfits6. rewrite Hbrk6, Hmax6 in Hfits6.
      change (MAX 0 CHUNKSIZE) with 256 in *. change (0 <=? 256) with true in Hfits6.
      cbn [andb] in Hfits6. apply Z.leb_gt in Hfits6.
      split; [split; [discriminate | lia] | discriminate].
  - unfold mm_init, mem_sbrk, DSIZE. rewrite Hfits. cbv zeta. st. cbn [Z.eqb snd fst].
    unfold sbrk_fits in Hfits. change (0 <=? 2 * 8) with true in Hfits.
    cbn [andb] in Hfits. apply Z.leb_gt in Hfits.
    split; [now right|]. split; [split; [discriminate | lia] | discriminate].
Qed.

Lemma mm_init_result_witness :
  (snd (mm_init roomy) = 0 \/ snd (mm_init roomy) = -1)
  /\ (snd (mm_init roomy) = 0 <-> mem_brk roomy + 2 * DSIZE + CHUNKSIZE <= mem_max roomy)
  /\ (snd (mm_init roomy) = 0 ->
      heap_ok (fst (mm_init roomy))
      /\ heap_listp (fst (mm_init roomy)) = mem_lo roomy + mem_brk roomy + DSIZE
      /\ mem_brk (fst (mm_init roomy)) = mem_brk roomy + 2 * DSIZE + CHUNKSIZE
      /\ freelist (fst (mm_init roomy)) = DSIZE
      /\ heap_blocks 3 (mem (fst (mm_init roomy))) (heap_listp (fst (mm_init roomy)))
         = Some [(mem_lo roomy + mem_brk roomy + 8, 8, 1);
                 (mem_lo roomy + mem_brk roomy + 16, 256, 0)]).
Proof. exact (mm_init_result roomy roomy_provider). Defined.

(** X18. The layout of a block in use of a well-formed heap: its header
    has the allocated bit and a size that is a multiple of eight, of
    sixteen bytes at least; its footer equals its header; it lies inside
    the heap after the prologue; it is aligned on eight bytes when the heap
    is; and it overlaps no other block in use. *)
Theorem live_blocks_layout (s : state) (q : Z) :
  heap_ok s -> live s q ->
  GET_ALLOC (mem s) (HDRP q) = 1
  /\ 2 * DSIZE <= GET_SIZE (mem s) (HDRP q)
  /\ GET_SIZE (mem s) (HDRP q) mod 8 = 0
  /\ GET (mem s) (FTRP (mem s) q) = GET (mem s) (HDRP q)
  /\ heap_listp s + DSIZE <= q
  /\ q + GET_SIZE (mem s) (HDRP q) <= mem_heap_lo s + mem_heapsize s
  /\ (heap_listp s mod 8 = 0 -> q mod 8 = 0)
  /\ (forall q', live s q' -> q' <> q ->
        q + GET_SIZE (mem s) (HDRP q) <= q' \/ q' + GET_SIZE (mem s) (HDRP q') <= q).
Proof.
  intros (bs & fl & W & Hl & Hn) Hlive.
  destruct (live_located _ _ _ _ W Hlive) as [sz Hin].
  destruct (in_use_header _ _ _ _ _ W Hin) as [Hsize Halloc]. cbn [fst snd Z.b2z] in *.
  destruct (wf_block _ _ _ W _ _ Hin) as (Hh & Hf & Hsz & Hm & Hlo & Hhi). cbn [fst] in *.
  rewrite Hsize. unfold DSIZE, mem_heap_lo, mem_heapsize.
  split; [exact Halloc|]. split; [lia|]. split; [exact Hm|].
  split.
  { rewrite (FTRP_tagged _ _ (sz, true) Hh Hm). cbn [fst]. unfold HDRP, WSIZE. congruence. }
  split; [lia|]. split; [lia|]. split.
  - intros Hal. apply (located_aligned _ _ _ _ (wf_sized _ _ _ W)) in Hin; [assumption|].
    Z.div_mod_to_equations. lia.
  - intros q' Hlive' Hne. destruct (live_located _ _ _ _ W Hlive') as [sz' Hin'].
    destruct (in_use_header _ _ _ _ _ W Hin') as [-> _]. cbn [fst].
    destruct (located_disjoint _ _ _ _ _ _ (wf_sized _ _ _ W) Hin Hin') as [[E _]|[?|?]];
      cbn [fst] in *; [now contradiction Hne | now left | now right].
Qed.

Lemma live_blocks_layout_witness :
  GET_ALLOC (mem one_live) (HDRP 4112) = 1
  /\ 2 * DSIZE <= GET_SIZE (mem one_live) (HDRP 4112)
  /\ GET_SIZE (mem one_live) (HDRP 4112) mod 8 = 0
  /\ GET (mem one_live) (FTRP (mem one_live) 4112) = GET (mem one_live) (HDRP 4112)
  /\ heap_listp one_live + DSIZE <= 4112
  /\ 4112 + GET_SIZE (mem one_live) (HDRP 4112) <= mem_heap_lo one_live + mem_heapsize one_live
  /\ (heap_listp one_live mod 8 = 0 -> 4112 mod 8 = 0)
  /\ (forall q', live one_live q' -> q' <> 4112 ->
        4112 + GET_SIZE (mem one_live) (HDRP 4112) <= q'
        \/ q' + GET_SIZE (mem one_live) (HDRP q') <= 4112).
Proof.
  exact (live_blocks_layout one_live 4112
           (reachable_heap_ok one_live one_live_reachable) one_live_live).
Defined.

Lemma view_sizes (a : Z) (bs : list block) :
  fold_right (fun v acc => snd (fst v) + acc) 0 (map block_view (located a bs)) = total bs.
Proof.
  revert a. induction bs as [|b r IH]; intros a; cbn [located map fold_right total];
    [reflexivity|].
  rewrite IH. reflexivity.
Qed.

(** X19. The blocks tile the heap: the sizes of the blocks that the
    physical walk meets, the prologue included, add up to the distance from
    the prologue to the end of the heap, where the walk finds the epilogue
    header. *)
Theorem heap_blocks_tile (s : state) (fuel : nat) (l : list (Z * Z * Z)) :
  heap_ok s ->
  heap_blocks fuel (mem s) (heap_listp s) = Some l ->
  heap_listp s + fold_right (fun v acc => snd (fst v) + acc) 0 l
  = mem_heap_lo s + mem_heapsize s
  /\ GET (mem s) (HDRP (mem_heap_lo s + mem_heapsize s)) = PACK 0 1.
Proof.
  intros (bs & fl & W & _) Hwalk.
  pose proof (wf_heap_blocks s bs fl (Nat.max fuel (S (S (length bs)))) W) as H1.
  rewrite (heap_blocks_mono fuel _ _ _ _ Hwalk) in H1 by lia.
  specialize (H1 ltac:(lia)). injection H1 as ->.
  cbn [fold_right]. rewrite view_sizes. unfold block_view. cbn [fst snd].
  pose proof (wf_end _ _ _ W) as Hend. destruct (wf_shape _ _ _ W) as (_ & _ & He).
  unfold mem_heap_lo, mem_heapsize, HDRP, WSIZE. rewrite <- Hend.
  split; [lia | exact He].
Qed.

Lemma heap_blocks_tile_witness :
  heap_listp one_live
  + fold_right (fun v acc => snd (fst v) + acc) 0
      [(4104, 8, 1); (4112, 112, 1); (4224, 144, 0)]
  = mem_heap_lo one_live + mem_heapsize one_live
  /\ GET (mem one_live) (HDRP (mem_heap_lo one_live + mem_heapsize one_live)) = PACK 0 1.
Proof.
  apply (heap_blocks_tile one_live 4 _ (reachable_heap_ok one_live one_live_reachable)).
  vm_compute. reflexivity.
Defined.


(** ** The checker on a well-formed heap *)

Lemma checkblock_prologue (s : state) (bs : list block) (fl : list Z) :
  wf s bs fl -> heap_listp s mod 8 = 0 -> checkblock s (heap_listp s) = [].
Proof.
  intros W Hal.
  destruct (wf_shape _ _ _ W) as ((Hh & Hf) & _). cbn [fst snd] in Hh, Hf.
  pose proof (wf_end _ _ _ W). pose proof (wf_total_bound _ _ _ W).
  change (tag (8, true)) with 9 in *.
  unfold checkblock, mem_heap_hi, FTRP, GET_ALLOC, GET_SIZE, HDRP, WSIZE, DSIZE.
  rewrite Hh. change (Z.land 9 (Z.lnot 7)) with 8. change (Z.land 9 1) with 1.
  replace (heap_listp s + 8 - 8) with (heap_listp s) in * by lia. rewrite Hf.
  rewrite gtb_false by lia. rewrite Hal. reflexivity.
Qed.

Lemma checkblock_clean (s : state) (l1 l2 : list block) (b : block) (fl : list Z) (a : Z) :
  wf s (l1 ++ b :: l2) fl -> no_adjacent_free (l1 ++ b :: l2) ->
  heap_listp s mod 8 = 0 ->
  a = heap_listp s + 8 + total l1 ->
  checkblock s a = [].
Proof.
  intros W Hnaf Hal Ha.
  pose proof (wf_here _ _ l2 b _ Ha) as Hin.
  destruct (wf_block _ _ _ W _ _ Hin) as (Hh & Hf & Hsz & Hm & Hlo & Hhi).
  destruct (wf_prev _ _ _ _ _ _ W Ha) as (pb & Hplast & Hpf & Hph & Hpm & _).
  destruct (wf_next _ _ _ _ _ _ W Ha) as (nb & Hnhd & Hnh & Hnm & _).
  assert (Ha8 : a mod 8 = 0).
  { apply (located_aligned _ _ _ _ (wf_sized _ _ _ W)) in Hin; [assumption|].
    Z.div_mod_to_equations. lia. }
  unfold checkblock, mem_heap_hi.
  rewrite gtb_false by lia. rewrite Ha8. cbn [Z.eqb negb app].
  rewrite (FTRP_tagged _ _ b Hh Hm).
  replace (GET (mem s) (HDRP a)) with (tag b) by (symmetry; exact Hh).
  rewrite Hf, Z.eqb_refl. cbn [negb app].
  rewrite (GET_ALLOC_HDRP _ _ b Hh Hm).
  destruct b as [sz [|]]; cbn [Z.b2z Z.eqb]; [reflexivity|].
  rewrite (PREV_BLKP_tagged _ _ pb Hpf Hpm).
  rewrite (GET_ALLOC_HDRP _ (a - fst pb) pb Hph Hpm).
  rewrite (NEXT_BLKP_tagged _ _ (sz, false) Hh Hm). cbn [fst].
  rewrite (GET_ALLOC_HDRP _ (a + sz) nb Hnh Hnm).
  apply naf_app in Hnaf. destruct Hnaf as (_ & Hn2 & Hn3). apply naf_cons in Hn2.
  cbn [hd snd] in Hn3. destruct Hn3 as [Hn3|?]; [|discriminate].
  destruct Hn2 as [[?|Hn4] _]; [discriminate|].
  rewrite <- Hplast, Hn3. rewrite <- Hnhd, Hn4. reflexivity.
Qed.

Lemma checkheap_walk_clean (s : state) (bs : list block) (fl : list Z) :
  wf s bs fl -> no_adjacent_free bs -> heap_listp s mod 8 = 0 ->
  forall (l2 l1 : list block) (fuel : nat),
    bs = l1 ++ l2 -> (length l2 < fuel)%nat ->
    mm_checkheap_walk fuel s false (heap_listp s + 8 + total l1)
    = Some ([], heap_listp s + 8 + total bs).
Proof.
  intros W Hnaf Hal. induction l2 as [|b l2 IH]; intros l1 fuel E Hfuel.
  - rewrite app_nil_r in E. subst l1.
    destruct fuel as [|fuel]; [cbn in Hfuel; lia|]. cbn [mm_checkheap_walk].
    destruct (wf_shape _ _ _ W) as (_ & _ & He).
    unfold GET_SIZE, HDRP, WSIZE. rewrite He. reflexivity.
  - destruct fuel as [|fuel]; [cbn in Hfuel; lia|]. cbn [mm_checkheap_walk].
    subst bs.
    pose proof (wf_here s l1 l2 b _ eq_refl) as Hin.
    destruct (wf_block _ _ _ W _ _ Hin) as (Hh & _ & Hsz & Hm & _).
    rewrite (GET_SIZE_HDRP _ _ b Hh Hm). rewrite gtb_true by lia.
    rewrite (checkblock_clean s l1 l2 b fl _ W Hnaf Hal eq_refl).
    rewrite (NEXT_BLKP_tagged _ _ b Hh Hm).
    replace (heap_listp s + 8 + total l1 + fst b)
      with (heap_listp s + 8 + total (l1 ++ [b])) by (rewrite total_app; cbn; lia).
    rewrite (IH (l1 ++ [b]) fuel); [reflexivity | now rewrite <- app_assoc | cbn in Hfuel; lia].
Qed.

Lemma freelist_walk_clean (s : state) (bs : list block) (fl : list Z) :
  wf s bs fl ->
  forall (r : list Z) (a p i : Z) (fuel : nat),
    dll (mem s) (heap_listp s) p (a :: r) 0 -> incl (a :: r) fl ->
    p = 0 \/ In (heap_listp s + p) fl ->
    (length r < fuel)%nat ->
    checkFreeList_walk fuel s a i = Some ([], i + Z.of_nat (length r)).
Proof.
  intros W.
  pose proof (wf_end _ _ _ W) as Hend. pose proof (wf_total_bound _ _ _ W) as Hbd.
  destruct (wf_lo _ _ _ W) as [Hlo1 Hlo2].
  induction r as [|b r IH]; intros a p i fuel Hdl Hincl Hp Hfuel;
    (destruct fuel as [|fuel]; [cbn in Hfuel; lia|]); cbn [checkFreeList_walk];
    cbn [dll] in Hdl; destruct Hdl as (Hprev & Hnext & Hdl); unfold WSIZE.
  - cbn [off_hd] in Hnext. rewrite Hnext. cbn [Z.eqb negb length Z.of_nat].
    now rewrite Z.add_0_r.
  - cbn [off_hd] in Hnext. rewrite Hnext, Hprev.
    assert (Ha : In a fl) by (apply Hincl; now left).
    assert (Hb : In b fl) by (apply Hincl; right; now left).
    destruct (wf_free_block _ _ _ W a Ha) as (sza & Hina & ? & ? & ?).
    destruct (wf_free_block _ _ _ W b Hb) as (szb & Hinb & ? & ? & ?).
    destruct (wf_free_offset _ _ _ W a Ha) as (? & _ & Hidx).
    destruct (in_use_header _ _ _ _ _ W Hina) as [_ Hfree]. cbn [snd Z.b2z] in Hfree.
    replace (b - heap_listp s =? 0) with false by eqb_false. cbn [negb].
    rewrite Hfree. cbn [Z.eqb app].
    unfold GET_ADDR, mem_heap_lo, mem_heap_hi.
    replace (heap_listp s + (b - heap_listp s)) with b by lia.
    assert (Hpb : mem_lo s <= heap_listp s + p <= mem_lo s + mem_brk s - 1).
    { destruct Hp as [->|Hp]; [lia|].
      destruct (wf_free_block _ _ _ W _ Hp) as (? & _ & ? & ? & ?). lia. }
    replace (heap_listp s + p <? mem_lo s) with false by (symmetry; apply Z.ltb_ge; lia).
    rewrite (gtb_false (heap_listp s + p)) by lia.
    replace (b <? mem_lo s) with false by (symmetry; apply Z.ltb_ge; lia).
    rewrite (gtb_false b) by lia. cbn [orb].
    cbn [dll] in Hdl. destruct Hdl as (Hbprev & Hdl'). rewrite Hbprev, Hidx, Z.eqb_refl.
    cbn [negb].
    rewrite (IH b (a - heap_listp s) (i + 1) fuel).
    + cbn [app length]. f_equal. f_equal. lia.
    + cbn [dll]. split; [assumption | exact Hdl'].
    + intros c Hc. apply Hincl. now right.
    + right. now replace (heap_listp s + (a - heap_listp s)) with a by lia.
    + cbn in Hfuel. lia.
Qed.

Lemma count_walk (s : state) (bs : list block) (fl : list Z) :
  wf s bs fl ->
  forall (l2 l1 : list block) (j : Z) (fuel : nat),
    bs = l1 ++ l2 -> (length l2 < fuel)%nat ->
    checkFreeList_count fuel s (heap_listp s + 8 + total l1) j
    = Some (j + Z.of_nat (length (filter (fun b => negb (snd b)) l2))).
Proof.
  intros W. induction l2 as [|b l2 IH]; intros l1 j fuel E Hfuel.
  - rewrite app_nil_r in E. subst l1.
    destruct fuel as [|fuel]; [cbn in Hfuel; lia|]. cbn [checkFreeList_count].
    destruct (wf_shape _ _ _ W) as (_ & _ & He).
    unfold GET_SIZE, HDRP, WSIZE. rewrite He. cbn [filter length Z.of_nat].
    change (Z.land 1 (Z.lnot 7) >? 0) with false. cbv iota. now rewrite Z.add_0_r.
  - destruct fuel as [|fuel]; [cbn in Hfuel; lia|]. cbn [checkFreeList_count].
    subst bs.
    pose proof (wf_here s l1 l2 b _ eq_refl) as Hin.
    destruct (wf_block _ _ _ W _ _ Hin) as (Hh & _ & Hsz & Hm & _).
    rewrite (GET_SIZE_HDRP _ _ b Hh Hm). rewrite gtb_true by lia.
    rewrite (GET_ALLOC_HDRP _ _ b Hh Hm).
    rewrite (NEXT_BLKP_tagged _ _ b Hh Hm).
    replace (heap_listp s + 8 + total l1 + fst b)
      with (heap_listp s + 8 + total (l1 ++ [b])) by (rewrite total_app; cbn; lia).
    rewrite (IH (l1 ++ [b])); [ | now rewrite <- app_assoc | cbn in Hfuel; lia].
    f_equal. cbn [filter]. destruct b as [sz [|]]; cbn [snd negb Z.b2z Z.eqb length]; lia.
Qed.

Lemma free_addresses_nodup (bs : list block) :
  Forall sized bs ->
  forall a,
    NoDup (map fst (filter (fun ab => negb (snd (snd ab))) (located a bs)))
    /\ forall x, In x (map fst (filter (fun ab => negb (snd (snd ab))) (located a bs))) ->
                 a <= x.
Proof.
  induction 1 as [|b r [Hb _] Hr IH]; intros a; cbn [located filter map].
  - split; [constructor | intros x []].
  - destruct (IH (a + fst b)) as [Hnd Hge].
    cbn [snd]. destruct (snd b); cbn [negb map fst].
    + split; [assumption|]. intros x Hx. specialize (Hge _ Hx). lia.
    + split.
      * constructor; [|assumption]. intros Hc. specialize (Hge _ Hc). lia.
      * intros x [<-|Hx]; [lia|]. specialize (Hge _ Hx). lia.
Qed.

Lemma free_addresses_length (bs : list block) (a : Z) :
  length (map fst (filter (fun ab => negb (snd (snd ab))) (located a bs)))
  = length (filter (fun b => negb (snd b)) bs).
Proof.
  revert a. induction bs as [|b r IH]; intros a; cbn [located filter map]; [reflexivity|].
  cbn [snd]. destruct (snd b); cbn [negb map length]; now rewrite IH.
Qed.

(** The free list has as many blocks as the heap has free blocks. *)
Lemma free_count (s : state) (bs : list block) (fl : list Z) :
  wf s bs fl -> listed (heap_listp s + 8) bs fl ->
  length fl = length (filter (fun b => negb (snd b)) bs).
Proof.
  intros W Hl. rewrite <- (free_addresses_length bs (heap_listp s + 8)).
  destruct (free_addresses_nodup bs (wf_sized _ _ _ W) (heap_listp s + 8)) as [Hnd _].
  apply Nat.le_antisymm.
  - apply NoDup_incl_length; [apply (wf_nodup _ _ _ W)|].
    intros c Hc. destruct (wf_free _ _ _ W c Hc) as [sz Hin].
    apply in_map_iff. exists (c, (sz, false)). split; [reflexivity|].
    apply filter_In. now split.
  - apply NoDup_incl_length; [exact Hnd|].
    intros x Hx. apply in_map_iff in Hx. destruct Hx as ([y [sz al]] & E & Hin).
    cbn [fst] in E. subst y. apply filter_In in Hin. destruct Hin as [Hin Hal].
    cbn [snd] in Hal. destruct al; [discriminate|]. exact (Hl _ _ Hin).
Qed.

(** X15. The checker accepts every well-formed, aligned heap: given fuel
    for its walks, [mm_checkheap] without [verbose] prints none of the
    messages of [checkblock], of the prologue and epilogue tests or of the
    list walk of [checkFreeList]; its whole output is "empty freelist" when
    the free list is empty and the message of the count comparison
    otherwise, which the off-by-one of that comparison always prints. *)
Theorem mm_checkheap_accepts (s : state) :
  heap_ok s -> heap_listp s mod 8 = 0 ->
  exists fuel0, forall fuel, (fuel0 <= fuel)%nat ->
    mm_checkheap fuel s false
    = Some (if freelist s =? 0 then [MsgEmptyFreelist] else [MsgCountMismatch]).
Proof.
  intros (bs & fl & W & Hl & Hn) Hal.
  exists (S (S (length bs + length fl))). intros fuel Hfuel.
  destruct fuel as [|fuel]; [lia|].
  destruct (wf_shape _ _ _ W) as ((Hh & Hf) & _ & He). cbn [fst snd] in Hh, Hf.
  change (tag (8, true)) with 9 in *.
  pose proof (wf_end _ _ _ W) as Hend.
  assert (Hwalk : mm_checkheap_walk (S fuel) s false (heap_listp s)
                  = Some ([], heap_listp s + 8 + total bs)).
  { cbn [mm_checkheap_walk]. unfold GET_SIZE, HDRP, WSIZE. rewrite Hh.
    change (Z.land 9 (Z.lnot 7) >? 0) with true. cbv iota.
    rewrite (checkblock_prologue s bs fl W Hal). unfold NEXT_BLKP, GET_SIZE, WSIZE.
    rewrite Hh. change (Z.land 9 (Z.lnot 7)) with 8.
    pose proof (checkheap_walk_clean s bs fl W Hn Hal bs [] fuel eq_refl) as Hw.
    cbn [total] in Hw. rewrite Z.add_0_r in Hw. rewrite Hw by lia. reflexivity. }
  assert (Hcount : checkFreeList_count (S fuel) s (heap_listp s) 0
                   = Some (Z.of_nat (length fl))).
  { cbn [checkFreeList_count]. unfold GET_SIZE, GET_ALLOC, HDRP, WSIZE. rewrite Hh.
    change (Z.land 9 (Z.lnot 7) >? 0) with true. change (Z.land 9 1 =? 0) with false.
    cbv iota. unfold NEXT_BLKP, GET_SIZE, WSIZE.
    rewrite Hh. change (Z.land 9 (Z.lnot 7)) with 8.
    pose proof (count_walk s bs fl W bs [] 0 fuel eq_refl) as Hw.
    cbn [total] in Hw. rewrite Z.add_0_r in Hw. rewrite Hw by lia.
    now rewrite (free_count s bs fl W Hl). }
  assert (Hlist : checkFreeList (S fuel) s
                  = Some (if freelist s =? 0 then [MsgEmptyFreelist] else [MsgCountMismatch])).
  { unfold checkFreeList. rewrite (wf_head _ _ _ W).
    destruct fl as [|c r] eqn:Efl; cbn [off_hd]; [reflexivity|]. rewrite <- Efl in *.
    assert (Hc : In c fl) by (rewrite Efl; now left).
    destruct (wf_free_offset _ _ _ W c Hc) as (? & _).
    replace (c - heap_listp s =? 0) with false by eqb_false.
    unfold GET_ADDR. replace (heap_listp s + (c - heap_listp s)) with c by lia.
    pose proof (wf_links _ _ _ W) as Hdl. rewrite Efl in Hdl.
    assert (Hprev : GET (mem s) c = 0) by (cbn [dll] in Hdl; apply Hdl).
    rewrite Hprev. cbn [Z.eqb negb app].
    rewrite (freelist_walk_clean s bs fl W r c 0 1 (S fuel) Hdl);
      [ | rewrite Efl; apply incl_refl | now left | rewrite Efl in Hfuel; cbn in Hfuel; lia].
    rewrite Hcount. rewrite Efl. cbn [length].
    replace (1 + Z.of_nat (length r) - 1 =? Z.of_nat (S (length r))) with false
      by (symmetry; apply Z.eqb_neq; lia).
    reflexivity. }
  unfold mm_checkheap. rewrite Hwalk, Hlist.
  rewrite (checkblock_prologue s bs fl W Hal).
  unfold mem_heap_lo, mem_heapsize, GET_SIZE, GET_ALLOC, HDRP, WSIZE, DSIZE.
  rewrite Hh, He. rewrite <- Hend, Z.eqb_refl.
  change (Z.land 9 (Z.lnot 7) =? 8) with true. change (Z.land 9 1 =? 0) with false.
  change (Z.land 1 (Z.lnot 7) =? 0) with true. change (Z.land 1 1 =? 0) with false.
  rewrite ?Z.eqb_refl. cbn [negb orb app]. now rewrite !app_nil_r.
Qed.

Lemma mm_checkheap_accepts_witness :
  exists fuel0, forall fuel, (fuel0 <= fuel)%nat ->
    mm_checkheap fuel one_live false
    = Some (if freelist one_live =? 0 then [MsgEmptyFreelist] else [MsgCountMismatch]).
Proof.
  apply (mm_checkheap_accepts one_live (reachable_heap_ok one_live one_live_reachable)).
  vm_compute. reflexivity.
Defined.

(** ** Calls of the provider *)

Lemma provider_step_same (s s' : state) : same_provider s s' -> provider_step s s'.
Proof. intros (H1 & H2 & H3 & H4 & H5). repeat split; try assumption. now left. Qed.

Lemma provider_step_then_same (s s1 s2 : state) :
  provider_step s s1 -> same_provider s1 s2 -> provider_step s s2.
Proof.
  intros (A1 & A2 & A3 & A4) (B1 & B2 & B3 & B4 & B5).
  split; [congruence|]. split; [congruence|]. split; [congruence|].
  rewrite B2, B4. exact A4.
Qed.

Lemma set_mem_provider (s : state) (m : memory) : same_provider s (set_mem s m).
Proof. now repeat split. Qed.

Lemma extend_heap_step (s : state) (words : Z) :
  provider_step s (fst (extend_heap s words)).
Proof.
  unfold extend_heap.
  set (size := if negb (words mod 2 =? 0)
               then wrap64 ((words + 1) * WSIZE) else wrap64 (words * WSIZE)).
  unfold mem_sbrk. destruct (sbrk_fits s size) eqn:F.
  - unfold sbrk_fits in F. apply andb_true_iff in F. destruct F as [F _].
    apply Z.leb_le in F.
    set (s1 := mkState (mem s) (mem_lo s) (mem_brk s + size) (mem_max s)
                       (size :: sbrk_log s) (heap_listp s) (freelist s)).
    assert (H1 : provider_step s s1).
    { repeat split. right. exists size. split; [reflexivity|]. right. now split. }
    destruct (mem_lo s + mem_brk s =? -1); [exact H1|]. cbv zeta.
    match goal with |- context [coalesce ?st ?b] =>
      pose proof (coalesce_provider st b) as Hc; destruct (coalesce st b) as [s6 bp']
    end.
    cbn [fst] in *.
    apply (provider_step_then_same _ _ _ H1).
    eapply same_provider_trans; [|apply addToFreeList_provider].
    eapply same_provider_trans; [|exact Hc]. provider.
  - cbn [Z.eqb fst]. repeat split. right. exists size. split; [reflexivity | now left].
Qed.

Lemma malloc_step (fuel : nat) (s s' : state) (n p : Z) :
  malloc fuel s n = Some (s', p) -> provider_step s s'.
Proof.
  unfold malloc. destruct (n =? 0).
  { intros H. injection H as <- _. apply provider_step_same, same_provider_refl. }
  destruct (find_fit fuel s (adjust n)) as [bp|]; [|discriminate].
  destruct (bp =? 0); cbn [negb].
  - pose proof (extend_heap_step s (MAX (adjust n) CHUNKSIZE / WSIZE)) as H.
    destruct (extend_heap s (MAX (adjust n) CHUNKSIZE / WSIZE)) as [s1 bp1]. cbn [fst] in H.
    destruct (bp1 =? 0); intros E; injection E as <- _; [exact H|].
    exact (provider_step_then_same _ _ _ H (place_provider _ _ _)).
  - intros E. injection E as <- _. apply provider_step_same, place_provider.
Qed.

(** X20. Whatever the state, a public call other than [mm_init] asks the
    provider at most once; the heap stays where it is and never shrinks: it
    keeps its size or grows by the number of bytes that were asked for. *)
Theorem provider_calls (fuel : nat) (s s' : state) (c : call) (r : Z) :
  c <> CallInit -> run_call fuel s c = Some (s', r) -> provider_step s s'.
Proof.
  intros Hc Hrun. destruct c as [|n|bp|ptr n|k n]; cbn [run_call] in Hrun.
  - now contradiction Hc.
  - exact (malloc_step _ _ _ _ _ Hrun).
  - injection Hrun as <- _. apply provider_step_same, free_provider.
  - unfold realloc, realloc_run in Hrun.
    destruct (ptr =? 0).
    { destruct (malloc fuel s n) as [[s1 p]|] eqn:Hm; [|discriminate].
      injection Hrun as <- _. exact (malloc_step _ _ _ _ _ Hm). }
    destruct (n =? 0).
    { injection Hrun as <- _. apply provider_step_same, free_provider. }
    destruct (GET_SIZE (mem s) (HDRP ptr) >=? ALIGN n).
    + destruct (wrap64 (GET_SIZE (mem s) (HDRP ptr) - ALIGN n) <? 2 * DSIZE).
      * injection Hrun as <- _. apply provider_step_same, same_provider_refl.
      * injection Hrun as <- _. apply provider_step_same.
        eapply same_provider_trans; [|apply addToFreeList_provider].
        eapply same_provider_trans; [|apply coalesce_provider]. provider.
    + destruct (ALIGN n >? GET_SIZE (mem s) (HDRP ptr)).
      * destruct (malloc fuel s (ALIGN n)) as [[s1 p]|] eqn:Hm; [|discriminate].
        pose proof (malloc_step _ _ _ _ _ Hm) as H.
        destruct (p =? 0); injection Hrun as <- _; [exact H|].
        apply (provider_step_then_same _ _ _ H).
        eapply same_provider_trans; [apply set_mem_provider | apply free_provider].
      * injection Hrun as <- _. apply provider_step_same, same_provider_refl.
  - unfold calloc in Hrun.
    destruct (malloc fuel s (wrap64 (k * n))) as [[s1 p]|] eqn:Hm; [|discriminate].
    pose proof (malloc_step _ _ _ _ _ Hm) as H.
    destruct (negb (p =? 0)); injection Hrun as <- _; [|exact H].
    exact (provider_step_then_same _ _ _ H (set_mem_provider _ _)).
Qed.

Lemma provider_calls_witness :
  exists s', run_call 8 one_live (CallMalloc 1000) = Some (s', 4224)
  /\ provider_step one_live s'.
Proof.
  destruct (run_observed (run_call 8 one_live (CallMalloc 1000)) 4224) as [s' E];
    [vm_compute; reflexivity|].
  exists s'. split; [exact E|].
  apply (provider_calls 8 one_live s' (CallMalloc 1000) 4224); [discriminate | exact E].
Defined.

(** ** The macros *)

(** X21. A tag that is stored is read back: for a size that is a multiple of
    eight and fits 32 bits, and an allocated bit, [GET_SIZE] and [GET_ALLOC]
    of the word written by [PUT (PACK size alloc)] give back the two, and
    the words that do not overlap it are as they were. *)
Theorem tag_round_trip (m : memory) (p size alloc : Z) :
  0 <= size < 2 ^ 32 -> size mod 8 = 0 -> 0 <= alloc <= 1 ->
  GET_SIZE (PUT m p (PACK size alloc)) p = size
  /\ GET_ALLOC (PUT m p (PACK size alloc)) p = alloc
  /\ (forall q, q + WSIZE <= p \/ p + WSIZE <= q ->
                GET (PUT m p (PACK size alloc)) q = GET m q).
Proof.
  intros Hs Hm Ha.
  assert (Hp : PACK size alloc = size + alloc)
    by (apply PACK_add; [Z.div_mod_to_equations; lia | assumption]).
  split; [|split].
  - rewrite GET_SIZE_eq, GET_PUT_same, Hp.
    rewrite wrap32_small by (Z.div_mod_to_equations; lia).
    Z.div_mod_to_equations. lia.
  - rewrite GET_ALLOC_eq, GET_PUT_same, Hp.
    rewrite wrap32_small by (Z.div_mod_to_equations; lia).
    Z.div_mod_to_equations. lia.
  - intros q Hq. apply GET_PUT_other. unfold WSIZE in Hq. lia.
Qed.

Lemma tag_round_trip_witness :
  GET_SIZE (PUT zero_memory 4108 (PACK 256 1)) 4108 = 256
  /\ GET_ALLOC (PUT zero_memory 4108 (PACK 256 1)) 4108 = 1
  /\ (forall q, q + WSIZE <= 4108 \/ 4108 + WSIZE <= q ->
                GET (PUT zero_memory 4108 (PACK 256 1)) q = GET zero_memory q).
Proof. apply (tag_round_trip zero_memory 4108 256 1); [lia | reflexivity | lia]. Defined.

(** X22. The adjusted size of a request of [n] bytes is the least multiple
    of eight that holds [n] bytes and the two tags and is at least sixteen. *)
Theorem adjust_rounds_up (n : Z) :
  0 < n -> n + 15 < 2 ^ 64 ->
  adjust n mod 8 = 0
  /\ 2 * DSIZE <= adjust n
  /\ n + DSIZE <= adjust n
  /\ (DSIZE < n -> adjust n < n + 2 * DSIZE)
  /\ (forall k, k mod 8 = 0 -> 2 * DSIZE <= k -> n + DSIZE <= k -> adjust n <= k).
Proof.
  intros Hn Hb. destruct (adjust_bounds n Hn Hb) as (H16 & Hmin & Hmax & Hm).
  unfold DSIZE. repeat split; try assumption; try lia.
  intros k Hk H1 H2. unfold adjust, DSIZE in *. destruct (n <=? 8) eqn:E; [lia|].
  apply Z.leb_gt in E. pose proof (ALIGN_bounds n ltac:(lia)).
  Z.div_mod_to_equations. lia.
Qed.

Lemma adjust_rounds_up_witness :
  adjust 100 mod 8 = 0
  /\ 2 * DSIZE <= adjust 100
  /\ 100 + DSIZE <= adjust 100
  /\ (DSIZE < 100 -> adjust 100 < 100 + 2 * DSIZE)
  /\ (forall k, k mod 8 = 0 -> 2 * DSIZE <= k -> 100 + DSIZE <= k -> adjust 100 <= k).
Proof. apply (adjust_rounds_up 100); lia. Defined.

(** ** Reachable heaps *)

Lemma reachable_no_adjacent_free_witness :
  exists fuel l,
    heap_blocks fuel (mem recycled) (heap_listp recycled) = Some l
    /\ adjacent_free l = false.
Proof. exact (reachable_no_adjacent_free recycled recycled_reachable). Defined.


